(** * md2pdf: the adaptive page-sizing engine

    A shallow embedding of the parts of [src/pdf/generator.ts],
    [src/images/loader.ts], [src/renderer/block.ts] and [src/config/*.ts]
    that decide the height of the single output page, together with the
    properties of the specification that concern them.

    JavaScript numbers are modelled by [number]: exact rationals extended
    with the three IEEE special values the code can produce ([Infinity],
    [-Infinity], [NaN]).  Rounding of binary64 arithmetic is not modelled
    and zero is unsigned (always [+0]); every other case distinction of the
    JavaScript operators used by the source is written out.  The objects
    that the source uses as maps are modelled by their own properties
    together with what they inherit from [Object.prototype]. *)

From Stdlib Require Import ZArith QArith Qcanon Qround Lia Lqa SpecFloat.
From Stdlib Require Import Strings.Byte.
From stdpp Require Import gmap strings list pretty.

Local Open Scope Z_scope.

(** ** JavaScript numbers *)

Module JS.

Inductive number : Type :=
| Fin (q : Qc)
| PosInf
| NegInf
| NaN.

Definition qc (z : Z) : Qc := Q2Qc (inject_Z z).

Definition of_Z (z : Z) : number := Fin (qc z).

Definition Qcltb (a b : Qc) : bool :=
  match (a ?= b)%Qc with Lt => true | _ => false end.

Definition Qceqb (a b : Qc) : bool :=
  match (a ?= b)%Qc with Eq => true | _ => false end.

Definition Qcmin (a b : Qc) : Qc := if Qcltb b a then b else a.
Definition Qcmax (a b : Qc) : Qc := if Qcltb a b then b else a.

(** Sign of a number that is not [NaN]: [Lt] negative, [Eq] zero, [Gt]
    positive. *)
Definition sign (x : number) : comparison :=
  match x with
  | Fin a => (a ?= 0)%Qc
  | PosInf => Gt
  | NegInf => Lt
  | NaN => Eq
  end.

Definition of_sign (s : comparison) : number :=
  match s with Gt => PosInf | Lt => NegInf | Eq => NaN end.

Definition mul_sign (s t : comparison) : comparison :=
  match s, t with
  | Eq, _ | _, Eq => Eq
  | Gt, Gt | Lt, Lt => Gt
  | _, _ => Lt
  end.

(** [a + b] *)
Definition add (x y : number) : number :=
  match x, y with
  | NaN, _ | _, NaN => NaN
  | Fin a, Fin b => Fin (a + b)%Qc
  | PosInf, NegInf | NegInf, PosInf => NaN
  | PosInf, _ | _, PosInf => PosInf
  | NegInf, _ | _, NegInf => NegInf
  end.

Definition opp (x : number) : number :=
  match x with
  | Fin a => Fin (- a)%Qc
  | PosInf => NegInf
  | NegInf => PosInf
  | NaN => NaN
  end.

(** [a - b] *)
Definition sub (x y : number) : number := add x (opp y).

(** [a * b] *)
Definition mul (x y : number) : number :=
  match x, y with
  | NaN, _ | _, NaN => NaN
  | Fin a, Fin b => Fin (a * b)%Qc
  | _, _ => of_sign (mul_sign (sign x) (sign y))
  end.

(** [a / b]: a finite division by zero gives an infinity of the sign of the
    numerator, [0 / 0] is [NaN], a finite number over an infinity is [0]. *)
Definition div (x y : number) : number :=
  match x, y with
  | NaN, _ | _, NaN => NaN
  | Fin a, Fin b =>
      if Qceqb b 0 then of_sign (a ?= 0)%Qc else Fin (a / b)%Qc
  | Fin _, _ => Fin 0%Qc
  | _, Fin b => of_sign (mul_sign (sign x) (if Qcltb b 0 then Lt else Gt))
  | _, _ => NaN
  end.

(** [a < b]; every comparison with [NaN] is false. *)
Definition ltb (x y : number) : bool :=
  match x, y with
  | NaN, _ | _, NaN => false
  | Fin a, Fin b => Qcltb a b
  | NegInf, NegInf | PosInf, _ | _, NegInf => false
  | _, _ => true
  end.

(** [a > b] *)
Definition gtb (x y : number) : bool := ltb y x.

(** [Math.max(a, b)] and [Math.min(a, b)]: [NaN] as soon as one argument
    is. *)
Definition Math_max (x y : number) : number :=
  match x, y with
  | NaN, _ | _, NaN => NaN
  | _, _ => if ltb x y then y else x
  end.

Definition Math_min (x y : number) : number :=
  match x, y with
  | NaN, _ | _, NaN => NaN
  | _, _ => if ltb y x then y else x
  end.

(** [Math.round(x)]: the nearest integer, ties towards [+Infinity]. *)
Definition Math_round (x : number) : number :=
  match x with
  | Fin a => of_Z (Qfloor (this a + (1 # 2)))
  | _ => x
  end.

(** Truthiness of a number: [0] and [NaN] are falsy. *)
Definition truthy (x : number) : bool :=
  match x with
  | Fin a => negb (Qceqb a 0)
  | NaN => false
  | _ => true
  end.

(** [x || d] where [x] is a number or [undefined]. *)
Definition or_default (x : option number) (d : number) : number :=
  match x with
  | Some v => if truthy v then v else d
  | None => d
  end.

(** The order [a <= b] as a proposition; it never holds of [NaN]. *)
Definition le (x y : number) : Prop :=
  match x, y with
  | NaN, _ | _, NaN => False
  | Fin a, Fin b => (a <= b)%Qc
  | NegInf, _ | _, PosInf => True
  | _, _ => False
  end.

Definition is_finite (x : number) : Prop :=
  match x with Fin _ => True | _ => False end.

End JS.

Import JS.

(** ** [src/pdf/generator.ts]: the image extent calculator *)

Record ImageDimensions : Type := mkDims {
  width : number;
  height : number
}.

(** Image fit constraints used in renderer (must match block.ts) *)
Definition IMAGE_FIT_WIDTH : number := of_Z 500.
Definition IMAGE_FIT_HEIGHT : number := of_Z 400.

(** Calculate rendered height for an image given fit constraints *)
Definition calculateImageHeight (dimensions : ImageDimensions) : number :=
  let aspectRatio := div (width dimensions) (height dimensions) in
  let fitAspect := div IMAGE_FIT_WIDTH IMAGE_FIT_HEIGHT in
  if gtb aspectRatio fitAspect then
    div IMAGE_FIT_WIDTH aspectRatio
  else
    Math_min (height dimensions) IMAGE_FIT_HEIGHT.

(** ** [src/config/styles.ts], [src/config/paper.ts] *)

Definition Margin : Type := (number * number * number * number)%type.

Definition margin1 (m : Margin) : number := m.1.1.2.
Definition margin3 (m : Margin) : number := m.2.

Module STYLES.

Definition margins_paragraph : Margin := (of_Z 0, of_Z 5, of_Z 0, of_Z 5).
Definition margins_heading : Margin := (of_Z 0, of_Z 20, of_Z 0, of_Z 10).
Definition margins_codeBlock : Margin := (of_Z 0, of_Z 10, of_Z 0, of_Z 10).
Definition margins_list : Margin := (of_Z 0, of_Z 5, of_Z 0, of_Z 5).
Definition margins_blockquote : Margin := (of_Z 20, of_Z 5, of_Z 20, of_Z 5).
Definition margins_table : Margin := (of_Z 0, of_Z 10, of_Z 0, of_Z 10).
Definition margins_image : Margin := (of_Z 0, of_Z 10, of_Z 0, of_Z 10).

End STYLES.

(** [const mm = (v) => Math.round(v * 2.83465)] *)
Definition mm (v : number) : number :=
  Math_round (mul v (Fin (Q2Qc (283465 # 100000)))).

(** Maximum page height (10000mm) for single-page infinite scroll *)
Definition MAX_PAGE_HEIGHT : number := mm (of_Z 10000).

(** ** Objects used as maps

    [heights], [measuredImageHeights], [data] and [dimensions] are created
    as [{}] and filled by assignments [obj[key] = value]; [imageDimensions],
    [imageHeights], [imagePositions] and [loadedImages] are such objects.
    A [gmap] holds the own properties of the object.  Its prototype is
    [Object.prototype], which shows in two places: reading [obj[key]]
    finds a member of the prototype when the object has no own property
    [key], and writing [obj["__proto__"] = value] runs the setter that the
    prototype has for this key instead of creating a property (an object
    that starts as [{}] and is only written in this way never has an own
    property of this name). *)

(** [Object.getOwnPropertyNames(Object.prototype)] *)
Definition OBJECT_PROTOTYPE_KEYS : list string :=
  ["constructor"; "__defineGetter__"; "__defineSetter__"; "hasOwnProperty";
   "__lookupGetter__"; "__lookupSetter__"; "isPrototypeOf";
   "propertyIsEnumerable"; "toString"; "valueOf"; "__proto__";
   "toLocaleString"].

(** [key in Object.prototype] *)
Definition inherited (key : string) : bool :=
  existsb (String.eqb key) OBJECT_PROTOTYPE_KEYS.

(** What [obj[key]] reads: an own property, else a member of
    [Object.prototype] (a function, or the prototype itself for
    [__proto__]: a truthy value that is neither a number nor a string nor
    a record of the program), else [undefined]. *)
Inductive Property (V : Type) : Type :=
| Own (value : V)
| Inherited
| Undefined.

Arguments Own {V} value.
Arguments Inherited {V}.
Arguments Undefined {V}.

Definition getProperty {V : Type} (obj : gmap string V) (key : string)
    : Property V :=
  match obj !! key with
  | Some value => Own value
  | None => if inherited key then Inherited else Undefined
  end.

(** [obj[key] = value] for a [value] that is a number or a string: the
    setter of [__proto__] ignores a value that is not an object. *)
Definition setProperty {V : Type} (obj : gmap string V) (key : string)
    (value : V) : gmap string V :=
  if String.eqb key "__proto__" then obj else <[key := value]> obj.

(** ** Content trees ([pdfmake]'s [Content], as [src/renderer/types.ts]
    re-exports it)

    An item of a content array is a string or an object.  Of an object the
    model keeps the keys that the renderer sets and the generator reads:
    [text], [image], [fit], [margin], [stack], [columns], [ul], [ol], the
    body of a [table] and the presence of a [canvas]; the remaining keys are
    styling attributes (font size, colours, alignment, widths) that no code
    modelled here inspects. *)

#[local] Set Warnings "-register-all".

(** [StyledText] and [InlineContent] of [src/renderer/types.ts]; the
    optional style attributes are kept as a list of key/value pairs. *)
Inductive StyledText : Type :=
| Styled (text : string) (attrs : list (string * string))
| StyledGroup (text : list StyledText) (attrs : list (string * string)).

Inductive InlineContent : Type :=
| IString (s : string)
| IStyled (t : StyledText)
| IArray (l : list StyledText).

Inductive Content : Type :=
| CString (s : string)
| CObj (text : option InlineContent)
       (image : option string)
       (fit : option (number * number))
       (margin : option Margin)
       (stack : option (list Content))
       (columns : option (list Content))
       (ul : option (list Content))
       (ol : option (list Content))
       (table : option (list (list Content)))
       (canvas : bool).

(** [const dims = imageDimensions[imageId]] as the code goes on to use it:
    [None] when it is [undefined].  A member of [Object.prototype] passes
    the test [if (dims)]; it has no [width] and no [height], and
    [undefined] counts as [NaN] in the division and in [Math.min].
    [imageDimensions] is taken to be an object whose prototype is
    [Object.prototype]. *)
Definition dimensionsOf (dims : Property ImageDimensions)
    : option ImageDimensions :=
  match dims with
  | Own dims => Some dims
  | Inherited => Some (mkDims NaN NaN)
  | Undefined => None
  end.

(** Calculate per-image heights (returns map of imageId -> rendered height
    including margins).  [heights] is the object the inner function
    [processContent] mutates; it is threaded through the traversal. *)
Fixpoint processItem (imageDimensions : gmap string ImageDimensions)
    (item : Content) (heights : gmap string number) : gmap string number :=
  match item with
  | CString _ => heights
  | CObj _ image _ _ stack columns _ _ _ _ =>
      let heights :=
        match image with
        | Some imageId =>
            match dimensionsOf (getProperty imageDimensions imageId) with
            | Some dims =>
                let renderedHeight := calculateImageHeight dims in
                (* Add image margins (top + bottom) *)
                let totalHeight :=
                  add (add renderedHeight (margin1 STYLES.margins_image))
                      (margin3 STYLES.margins_image) in
                setProperty heights imageId totalHeight
            | None => heights
            end
        | None => heights
        end in
      let heights :=
        match stack with
        | Some items =>
            fold_left (fun h it => processItem imageDimensions it h) items heights
        | None => heights
        end in
      match columns with
      | Some items =>
          fold_left (fun h it => processItem imageDimensions it h) items heights
      | None => heights
      end
  end.

Definition processContent (imageDimensions : gmap string ImageDimensions)
    (items : list Content) (heights : gmap string number) : gmap string number :=
  fold_left (fun h it => processItem imageDimensions it h) items heights.

Definition calculateImageHeights (content : list Content)
    (imageDimensions : gmap string ImageDimensions) : gmap string number :=
  processContent imageDimensions content ∅.

(** ** [src/pdf/generator.ts]: the measurement driver

    The layout engine ([pdfmake]) is an external collaborator: a dry run is
    represented by the sequence of nodes it hands to the [pageBreakBefore]
    callback, in the order of the calls. *)

Record Position : Type := mkPosition {
  pageNumber : number;
  top : number
}.

Record ObservedNode : Type := mkNode {
  startPosition : option Position;
  node_image : option string;
  node_height : option number
}.

Record MeasurementResult : Type := mkMeasurement {
  maxY : number;
  measuredImageHeights : gmap string number (* Actually stores image top positions *)
}.

(** The variables the callback closes over. *)
Record MeasureState : Type := mkMeasureState {
  st_maxY : number;
  st_pageCount : number;
  st_measuredImageHeights : gmap string number
}.

Definition pageHeightUsable (pageMargins : Margin) : number :=
  sub (sub MAX_PAGE_HEIGHT (margin1 pageMargins)) (margin3 pageMargins).

(** Bottom edge of a node that carries a start position. *)
Definition nodeBottom (pageMargins : Margin) (sp : Position)
    (currentNode : ObservedNode) : number :=
  let pageOffset := mul (sub (pageNumber sp) (of_Z 1)) (pageHeightUsable pageMargins) in
  add (add pageOffset (top sp)) (or_default (node_height currentNode) (of_Z 0)).

(** A string is truthy when it is not empty. *)
Definition truthy_string (s : string) : bool :=
  match s with EmptyString => false | _ => true end.

(** One call of [pageBreakBefore]; the callback itself always returns
    [false]. *)
Definition pageBreakBefore (pageMargins : Margin) (st : MeasureState)
    (currentNode : ObservedNode) : MeasureState :=
  (* Track page count from node's page number *)
  let pageCount :=
    match startPosition currentNode with
    | Some sp =>
        if gtb (pageNumber sp) (st_pageCount st) then pageNumber sp
        else st_pageCount st
    | None => st_pageCount st
    end in
  (* Track image positions for height calculation *)
  let measured :=
    match node_image currentNode with
    | Some image =>
        if truthy_string image then
          let imageTop :=
            or_default (top <$> startPosition currentNode) (of_Z 0) in
          setProperty (st_measuredImageHeights st) image imageTop
        else st_measuredImageHeights st
    | None => st_measuredImageHeights st
    end in
  (* Track the maximum Y position, accounting for multiple pages *)
  let maxY :=
    match startPosition currentNode with
    | Some sp => Math_max (st_maxY st) (nodeBottom pageMargins sp currentNode)
    | None => st_maxY st
    end in
  mkMeasureState maxY pageCount measured.

Definition measureContentHeight (observed : list ObservedNode)
    (pageMargins : Margin) : MeasurementResult :=
  let st :=
    fold_left (pageBreakBefore pageMargins) observed
      (mkMeasureState (of_Z 0) (of_Z 0) ∅) in
  mkMeasurement (st_maxY st) (st_measuredImageHeights st).

(** ** [src/pdf/generator.ts]: the extent corrector

    [Object.values(..).reduce] and the loop over [Object.entries(..)] visit
    the entries in insertion order; [map_fold] visits them in the order of
    the map.  Both [add] and [Math_max] are commutative and associative on
    [number], so the order is not observable. *)

Definition totalImageHeight (imageHeights : gmap string number) : number :=
  map_fold (fun _ b a => add a b) (of_Z 0) imageHeights.

(** [topPosition + (imageHeights[imageId] || 0)] as [Math.max] reads it.  A
    member of [Object.prototype] is truthy, the sum of a number and such a
    member is a string (the number followed by the text of the function or
    object), and [Math.max] converts that string to [NaN]. *)
Definition expectedBottomOf (imageHeights : gmap string number)
    (imageId : string) (topPosition : number) : number :=
  match getProperty imageHeights imageId with
  | Own imageHeight => add topPosition (or_default (Some imageHeight) (of_Z 0))
  | Inherited => NaN
  | Undefined => add topPosition (or_default None (of_Z 0))
  end.

Definition maxExpectedBottom (imagePositions imageHeights : gmap string number)
    : number :=
  map_fold
    (fun imageId topPosition acc =>
       let expectedBottom := expectedBottomOf imageHeights imageId topPosition in
       Math_max acc expectedBottom)
    (of_Z 0) imagePositions.

Record Correction : Type := mkCorrection {
  contentHeight : number;
  imageHeightCorrection : number
}.

(** Determine content height *)
Definition correctExtent (measurement : MeasurementResult)
    (imageHeights : gmap string number) : Correction :=
  let total := totalImageHeight imageHeights in
  let imagePositions := measuredImageHeights measurement in
  let hasImagePositions := negb (bool_decide (imagePositions = ∅)) in
  if hasImagePositions && gtb total (of_Z 0) then
    (* Calculate expected bottom for each image and find the maximum *)
    let meb := maxExpectedBottom imagePositions imageHeights in
    (* If maxY doesn't account for the full image extent, add correction *)
    let correction :=
      if ltb (maxY measurement) meb then sub meb (maxY measurement)
      else of_Z 0 in
    mkCorrection (add (maxY measurement) correction) correction
  else if gtb total (of_Z 0) then
    (* Fallback: no position info, use empirical correction *)
    let correction := mul total (Fin (Q2Qc (22 # 100))) in
    mkCorrection (add (maxY measurement) correction) correction
  else
    (* No images, use measured height directly *)
    mkCorrection (maxY measurement) (of_Z 0).

(** Calculate final page height *)
Definition bottomPadding : number := of_Z 25.

Definition targetHeightOf (pageMargins : Margin) (contentHeight : number)
    : number :=
  let topMargin := margin1 pageMargins in
  let bottomMargin := margin3 pageMargins in
  add (add (add topMargin contentHeight) bottomMargin) bottomPadding.

(** ** [src/pdf/generator.ts]: the canvas resizer

    A [pdf-lib] page is its size and the translations applied to its
    content, oldest first. *)

Record PDFPage : Type := mkPage {
  page_width : number;
  page_height : number;
  page_translations : list (number * number)
}.

Definition setSize (p : PDFPage) (w h : number) : PDFPage :=
  mkPage w h (page_translations p).

Definition translateContent (p : PDFPage) (x y : number) : PDFPage :=
  mkPage (page_width p) (page_height p) (page_translations p ++ [(x, y)]).

(** [pdfDoc.save()] gives a document without pages one page of the default
    size of [pdf-lib], A4 ([595.28 x 841.89]). *)
Definition defaultPage : PDFPage :=
  mkPage (Fin (Q2Qc (59528 # 100))) (Fin (Q2Qc (84189 # 100))) [].

(** [while (pdfDoc.getPageCount() > 1) pdfDoc.removePage(1)], with the
    first page [p] and the pages after it. *)
Fixpoint removeExtraPages (p : PDFPage) (rest : list PDFPage) : list PDFPage :=
  match rest with
  | [] => [p]
  | _ :: rest' => removeExtraPages p rest'
  end.

Definition resizePages (pages : list PDFPage) (targetHeight : number)
    : list PDFPage :=
  match pages with
  | firstPage :: rest =>
      let width := page_width firstPage in
      (* Set the page height to match content *)
      let firstPage := setSize firstPage width targetHeight in
      (* Adjust the content position (content is at top, so we shift it) *)
      let firstPage :=
        translateContent firstPage (of_Z 0) (sub targetHeight MAX_PAGE_HEIGHT) in
      (* Remove any additional pages (should be only 1) *)
      removeExtraPages firstPage rest
  | [] => [defaultPage]
  end.

(** What [generatePDF] needs of its options. *)
Record GeneratorOptions : Type := mkOptions {
  pageMargins : Margin;
  imageDimensions : gmap string ImageDimensions
}.

(** [generatePDF], given what the two runs of the layout engine produce:
    the nodes observed by the measuring pass and the pages of the rendering
    pass. *)
Definition generatePDF (content : list Content) (options : GeneratorOptions)
    (observed : list ObservedNode) (rendered : list PDFPage) : list PDFPage :=
  (* Pass 1: Measure content height and track image heights *)
  let measurement := measureContentHeight observed (pageMargins options) in
  (* Calculate per-image heights based on actual dimensions *)
  let imageHeights := calculateImageHeights content (imageDimensions options) in
  let c := correctExtent measurement imageHeights in
  let targetHeight := targetHeightOf (pageMargins options) (contentHeight c) in
  (* Pass 3: Resize the page to match content height using pdf-lib *)
  resizePages rendered targetHeight.

(** ** [src/images/loader.ts]: the image header parser

    A [DataView] read past the end of the buffer throws a [RangeError];
    fallible code is written in the error monad [result]. *)

Inductive exn : Type := RangeError.

Inductive result (A : Type) : Type :=
| Return (a : A)
| Throw (e : exn).

Arguments Return {A} a.
Arguments Throw {A} e.

#[global] Instance result_ret : MRet result := fun A a => Return a.
#[global] Instance result_bind : MBind result := fun A B f r =>
  match r with
  | Return a => f a
  | Throw e => Throw e
  end.

Definition byteLength (buffer : list byte) : Z := Z.of_nat (length buffer).

Definition byteAt (buffer : list byte) (i : Z) : Z :=
  Z.of_N (Byte.to_N (nth (Z.to_nat i) buffer Byte.x00)).

(** The big-endian unsigned integers of 2 and 4 bytes at an offset. *)
Definition uint16At (buffer : list byte) (byteOffset : Z) : Z :=
  Z.shiftl (byteAt buffer byteOffset) 8 + byteAt buffer (byteOffset + 1).

Definition uint32At (buffer : list byte) (byteOffset : Z) : Z :=
  Z.shiftl (byteAt buffer byteOffset) 24
  + Z.shiftl (byteAt buffer (byteOffset + 1)) 16
  + Z.shiftl (byteAt buffer (byteOffset + 2)) 8
  + byteAt buffer (byteOffset + 3).

(** [view.getUint16(byteOffset)], big-endian *)
Definition getUint16 (buffer : list byte) (byteOffset : Z) : result Z :=
  if (byteOffset <? 0) || (byteLength buffer <? byteOffset + 2) then
    Throw RangeError
  else
    Return (uint16At buffer byteOffset).

(** [view.getUint32(byteOffset)], big-endian *)
Definition getUint32 (buffer : list byte) (byteOffset : Z) : result Z :=
  if (byteOffset <? 0) || (byteLength buffer <? byteOffset + 4) then
    Throw RangeError
  else
    Return (uint32At buffer byteOffset).

(** Extract dimensions from PNG data *)
Definition getPngDimensions (buffer : list byte)
    : result (option ImageDimensions) :=
  (* PNG signature check *)
  signature ← getUint32 buffer 0;
  if negb (signature =? 0x89504e47) then mret None
  else
    (* Width and height are at bytes 16-23 (big-endian) *)
    width ← getUint32 buffer 16;
    height ← getUint32 buffer 20;
    mret (Some (mkDims (of_Z width) (of_Z height))).

(** SOF markers (Start Of Frame) contain dimensions *)
Definition isSOF (marker : Z) : bool :=
  ((0xffc0 <=? marker) && (marker <=? 0xffc3))
  || ((0xffc5 <=? marker) && (marker <=? 0xffc7))
  || ((0xffc9 <=? marker) && (marker <=? 0xffcb))
  || ((0xffcd <=? marker) && (marker <=? 0xffcf)).

(** The [while (offset < buffer.byteLength)] loop of [getJpegDimensions].
    [fuel] bounds the number of iterations; [None] means that the bound was
    reached before the loop ended. *)
Fixpoint jpegScan (fuel : nat) (buffer : list byte) (offset : Z)
    : option (result (option ImageDimensions)) :=
  match fuel with
  | O => None
  | S fuel =>
      if offset <? byteLength buffer then
        match getUint16 buffer offset with
        | Throw e => Some (Throw e)
        | Return marker =>
            let offset := offset + 2 in
            if isSOF marker then
              Some (height ← getUint16 buffer (offset + 3);
                    width ← getUint16 buffer (offset + 5);
                    mret (Some (mkDims (of_Z width) (of_Z height))))
            (* Skip to next marker *)
            else if marker =? 0xffd9 then Some (Return None) (* EOI *)
            else if marker =? 0xffd8 then jpegScan fuel buffer offset (* SOI *)
            else if (0xffd0 <=? marker) && (marker <=? 0xffd7) then
              jpegScan fuel buffer offset (* RST markers *)
            else
              match getUint16 buffer offset with
              | Throw e => Some (Throw e)
              | Return length => jpegScan fuel buffer (offset + length)
              end
        end
      else Some (Return None)
  end.

(** Iterations that always suffice: every iteration advances [offset] by at
    least two ([jpegScan_fuel_enough] below). *)
Definition jpegFuel (buffer : list byte) : nat := S (length buffer).

(** Extract dimensions from JPEG data *)
Definition getJpegDimensions (buffer : list byte)
    : result (option ImageDimensions) :=
  (* JPEG signature check *)
  signature ← getUint16 buffer 0;
  if negb (signature =? 0xffd8) then mret None
  else
    match jpegScan (jpegFuel buffer) buffer 2 with
    | Some r => r
    | None => Return None
    end.

(** Get image dimensions from buffer *)
Definition getImageDimensions (buffer : list byte) (mimeType : string)
    : result (option ImageDimensions) :=
  if String.eqb mimeType "image/png" then getPngDimensions buffer
  else if String.eqb mimeType "image/jpeg" then getJpegDimensions buffer
  else mret None.

Record ImageData : Type := mkImageData {
  id : string;
  data : string; (* Base64 data URL *)
  dimensions : option ImageDimensions
}.

(** The end of the [try] block shared by [loadLocalImage] and
    [loadRemoteImage], once the bytes and the MIME type are known:
    [dataUrl] is the data URL built from them.  An exception of the header
    parser is caught by the enclosing [catch], which returns [null]. *)
Definition loadImageBytes (id : string) (buffer : list byte)
    (mimeType dataUrl : string) : option ImageData :=
  match getImageDimensions buffer mimeType with
  | Return dimensions => Some (mkImageData id dataUrl dimensions)
  | Throw _ => None
  end.

(** The two objects that [loadImages] returns, by their own properties.
    [dimensions] is the one object of the program that is assigned
    objects: [dimensions["__proto__"] = record] makes the record the
    prototype of [dimensions]; [dimensions_prototype] is that record,
    [None] as long as the prototype is [Object.prototype]. *)
Record LoadedImages : Type := mkLoaded {
  loaded_data : gmap string string;
  loaded_dimensions : gmap string ImageDimensions;
  dimensions_prototype : option ImageDimensions
}.

(** The body of the loop of [loadImages] over the loaded images. *)
Definition storeImage (acc : LoadedImages) (img : option ImageData)
    : LoadedImages :=
  match img with
  | Some img =>
      let data := setProperty (loaded_data acc) (id img) (data img) in
      match dimensions img with
      | Some d =>
          if String.eqb (id img) "__proto__" then
            mkLoaded data (loaded_dimensions acc) (Some d)
          else
            mkLoaded data (<[id img := d]> (loaded_dimensions acc))
                     (dimensions_prototype acc)
      | None =>
          mkLoaded data (loaded_dimensions acc) (dimensions_prototype acc)
      end
  | None => acc
  end.

Definition loadImages (loadedImages : list (option ImageData)) : LoadedImages :=
  fold_left storeImage loadedImages (mkLoaded ∅ ∅ None).

(** ** Where the image nodes of a content tree are

    [visits imageId item]: an image node with this id is [item] itself or
    is nested in it through [stack] and [columns] only.
    [occurs imageId item]: an image node with this id is anywhere in
    [item], also below [ul], [ol] and the cells of a [table]. *)

Definition image_is (imageId : string) (image : option string) : bool :=
  match image with
  | Some i => String.eqb i imageId
  | None => false
  end.

Definition within {A : Type} (f : A -> bool) (items : option (list A)) : bool :=
  match items with
  | Some l => existsb f l
  | None => false
  end.

Fixpoint visits (imageId : string) (item : Content) : bool :=
  match item with
  | CString _ => false
  | CObj _ image _ _ stack columns _ _ _ _ =>
      image_is imageId image
      || within (visits imageId) stack
      || within (visits imageId) columns
  end.

Fixpoint occurs (imageId : string) (item : Content) : bool :=
  match item with
  | CString _ => false
  | CObj _ image _ _ stack columns ul ol table _ =>
      image_is imageId image
      || within (occurs imageId) stack
      || within (occurs imageId) columns
      || within (occurs imageId) ul
      || within (occurs imageId) ol
      || within (existsb (occurs imageId)) table
  end.

(** Footprint of an image: its rendered height plus its fixed top and
    bottom margins (10 and 10). *)
Definition footprint (dims : ImageDimensions) : number :=
  add (add (calculateImageHeight dims) (of_Z 10)) (of_Z 10).

(** ** Induction on content trees *)

Section ContentInduction.

Variable P : Content -> Prop.

Definition OForall {A : Type} (Q : A -> Prop) (o : option (list A)) : Prop :=
  match o with
  | Some l => Forall Q l
  | None => True
  end.

Hypothesis P_string : forall s, P (CString s).
Hypothesis P_obj :
  forall text image fit margin stack columns ul ol table canvas,
    OForall P stack -> OForall P columns -> OForall P ul -> OForall P ol ->
    OForall (Forall P) table ->
    P (CObj text image fit margin stack columns ul ol table canvas).

Fixpoint Content_tree_ind (c : Content) : P c :=
  let all :=
    fix all (l : list Content) : Forall P l :=
      match l with
      | [] => @List.Forall_nil _ P
      | x :: l' => @List.Forall_cons _ P x l' (Content_tree_ind x) (all l')
      end in
  let oall (o : option (list Content)) : OForall P o :=
    match o with
    | Some l => all l
    | None => I
    end in
  let rows :=
    fix rows (t : list (list Content)) : Forall (Forall P) t :=
      match t with
      | [] => @List.Forall_nil _ (Forall P)
      | r :: t' => @List.Forall_cons _ (Forall P) r t' (all r) (rows t')
      end in
  match c with
  | CString s => P_string s
  | CObj text image fit margin stack columns ul ol table canvas =>
      P_obj text image fit margin stack columns ul ol table canvas
        (oall stack) (oall columns) (oall ul) (oall ol)
        (match table as o return OForall (Forall P) o with
         | Some t => rows t
         | None => I
         end)
  end.

End ContentInduction.

(** ** Sample content trees *)

Definition image_node (imageId : string) : Content :=
  CObj None (Some imageId) (Some (of_Z 500, of_Z 400))
       (Some STYLES.margins_image) None None None None None false.

Definition text_node (t : string) : Content :=
  CObj (Some (IString t)) None None None None None None None None false.

(** An image inside a block quote: [stack] > [columns] > [stack]. *)
Definition quoted_image_content : list Content :=
  [text_node "intro";
   CObj None None None (Some STYLES.margins_blockquote)
     (Some [CObj None None None None None
              (Some [CObj None None None None None None None None None true;
                     CObj None None None None (Some [image_node "img_0"])
                       None None None None false])
              None None None false])
     None None None None false].

(** An image node as an item of an unordered list. *)
Definition listed_image_content : list Content :=
  [CObj None None None (Some STYLES.margins_list) None None
     (Some [image_node "img_0"]) None None false].

Definition listed_image_dimensions : gmap string ImageDimensions :=
  {["img_0" := mkDims (of_Z 1000) (of_Z 500)]}.

(** ** Vocabulary of the specification *)

(** Bottom edges of the observed nodes that carry a start position, in the
    order of observation. *)
Definition bottomEdges (pageMargins : Margin) (observed : list ObservedNode)
    : list number :=
  omap (fun currentNode =>
          (fun sp => nodeBottom pageMargins sp currentNode)
            <$> startPosition currentNode)
       observed.

(** The factors of [mm(10000)] as binary64 values: [10000] and the double
    nearest to [2.83465], [0x1.6ad5cfaacd9e8p+1]. *)
Definition binary64_10000 : spec_float :=
  S754_finite false (10000 * 2 ^ 39) (-39).
Definition binary64_2_83465 : spec_float :=
  S754_finite false 0x16ad5cfaacd9e8 (-51).

(** What the traversal of a tree leaves at key [imageId] of the map
    [heights] it started from, when [visited] tells whether the tree has a
    visited image node with this id. *)
Definition lookup_after (imageDimensions : gmap string ImageDimensions)
    (imageId : string) (visited : bool) (heights : gmap string number)
    : option number :=
  if String.eqb imageId "__proto__" then heights !! imageId
  else
    match dimensionsOf (getProperty imageDimensions imageId) with
    | Some d => if visited then Some (footprint d) else heights !! imageId
    | None => heights !! imageId
    end.

(** Dimensions that are unsigned 32-bit integers. *)
Definition integer_dimensions (d : ImageDimensions) : Prop :=
  exists w h : Z,
    d = mkDims (of_Z w) (of_Z h) /\ 0 <= w < 2 ^ 32 /\ 0 <= h < 2 ^ 32.

(** An image node whose [fit] is the fit box of the extent calculator. *)
Definition fits_box (node : string * option (number * number)) : Prop :=
  node.2 = Some (IMAGE_FIT_WIDTH, IMAGE_FIT_HEIGHT).

(** Every image node of [c] with the id [imageId] is reachable through
    [stack] and [columns]. *)
Definition all_visited (imageId : string) (c : Content) : Prop :=
  occurs imageId c = visits imageId c.

(** A dry run that reports a text block, an image and a node without
    position. *)
Definition sample_observed : list ObservedNode :=
  [mkNode (Some (mkPosition (of_Z 1) (of_Z 40))) None (Some (of_Z 100));
   mkNode (Some (mkPosition (of_Z 1) (of_Z 140))) (Some "img_0") None;
   mkNode None None (Some (of_Z 7))].

Definition default_margins : Margin := (of_Z 40, of_Z 40, of_Z 40, of_Z 40).

(** A node of height 10 that starts 50 units above the top of page 1. *)
Definition node_above_page : ObservedNode :=
  mkNode (Some (mkPosition (of_Z 1) (of_Z (-50)))) None (Some (of_Z 10)).

(** ** Sample buffers *)

Definition bytes (l : list Z) : list byte :=
  map (fun z => match Byte.of_N (Z.to_N z) with
                | Some b => b
                | None => Byte.x00
                end) l.

(** The first 24 bytes of a PNG file of 800 x 600 pixels. *)
Definition png_800x600 : list byte :=
  bytes [0x89; 0x50; 0x4e; 0x47; 0x0d; 0x0a; 0x1a; 0x0a;
         0x00; 0x00; 0x00; 0x0d; 0x49; 0x48; 0x44; 0x52;
         0x00; 0x00; 0x03; 0x20; 0x00; 0x00; 0x02; 0x58].

(** The same header with one signature byte flipped. *)
Definition png_bad_signature : list byte :=
  bytes [0x89; 0x50; 0x4e; 0x46; 0x0d; 0x0a; 0x1a; 0x0a;
         0x00; 0x00; 0x00; 0x0d; 0x49; 0x48; 0x44; 0x52;
         0x00; 0x00; 0x03; 0x20; 0x00; 0x00; 0x02; 0x58].

(** A PNG header that declares the height 0. *)
Definition png_800x0 : list byte :=
  bytes [0x89; 0x50; 0x4e; 0x47; 0x0d; 0x0a; 0x1a; 0x0a;
         0x00; 0x00; 0x00; 0x0d; 0x49; 0x48; 0x44; 0x52;
         0x00; 0x00; 0x03; 0x20; 0x00; 0x00; 0x00; 0x00].

(** A PNG file cut after its eight signature bytes. *)
Definition png_truncated : list byte :=
  bytes [0x89; 0x50; 0x4e; 0x47; 0x0d; 0x0a; 0x1a; 0x0a].

(** [FFD8 FFC0 0011 08 0140 0190 03]: a frame header of 400 x 320. *)
Definition jpeg_400x320 : list byte :=
  bytes [0xff; 0xd8; 0xff; 0xc0; 0x00; 0x11; 0x08; 0x01; 0x40; 0x01; 0x90;
         0x03].

(** A JPEG stream whose application segment declares the length 0. *)
Definition jpeg_zero_length : list byte :=
  bytes [0xff; 0xd8; 0xff; 0xe0; 0x00; 0x00; 0xff; 0xd9].

(** A JPEG file cut in the middle of its first marker. *)
Definition jpeg_truncated : list byte := bytes [0xff; 0xd8; 0xff].

(** ** [src/renderer/block.ts] and [src/renderer/index.ts]: the renderer

    Tokens are [marked]'s; of a token the model keeps its type and the
    fields that the block renderer reads to build the content keys kept in
    [Content].  [Other] stands for every token type that the block renderer
    has no case for. *)

Inductive Token : Type :=
| Heading (depth : Z) (tokens : option (list Token))
| Paragraph (tokens : option (list Token))
| ListToken (ordered : bool)
    (items : list (bool * bool * option (list Token))) (* task, checked, tokens *)
| Code (lang : option string) (text : string)
| Table (header : list (option (list Token)))
    (rows : list (list (option (list Token))))
| Blockquote (tokens : option (list Token))
| Hr
| Space
| Image (href text : string) (tokens : option (list Token))
| Other (tokens : option (list Token)).

(** Image information collected during rendering *)
Record ImageInfo : Type := mkImageInfo {
  info_id : string;
  info_href : string;
  info_alt : string
}.

(** Renderer context for passing state *)
Record RenderContext : Type := mkContext {
  basePath : string;
  japaneseFont : option string;
  images : list ImageInfo
}.

(** [token.tokens] where the key exists and holds an array. *)
Definition tokens_of (token : Token) : option (list Token) :=
  match token with
  | Heading _ tokens | Paragraph tokens | Blockquote tokens
  | Image _ _ tokens | Other tokens => tokens
  | _ => None
  end.

Definition isParagraphToken (token : Token) : bool :=
  match token with Paragraph _ => true | _ => false end.
Definition isListToken (token : Token) : bool :=
  match token with ListToken _ _ => true | _ => false end.
Definition isImageToken (token : Token) : bool :=
  match token with Image _ _ _ => true | _ => false end.

Section Renderer.

(** [renderInlineTokens] of [src/renderer/inline.ts] builds the [text] of a
    node; it reads [context.japaneseFont] and never changes the context. *)
Variable renderInlineTokens : list Token -> RenderContext -> InlineContent.

Definition text_obj (t : InlineContent) (m : option Margin) : Content :=
  CObj (Some t) None None m None None None None None false.

Definition renderImage (href text : string) (context : RenderContext)
    : Content * RenderContext :=
  let imageId := ("img_" +:+ pretty (length (images context)))%string in
  (* Collect image info for later loading *)
  let context :=
    mkContext (basePath context) (japaneseFont context)
      (images context ++ [mkImageInfo imageId href text]) in
  (* Return pdfmake image content *)
  (CObj None (Some imageId) (Some (of_Z 500, of_Z 400))
        (Some STYLES.margins_image) None None None None None false,
   context).

Definition renderHeading (tokens : option (list Token))
    (context : RenderContext) : Content :=
  text_obj (renderInlineTokens (default [] tokens) context)
           (Some STYLES.margins_heading).

Definition renderParagraph (tokens : option (list Token))
    (context : RenderContext) : Content * RenderContext :=
  (* Check if paragraph contains only a single image *)
  let tokens := default [] tokens in
  match tokens with
  | [Image href text _] => renderImage href text context
  | _ =>
      (text_obj (renderInlineTokens tokens context)
                (Some STYLES.margins_paragraph),
       context)
  end.

(** Handle task list items: the checkbox is put in front of the text of
    the first content node. *)
Definition addCheckbox (checked : bool) (content : list Content)
    : list Content :=
  let checkbox := if checked then "[x] "%string else "[ ] "%string in
  match content with
  | CObj (Some first_text) image fit margin stack columns ul ol table canvas
    :: content' =>
      let first_text :=
        match first_text with
        | IString s => IString (checkbox +:+ s)
        | IArray l => IArray (Styled checkbox [] :: l)
        | IStyled t => IStyled t
        end in
      CObj (Some first_text) image fit margin stack columns ul ol table canvas
      :: content'
  | _ => content
  end.

(** [renderList] is only called on list tokens. *)
Fixpoint renderList (token : Token) (context : RenderContext) : Content :=
  match token with
  | ListToken ordered items =>
      let items :=
        map (fun item : bool * bool * option (list Token) =>
               let '(task, checked, item_tokens) := item in
               (* Render list item content *)
               let content :=
                 match item_tokens with
                 | Some item_tokens =>
                     flat_map
                       (fun t =>
                          if isParagraphToken t then
                            (* Don't wrap in paragraph for list items *)
                            [text_obj
                               (renderInlineTokens (default [] (tokens_of t))
                                  context)
                               None]
                          else if isListToken t then
                            (* Nested list *)
                            [renderList t context]
                          else
                            match tokens_of t with
                            | Some ts =>
                                [text_obj (renderInlineTokens ts context) None]
                            | None => []
                            end)
                       item_tokens
                 | None => []
                 end in
               let content := if task then addCheckbox checked content
                              else content in
               match content with
               | [c] => c
               | _ => CObj None None None None (Some content) None None None
                        None false
               end)
            items in
      if ordered then
        CObj None None None (Some STYLES.margins_list) None None None
             (Some items) None false
      else
        CObj None None None (Some STYLES.margins_list) None None
             (Some items) None None false
  | _ => CString EmptyString
  end.

Definition codeBlock_padding : number := of_Z 10.
Definition table_cellPadding : number := of_Z 8.

Definition renderCodeBlock (lang : option string) (text : string) : Content :=
  let label :=
    match lang with
    | Some l =>
        if truthy_string l then
          [text_obj (IString l) (Some (of_Z 0, of_Z 0, of_Z 0, of_Z 4))]
        else []
    | None => []
    end in
  CObj None None None (Some STYLES.margins_codeBlock)
    (Some (label ++
           [CObj None None None None None None None None
              (Some [[text_obj (IString text)
                        (Some (codeBlock_padding, codeBlock_padding,
                               codeBlock_padding, codeBlock_padding))]])
              false]))
    None None None None false.

Definition renderTable (header : list (option (list Token)))
    (rows : list (list (option (list Token)))) (context : RenderContext)
    : Content :=
  let cell (tokens : option (list Token)) :=
    text_obj (renderInlineTokens (default [] tokens) context)
             (Some (table_cellPadding, table_cellPadding,
                    table_cellPadding, table_cellPadding)) in
  (* Build header row *)
  let headerRow := map cell header in
  (* Build body rows *)
  let bodyRows := map (map cell) rows in
  CObj None None None (Some STYLES.margins_table) None None None None
       (Some (headerRow :: bodyRows)) false.

Definition renderHorizontalRule : Content :=
  CObj None None None (Some (of_Z 0, of_Z 15, of_Z 0, of_Z 15)) None None None
       None None true.

(** The frame that [renderBlockquote] puts around the rendered tokens. *)
Definition blockquoteFrame (content : list Content) : Content :=
  CObj None None None (Some STYLES.margins_blockquote)
    (Some [CObj None None None None None
             (Some [CObj None None None None None None None None None true;
                    CObj None None None
                      (Some (of_Z 10, of_Z 0, of_Z 0, of_Z 0))
                      (Some content) None None None None false])
             None None None false])
    None None None None false.

(** One step of the loops of [renderTokens] and [renderBlockquote]: the
    rendered token, when there is one, is pushed on [content]. *)
Definition pushRendered (acc : list Content * RenderContext)
    (rendered : option Content * RenderContext)
    : list Content * RenderContext :=
  match rendered.1 with
  | Some c => (acc.1 ++ [c], rendered.2)
  | None => (acc.1, rendered.2)
  end.

Fixpoint renderBlockToken (token : Token) (context : RenderContext)
    : option Content * RenderContext :=
  match token with
  | Heading _ tokens => (Some (renderHeading tokens context), context)
  | Paragraph tokens =>
      let r := renderParagraph tokens context in (Some r.1, r.2)
  | ListToken _ _ => (Some (renderList token context), context)
  | Code lang text => (Some (renderCodeBlock lang text), context)
  | Table header rows => (Some (renderTable header rows context), context)
  | Blockquote tokens =>
      let r :=
        match tokens with
        | Some tokens =>
            fold_left
              (fun acc t => pushRendered acc (renderBlockToken t acc.2))
              tokens ([], context)
        | None => ([], context)
        end in
      (Some (blockquoteFrame r.1), r.2)
  | Hr => (Some renderHorizontalRule, context)
  | Space => (None, context) (* Skip space tokens *)
  | Image href text _ =>
      let r := renderImage href text context in (Some r.1, r.2)
  | Other tokens =>
      (* Fallback: try to render as paragraph if it has tokens *)
      match tokens with
      | Some ts =>
          (Some (text_obj (renderInlineTokens ts context)
                          (Some STYLES.margins_paragraph)),
           context)
      | None => (None, context)
      end
  end.

Definition renderTokens (tokens : list Token) (context : RenderContext)
    : list Content * RenderContext :=
  fold_left (fun acc t => pushRendered acc (renderBlockToken t acc.2))
            tokens ([], context).

End Renderer.

(** The image nodes anywhere in a content tree, each with its [fit]. *)
Fixpoint imageNodes (item : Content)
    : list (string * option (number * number)) :=
  let below (o : option (list Content)) :=
    match o with
    | Some l => flat_map imageNodes l
    | None => []
    end in
  match item with
  | CString _ => []
  | CObj _ image fit _ stack columns ul ol table _ =>
      match image with
      | Some imageId => [(imageId, fit)]
      | None => []
      end
      ++ below stack ++ below columns ++ below ul ++ below ol
      ++ match table with
         | Some rows => flat_map (flat_map imageNodes) rows
         | None => []
         end
  end.

(** ** Induction on tokens, through block quotes and list items *)

Section TokenInduction.

Variable P : Token -> Prop.

Hypothesis P_heading : forall depth tokens, P (Heading depth tokens).
Hypothesis P_paragraph : forall tokens, P (Paragraph tokens).
Hypothesis P_list : forall ordered items,
  Forall (fun item : bool * bool * option (list Token) => OForall P item.2)
         items ->
  P (ListToken ordered items).
Hypothesis P_code : forall lang text, P (Code lang text).
Hypothesis P_table : forall header rows, P (Table header rows).
Hypothesis P_blockquote : forall tokens,
  OForall P tokens -> P (Blockquote tokens).
Hypothesis P_hr : P Hr.
Hypothesis P_space : P Space.
Hypothesis P_image : forall href text tokens, P (Image href text tokens).
Hypothesis P_other : forall tokens, P (Other tokens).

Fixpoint Token_tree_ind (t : Token) : P t :=
  let all :=
    fix all (l : list Token) : Forall P l :=
      match l with
      | [] => @List.Forall_nil _ P
      | x :: l' => @List.Forall_cons _ P x l' (Token_tree_ind x) (all l')
      end in
  let oall (o : option (list Token)) : OForall P o :=
    match o with
    | Some l => all l
    | None => I
    end in
  match t with
  | Heading depth tokens => P_heading depth tokens
  | Paragraph tokens => P_paragraph tokens
  | ListToken ordered items =>
      P_list ordered items
        ((fix each (l : list (bool * bool * option (list Token)))
            : Forall (fun item => OForall P item.2) l :=
            match l with
            | [] => @List.Forall_nil _ _
            | item :: l' =>
                @List.Forall_cons _ (fun item => OForall P item.2) item l'
                  (oall item.2) (each l')
            end) items)
  | Code lang text => P_code lang text
  | Table header rows => P_table header rows
  | Blockquote tokens => P_blockquote tokens (oall tokens)
  | Hr => P_hr
  | Space => P_space
  | Image href text tokens => P_image href text tokens
  | Other tokens => P_other tokens
  end.

End TokenInduction.

(** Markdown with an image in a paragraph and another in a block quote. *)
Definition sample_tokens : list Token :=
  [Heading 1 (Some [Other None]);
   Paragraph (Some [Image "a.png" "first" None]);
   Blockquote (Some [Paragraph (Some [Image "b.jpg" "second" None])]);
   ListToken false [(false, false, Some [Other (Some [Other None])])]].

Definition sample_context : RenderContext := mkContext "." None [].

(** ** Vocabulary for the recorded image positions *)

(** The callback records the node under [imageId]: the node has an image
    id, the id is neither the empty string nor [__proto__], and it is
    [imageId]. *)
Definition recordsImage (imageId : string) (currentNode : ObservedNode) : bool :=
  match node_image currentNode with
  | Some image =>
      truthy_string image && negb (String.eqb image "__proto__")
      && String.eqb image imageId
  | None => false
  end.

(** The top offset that the callback records for a node. *)
Definition recordedTop (currentNode : ObservedNode) : number :=
  or_default (top <$> startPosition currentNode) (of_Z 0).

(** The top offset of the last observed node recorded under [imageId]. *)
Fixpoint lastImageTop (imageId : string) (observed : list ObservedNode)
    : option number :=
  match observed with
  | [] => None
  | currentNode :: rest =>
      match lastImageTop imageId rest with
      | Some t => Some t
      | None =>
          if recordsImage imageId currentNode
          then Some (recordedTop currentNode)
          else None
      end
  end.

(** ** [src/converter.ts]: replacing the images that failed to load *)

(** [!loadedImages[imageId]]: the id has no data URL, or an empty one; a
    member of [Object.prototype] counts as a data URL. *)
Definition notLoaded (loadedImages : gmap string string) (imageId : string)
    : bool :=
  match getProperty loadedImages imageId with
  | Own dataUrl => negb (truthy_string dataUrl)
  | Inherited => false
  | Undefined => true
  end.

(** The text node put in the place of a failed image:
    [info?.alt || info?.href || imageId] between brackets. *)
Definition imagePlaceholder (imageInfos : list ImageInfo) (imageId : string)
    : Content :=
  let info := find (fun i => String.eqb (info_id i) imageId) imageInfos in
  let label :=
    match info with
    | Some i =>
        if truthy_string (info_alt i) then info_alt i
        else if truthy_string (info_href i) then info_href i
        else imageId
    | None => imageId
    end in
  text_obj (IString ("[Image not found: " +:+ label +:+ "]"))
           (Some STYLES.margins_image).

Fixpoint replaceFailedItem (loadedImages : gmap string string)
    (imageInfos : list ImageInfo) (item : Content) : Content :=
  match item with
  | CString _ => item
  | CObj text image fit margin stack columns ul ol table canvas =>
      match image with
      | Some imageId =>
          if notLoaded loadedImages imageId
          then imagePlaceholder imageInfos imageId
          else item
      | None =>
          match stack with
          | Some items =>
              (* Recursively process stacks *)
              CObj text image fit margin
                (Some (map (replaceFailedItem loadedImages imageInfos) items))
                columns ul ol table canvas
          | None =>
              match columns with
              | Some items =>
                  (* Recursively process columns *)
                  CObj text image fit margin stack
                    (Some (map (replaceFailedItem loadedImages imageInfos)
                               items))
                    ul ol table canvas
              | None => item
              end
          end
      end
  end.

Definition replaceFailedImages (content : list Content)
    (loadedImages : gmap string string) (imageInfos : list ImageInfo)
    : list Content :=
  map (replaceFailedItem loadedImages imageInfos) content.

(** A tree in which every object reached through [stack] and [columns] has
    at most one of the keys [image], [stack] and [columns]: the two
    traversals, of [replaceFailedImages] and of [calculateImageHeights],
    then visit the same nodes. *)
Fixpoint oneContainer (item : Content) : bool :=
  match item with
  | CString _ => true
  | CObj _ image _ _ stack columns _ _ _ _ =>
      match image, stack, columns with
      | _, None, None => true
      | None, Some items, None => forallb oneContainer items
      | None, None, Some items => forallb oneContainer items
      | _, _, _ => false
      end
  end.

(** ** [src/config/paper.ts]: paper sizes *)

Record PaperDimensions : Type := mkPaper {
  paper_width : number; (* in points *)
  paper_name : string;
  mmWidth : number
}.

Definition paper (name : string) (w : Z) : string * PaperDimensions :=
  (name, mkPaper (mm (of_Z w)) name (of_Z w)).

Definition PAPER_LIST : list (string * PaperDimensions) :=
  [paper "A1" 594; paper "A2" 420; paper "A3" 297; paper "A4" 210;
   paper "A5" 148; paper "B1" 707; paper "B2" 500; paper "B3" 353;
   paper "B4" 250; paper "B5" 176].

Definition PAPER_SIZES : gmap string PaperDimensions := list_to_map PAPER_LIST.

Definition DEFAULT_PAPER_SIZE : string := "A4".

(** [toUpperCase] and [toLowerCase] on the ASCII letters.  The strings they
    are compared with below are ASCII and no other character is mapped to
    an ASCII letter of these strings, so the comparisons come out as in
    JavaScript. *)
Definition upper_ascii (c : Ascii.ascii) : Ascii.ascii :=
  let n := Ascii.nat_of_ascii c in
  if (97 <=? n)%nat && (n <=? 122)%nat then Ascii.ascii_of_nat (n - 32) else c.

Definition lower_ascii (c : Ascii.ascii) : Ascii.ascii :=
  let n := Ascii.nat_of_ascii c in
  if (65 <=? n)%nat && (n <=? 90)%nat then Ascii.ascii_of_nat (n + 32) else c.

Fixpoint toUpperCase (s : string) : string :=
  match s with
  | EmptyString => EmptyString
  | String c s' => String (upper_ascii c) (toUpperCase s')
  end.

Fixpoint toLowerCase (s : string) : string :=
  match s with
  | EmptyString => EmptyString
  | String c s' => String (lower_ascii c) (toLowerCase s')
  end.

(** [value.toUpperCase() in PAPER_SIZES]; an upper-cased string is never the
    name of a property that the object inherits. *)
Definition isPaperSize (value : string) : bool :=
  bool_decide (is_Some (PAPER_SIZES !! toUpperCase value)).

Definition getPaperSize (value : string) : PaperDimensions :=
  let normalized := toUpperCase value in
  match PAPER_SIZES !! normalized with
  | Some p => p
  | None =>
      default (mkPaper NaN EmptyString NaN) (PAPER_SIZES !! DEFAULT_PAPER_SIZE)
  end.

(** ** [src/images/loader.ts]: the MIME type of a local image *)

Definition is_dot (c : Ascii.ascii) : bool :=
  Ascii.eqb c (Ascii.ascii_of_nat 46).

Fixpoint has_dot (s : string) : bool :=
  match s with
  | EmptyString => false
  | String c s' => is_dot c || has_dot s'
  end.

(** [path.match(/\.[^.]+$/)?.[0]]: the text from the last dot on, when at
    least one character follows that dot. *)
Fixpoint matchExtension (path : string) : option string :=
  match path with
  | EmptyString => None
  | String c rest =>
      match matchExtension rest with
      | Some ext => Some ext
      | None =>
          if is_dot c && truthy_string rest && negb (has_dot rest)
          then Some path
          else None
      end
  end.

(** Supported image MIME types *)
Definition MIME_TYPES : gmap string string :=
  list_to_map [(".jpg", "image/jpeg"); (".jpeg", "image/jpeg");
               (".png", "image/png")]%string.

Definition getMimeType (path : string) : option string :=
  match matchExtension (toLowerCase path) with
  | Some ext => MIME_TYPES !! ext
  | None => None
  end.

(** ** Encoders for the headers that the parser reads (round trips) *)

Definition byte_of_Z (z : Z) : byte :=
  match Byte.of_N (Z.to_N (z mod 256)) with
  | Some b => b
  | None => Byte.x00
  end.

Definition be16 (z : Z) : list byte := [byte_of_Z (z / 256); byte_of_Z z].

Definition be32 (z : Z) : list byte :=
  [byte_of_Z (z / 16777216); byte_of_Z (z / 65536); byte_of_Z (z / 256);
   byte_of_Z z].

(** The start of a PNG file: the four signature bytes that the parser
    checks, twelve bytes that it skips, then width and height. *)
Definition pngHeader (skipped : list byte) (w h : Z) : list byte :=
  bytes [0x89; 0x50; 0x4e; 0x47] ++ skipped ++ be32 w ++ be32 h.

(** A JPEG segment with a length field: marker, length (which counts its
    own two bytes), payload. *)
Definition jpegSegment (marker : Z) (payload : list byte) : list byte :=
  be16 marker ++ be16 (2 + Z.of_nat (length payload)) ++ payload.

(** A marker that the scan skips by its length field. *)
Definition skippedMarker (marker : Z) : bool :=
  (0 <=? marker) && (marker <? 65536)
  && negb (isSOF marker) && negb (marker =? 0xffd9) && negb (marker =? 0xffd8)
  && negb ((0xffd0 <=? marker) && (marker <=? 0xffd7)).

(** A frame header: SOF marker, length, precision, height, width. *)
Definition jpegFrame (marker : Z) (precision : byte) (w h : Z) : list byte :=
  be16 marker ++ be16 17 ++ [precision] ++ be16 h ++ be16 w.

(** The ids that [renderImage] gives to [k] images in a row when [n]
    images were collected before: [img_n], ..., [img_(n+k-1)]. *)
Definition freshIds (n k : nat) : list string :=
  map (fun i => ("img_" +:+ pretty i)%string) (seq n k).

(** The image nodes of what [renderBlockToken] returns. *)
Definition renderedImageNodes (rendered : option Content)
    : list (string * option (number * number)) :=
  match rendered with
  | Some c => imageNodes c
  | None => []
  end.

(** Segments, each a marker and a payload, written one after the other. *)
Definition jpegStream (segments : list (Z * list byte)) : list byte :=
  flat_map (fun s => jpegSegment s.1 s.2) segments.

(** The marker is one that the scan skips and the length fits its field. *)
Definition skippable (s : Z * list byte) : bool :=
  skippedMarker s.1 && (Z.of_nat (length s.2) + 2 <? 65536).

(** ** [src/renderer/inline.ts]: inline content

    The inline token types that [renderInlineToken] tells apart; [TGeneric]
    is any other token, with its [tokens] and [raw] when it has them.  A
    style attribute is a key with its printed value. *)

Inductive InlineToken : Type :=
| TText (text : string)
| TStrong (tokens : option (list InlineToken))
| TEm (tokens : option (list InlineToken))
| TDel (tokens : option (list InlineToken))
| TLink (href : string) (tokens : option (list InlineToken))
| TCodespan (text : string)
| TBr
| TEscape (text : string)
| TGeneric (tokens : option (list InlineToken)) (raw : option string).

(** [{...attrs, key: value}]: the value of an existing key is replaced in
    place, a new key is added at the end. *)
Fixpoint setAttr (key value : string) (attrs : list (string * string))
    : list (string * string) :=
  match attrs with
  | [] => [(key, value)]
  | (k, v) :: attrs' =>
      if String.eqb k key then (key, value) :: attrs'
      else (k, v) :: setAttr key value attrs'
  end.

(** [{...attrs, ...style}] *)
Definition mergeAttrs (attrs style : list (string * string))
    : list (string * string) :=
  fold_left (fun a kv => setAttr kv.1 kv.2 a) style attrs.

(** [{...item, ...style}] *)
Definition styleItem (style : list (string * string)) (item : StyledText)
    : StyledText :=
  match item with
  | Styled text attrs => Styled text (mergeAttrs attrs style)
  | StyledGroup text attrs => StyledGroup text (mergeAttrs attrs style)
  end.

Definition applyStyle (content : InlineContent) (style : list (string * string))
    : InlineContent :=
  match content with
  | IString s => IStyled (Styled s (mergeAttrs [] style))
  | IArray l => IArray (map (styleItem style) l)
  | IStyled t => IStyled (styleItem style t)
  end.

(** What the loop of [renderInlineTokens] pushes on [result] for one
    rendered token. *)
Definition pushInline (rendered : option InlineContent) : list StyledText :=
  match rendered with
  | None => []
  | Some (IString s) => [Styled s []]
  | Some (IArray l) => l
  | Some (IStyled t) => [t]
  end.

(** [result.length === 1 ? result[0] : result] *)
Definition unwrapSingle (result : list StyledText) : InlineContent :=
  match result with
  | [t] => IStyled t
  | _ => IArray result
  end.

Definition newline : string := String (Ascii.ascii_of_nat 10) EmptyString.

Definition codespanAttrs (japaneseFont : option string)
    : list (string * string) :=
  [("background", "#f6f8fa"); ("fontSize", "10");
   ("font", default "Courier" japaneseFont);
   ("preserveLeadingSpaces", "true")]%string.

Definition linkStyle (href : string) : list (string * string) :=
  [("color", "#0066cc"); ("decoration", "underline"); ("link", href)]%string.

Fixpoint renderInlineToken (japaneseFont : option string) (token : InlineToken)
    : option InlineContent :=
  let many (tokens : list InlineToken) : InlineContent :=
    match tokens with
    | [] => IString EmptyString
    | _ =>
        unwrapSingle
          (flat_map (fun t => pushInline (renderInlineToken japaneseFont t))
                    tokens)
    end in
  let inner (tokens : option (list InlineToken)) : InlineContent :=
    match tokens with
    | Some ts => many ts
    | None => IString EmptyString
    end in
  match token with
  | TText text => Some (IString text)
  | TStrong tokens => Some (applyStyle (inner tokens) [("bold", "true")]%string)
  | TEm tokens => Some (applyStyle (inner tokens) [("italics", "true")]%string)
  | TDel tokens =>
      Some (applyStyle (inner tokens) [("decoration", "lineThrough")]%string)
  | TLink href tokens => Some (applyStyle (inner tokens) (linkStyle href))
  | TCodespan text => Some (IStyled (Styled text (codespanAttrs japaneseFont)))
  | TBr => Some (IString newline)
  | TEscape text => Some (IString text)
  | TGeneric (Some ts) _ => Some (many ts) (* Handle nested tokens if present *)
  | TGeneric None (Some raw) => Some (IString raw) (* Fallback: raw text *)
  | TGeneric None None => None
  end.

Definition renderInlineTokens (tokens : list InlineToken)
    (japaneseFont : option string) : InlineContent :=
  match tokens with
  | [] => IString EmptyString
  | _ =>
      unwrapSingle
        (flat_map (fun t => pushInline (renderInlineToken japaneseFont t))
                  tokens)
  end.

(** [strings.join('')] *)
Definition joinStrings (l : list string) : string :=
  fold_right String.append EmptyString l.

(** Helper to flatten inline content to plain text (for table cells, etc.) *)
Fixpoint flattenStyled (t : StyledText) : string :=
  match t with
  | Styled text _ => text
  | StyledGroup text _ => joinStrings (map flattenStyled text)
  end.

Definition flattenToText (content : InlineContent) : string :=
  match content with
  | IString s => s
  | IArray l => joinStrings (map flattenStyled l)
  | IStyled t => flattenStyled t
  end.

(** The plain text that a token stands for. *)
Fixpoint plainText (token : InlineToken) : string :=
  let below (tokens : option (list InlineToken)) : string :=
    match tokens with
    | Some ts => joinStrings (map plainText ts)
    | None => EmptyString
    end in
  match token with
  | TText text | TCodespan text | TEscape text => text
  | TStrong tokens | TEm tokens | TDel tokens | TLink _ tokens => below tokens
  | TBr => newline
  | TGeneric (Some ts) _ => joinStrings (map plainText ts)
  | TGeneric None (Some raw) => raw
  | TGeneric None None => EmptyString
  end.

(** The value of a key in a list of attributes. *)
Definition attrValue (key : string) (attrs : list (string * string))
    : option string :=
  snd <$> find (fun kv => String.eqb kv.1 key) attrs.

Definition itemAttrs (item : StyledText) : list (string * string) :=
  match item with
  | Styled _ attrs | StyledGroup _ attrs => attrs
  end.

Section InlineTokenInduction.

Variable P : InlineToken -> Prop.

Hypothesis P_text : forall text, P (TText text).
Hypothesis P_strong : forall tokens, OForall P tokens -> P (TStrong tokens).
Hypothesis P_em : forall tokens, OForall P tokens -> P (TEm tokens).
Hypothesis P_del : forall tokens, OForall P tokens -> P (TDel tokens).
Hypothesis P_link : forall href tokens,
  OForall P tokens -> P (TLink href tokens).
Hypothesis P_codespan : forall text, P (TCodespan text).
Hypothesis P_br : P TBr.
Hypothesis P_escape : forall text, P (TEscape text).
Hypothesis P_generic : forall tokens raw,
  OForall P tokens -> P (TGeneric tokens raw).

Fixpoint InlineToken_tree_ind (t : InlineToken) : P t :=
  let all :=
    fix all (l : list InlineToken) : Forall P l :=
      match l with
      | [] => @List.Forall_nil _ P
      | x :: l' => @List.Forall_cons _ P x l' (InlineToken_tree_ind x) (all l')
      end in
  let oall (o : option (list InlineToken)) : OForall P o :=
    match o with
    | Some l => all l
    | None => I
    end in
  match t with
  | TText text => P_text text
  | TStrong tokens => P_strong tokens (oall tokens)
  | TEm tokens => P_em tokens (oall tokens)
  | TDel tokens => P_del tokens (oall tokens)
  | TLink href tokens => P_link href tokens (oall tokens)
  | TCodespan text => P_codespan text
  | TBr => P_br
  | TEscape text => P_escape text
  | TGeneric tokens raw => P_generic tokens raw (oall tokens)
  end.

End InlineTokenInduction.

(** What one rendering step does to the context and which image nodes it
    returns. *)
Definition collects (before : RenderContext)
    (nodes : list (string * option (number * number)))
    (after : RenderContext) : Prop :=
  exists news,
    images after = images before ++ news
    /\ basePath after = basePath before
    /\ japaneseFont after = japaneseFont before
    /\ map info_id news = freshIds (length (images before)) (length news)
    /\ map fst nodes = map info_id news.

(** * Properties *)

(** ** Facts about [number] *)

Section NumberFacts.

Lemma Qcltb_lt (a b : Qc) : Qcltb a b = true <-> (a < b)%Qc.
Proof.
  unfold Qcltb, Qclt, Qccompare. rewrite Qlt_alt.
  destruct (this a ?= this b)%Q; split; congruence.
Qed.

Lemma Qcltb_ge (a b : Qc) : Qcltb a b = false <-> (b <= a)%Qc.
Proof.
  split.
  - intros H. apply Qcnot_lt_le. intros Hlt. apply Qcltb_lt in Hlt. congruence.
  - intros H. destruct (Qcltb a b) eqn:E; [|reflexivity].
    apply Qcltb_lt in E. exfalso. exact (Qcle_not_lt _ _ H E).
Qed.

Lemma Qceqb_eq (a b : Qc) : Qceqb a b = true <-> a = b.
Proof.
  unfold Qceqb, Qccompare. split.
  - intros H. apply Qc_is_canon. apply Qeq_alt.
    destruct (this a ?= this b)%Q; congruence.
  - intros ->. now rewrite (proj1 (Qeq_alt _ _) (Qeq_refl _)).
Qed.

Lemma Qceqb_neq (a b : Qc) : Qceqb a b = false <-> a <> b.
Proof.
  split.
  - intros H E. apply Qceqb_eq in E. congruence.
  - intros H. destruct (Qceqb a b) eqn:E; [|reflexivity].
    apply Qceqb_eq in E. contradiction.
Qed.

Lemma Qceqb_pos (a : Qc) : (0 < a)%Qc -> Qceqb a 0 = false.
Proof.
  intros H. apply Qceqb_neq. intros E. symmetry in E.
  exact (Qclt_not_eq _ _ H E).
Qed.

Lemma Qcdiv_pos (a b : Qc) : (0 < a)%Qc -> (0 < b)%Qc -> (0 < a / b)%Qc.
Proof.
  intros Ha Hb. unfold Qcdiv, Qcmult, Qcinv, Qclt in *. simpl in *.
  rewrite !Qred_correct.
  apply Qmult_lt_0_compat; [exact Ha|]. now apply Qinv_lt_0_compat.
Qed.

Lemma Fin_canon (a b : Qc) : (this a == this b)%Q -> Fin a = Fin b.
Proof. intros H. apply (f_equal Fin). now apply Qc_is_canon. Qed.

End NumberFacts.

Lemma of_Z_inj (a b : Z) : of_Z a = of_Z b -> a = b.
Proof.
  intros H.
  apply (f_equal (fun n => match n with
                           | Fin q => Qfloor (this q)
                           | _ => 0
                           end)) in H.
  unfold of_Z, qc, Q2Qc in H. cbn [this] in H.
  rewrite !(Qfloor_comp _ _ (Qred_correct _)), !Qfloor_Z in H. exact H.
Qed.

(** Decide a closed equation between two finite numbers by evaluation. *)
Ltac number_eq := vm_compute; apply Fin_canon; reflexivity.

(** ** The fit rule *)

Lemma calculateImageHeight_positive (w h : Qc) :
  (0 < w)%Qc -> (0 < h)%Qc ->
  calculateImageHeight (mkDims (Fin w) (Fin h)) =
    (if Qcltb (qc 500 / qc 400) (w / h)
     then Fin (qc 500 / (w / h))
     else Fin (Qcmin h (qc 400))).
Proof.
  intros Hw Hh.
  unfold calculateImageHeight. cbn [width height div].
  rewrite (Qceqb_pos h Hh).
  change (div IMAGE_FIT_WIDTH IMAGE_FIT_HEIGHT) with (Fin (qc 500 / qc 400)).
  cbn [gtb ltb].
  destruct (Qcltb (qc 500 / qc 400) (w / h)) eqn:E.
  - unfold IMAGE_FIT_WIDTH, of_Z. cbn [div].
    rewrite (Qceqb_pos (w / h) (Qcdiv_pos w h Hw Hh)). reflexivity.
  - unfold IMAGE_FIT_HEIGHT, of_Z, Math_min. cbn [ltb].
    unfold Qcmin. destruct (Qcltb _ h); reflexivity.
Qed.

(** C1. For an image of positive pixel dimensions [w] and [h] the rendered
    height follows the fit rule with the box 500 x 400: it is
    [500 / (w / h)] when [w / h > 500 / 400] and [min h 400] otherwise; a
    1000 x 500 image gives 250 and a 400 x 1000 image gives 400. *)
Theorem calculateImageHeight_fit_rule (w h : Qc) :
  (0 < w)%Qc -> (0 < h)%Qc ->
  calculateImageHeight (mkDims (Fin w) (Fin h)) =
    (if Qcltb (qc 500 / qc 400) (w / h)
     then Fin (qc 500 / (w / h))
     else Fin (Qcmin h (qc 400)))
  /\ calculateImageHeight (mkDims (of_Z 1000) (of_Z 500)) = of_Z 250
  /\ calculateImageHeight (mkDims (of_Z 400) (of_Z 1000)) = of_Z 400.
Proof.
  intros Hw Hh. split; [now apply calculateImageHeight_positive|].
  split; number_eq.
Qed.

Lemma calculateImageHeight_fit_rule_witness :
  ((0 < qc 1000)%Qc /\ (0 < qc 500)%Qc)
  /\ calculateImageHeight (mkDims (Fin (qc 1000)) (Fin (qc 500))) =
       (if Qcltb (qc 500 / qc 400) (qc 1000 / qc 500)
        then Fin (qc 500 / (qc 1000 / qc 500))
        else Fin (Qcmin (qc 500) (qc 400))).
Proof.
  split; [split; reflexivity|].
  apply (calculateImageHeight_fit_rule (qc 1000) (qc 500)); reflexivity.
Defined.

(** ** Objects used as maps *)

Lemma setProperty_lookup {V : Type} (obj : gmap string V) (key key' : string)
    (value : V) :
  setProperty obj key value !! key'
  = if String.eqb key key' && negb (String.eqb key' "__proto__")
    then Some value else obj !! key'.
Proof.
  unfold setProperty.
  destruct (String.eqb_spec key key') as [<-|Hne]; cbn [andb].
  - destruct (String.eqb key "__proto__"); cbn [negb];
      [reflexivity|apply lookup_insert_eq].
  - destruct (String.eqb key "__proto__"); [reflexivity|].
    now apply lookup_insert_ne.
Qed.

Lemma getProperty_own {V : Type} (obj : gmap string V) (key : string)
    (value : V) :
  obj !! key = Some value -> getProperty obj key = Own value.
Proof. unfold getProperty. now intros ->. Qed.

(** The ids that the renderer hands out are not names of members of
    [Object.prototype]. *)
Lemma inherited_img (n : string) : inherited ("img_" +:+ n) = false.
Proof. reflexivity. Qed.

(** ** The per-image footprint map *)

Section FootprintMap.

Variable imageDimensions : gmap string ImageDimensions.

Lemma lookup_after_false imageId heights :
  lookup_after imageDimensions imageId false heights = heights !! imageId.
Proof.
  unfold lookup_after. destruct (String.eqb imageId "__proto__"); [reflexivity|].
  now destruct (dimensionsOf (getProperty imageDimensions imageId)).
Qed.

Lemma lookup_after_orb imageId b1 b2 h1 h :
  h1 !! imageId = lookup_after imageDimensions imageId b1 h ->
  lookup_after imageDimensions imageId b2 h1 = lookup_after imageDimensions imageId (b1 || b2) h.
Proof.
  unfold lookup_after. intros H.
  destruct (String.eqb imageId "__proto__"); [exact H|].
  destruct (dimensionsOf (getProperty imageDimensions imageId)); [|exact H].
  destruct b1, b2; simpl; auto.
Qed.

Lemma fold_processItem_lookup imageId (items : list Content) :
  Forall (fun item => forall heights,
            processItem imageDimensions item heights !! imageId
            = lookup_after imageDimensions imageId (visits imageId item) heights) items ->
  forall heights,
    fold_left (fun h it => processItem imageDimensions it h) items heights
      !! imageId
    = lookup_after imageDimensions imageId (existsb (visits imageId) items) heights.
Proof.
  induction 1 as [|item items Hitem _ IH]; intros heights; simpl.
  - now rewrite lookup_after_false.
  - rewrite IH. apply lookup_after_orb, Hitem.
Qed.

Lemma processItem_lookup imageId (item : Content) :
  forall heights,
    processItem imageDimensions item heights !! imageId
    = lookup_after imageDimensions imageId (visits imageId item) heights.
Proof.
  induction item as [s|text image fit margin stack columns ul ol table canvas
                       Hstack Hcolumns _ _ _] using Content_tree_ind;
    intros heights.
  - simpl. now rewrite lookup_after_false.
  - cbn [processItem visits].
    set (h1 := match image with Some _ => _ | None => _ end).
    assert (E1 : h1 !! imageId
                 = lookup_after imageDimensions imageId (image_is imageId image) heights).
    { subst h1. destruct image as [i|]; cbn [image_is];
        [|now rewrite lookup_after_false].
      destruct (String.eqb_spec i imageId) as [->|Hne].
      - unfold lookup_after.
        destruct (dimensionsOf (getProperty imageDimensions imageId)) as [d|].
        + rewrite setProperty_lookup, String.eqb_refl. cbn [andb].
          now destruct (String.eqb imageId "__proto__").
        + now destruct (String.eqb imageId "__proto__").
      - rewrite lookup_after_false.
        destruct (dimensionsOf (getProperty imageDimensions i)); [|reflexivity].
        rewrite setProperty_lookup.
        apply String.eqb_neq in Hne. now rewrite Hne. }
    set (h2 := match stack with Some _ => _ | None => _ end).
    assert (E2 : h2 !! imageId
                 = lookup_after imageDimensions imageId
                     (image_is imageId image || within (visits imageId) stack)
                     heights).
    { subst h2. destruct stack as [l|]; simpl.
      - rewrite (fold_processItem_lookup imageId l Hstack).
        now apply lookup_after_orb.
      - now rewrite orb_false_r. }
    destruct columns as [l|]; simpl.
    + rewrite (fold_processItem_lookup imageId l Hcolumns).
      now apply lookup_after_orb.
    + now rewrite orb_false_r.
Qed.

(** The entry of the footprint map at an id. *)
Lemma calculateImageHeights_lookup (content : list Content) imageId :
  calculateImageHeights content imageDimensions !! imageId
  = if String.eqb imageId "__proto__" then None
    else
      match dimensionsOf (getProperty imageDimensions imageId) with
      | Some d =>
          if existsb (visits imageId) content then Some (footprint d) else None
      | None => None
      end.
Proof.
  unfold calculateImageHeights, processContent.
  rewrite fold_processItem_lookup.
  - unfold lookup_after. rewrite lookup_empty.
    destruct (String.eqb imageId "__proto__"); [reflexivity|].
    destruct (dimensionsOf _); [|reflexivity]. now destruct (existsb _ _).
  - apply Forall_forall. intros item _. apply processItem_lookup.
Qed.

(** The entry at an id that has known dimensions and is not [__proto__]. *)
Lemma calculateImageHeights_lookup_own (content : list Content) imageId d :
  imageDimensions !! imageId = Some d ->
  imageId <> "__proto__" ->
  calculateImageHeights content imageDimensions !! imageId
  = if existsb (visits imageId) content then Some (footprint d) else None.
Proof.
  intros Hd Hne. rewrite calculateImageHeights_lookup.
  apply String.eqb_neq in Hne. rewrite Hne.
  now rewrite (getProperty_own _ _ _ Hd).
Qed.

End FootprintMap.

(** An image node whose id names a member of [Object.prototype] and has no
    dimensions of its own: the member is taken for the dimensions and the
    footprint is [NaN]; under [__proto__] nothing is stored. *)
Lemma inherited_id_footprint :
  calculateImageHeights [image_node "constructor"] ∅ !! "constructor"
  = Some NaN
  /\ calculateImageHeights [image_node "__proto__"] ∅ = ∅.
Proof.
  split; [|reflexivity]. rewrite calculateImageHeights_lookup. reflexivity.
Qed.

Lemma visits_occurs imageId (item : Content) :
  visits imageId item = true -> occurs imageId item = true.
Proof.
  induction item as [s|text image fit margin stack columns ul ol table canvas
                       Hstack Hcolumns _ _ _] using Content_tree_ind.
  - discriminate.
  - cbn [visits occurs]. intros H.
    assert (Hl : forall o, OForall (fun c => visits imageId c = true ->
                                             occurs imageId c = true) o ->
                 within (visits imageId) o = true ->
                 within (occurs imageId) o = true).
    { intros [l|]; simpl; [|discriminate]. intros HF Hex.
      apply existsb_exists in Hex as (x & Hin & Hx).
      apply existsb_exists. exists x. split; [exact Hin|].
      rewrite Forall_forall in HF. apply HF; [|exact Hx].
      now apply list_elem_of_In. }
    apply orb_true_iff in H as [H|H];
      [apply orb_true_iff in H as [H|H]|].
    + rewrite H. reflexivity.
    + rewrite (Hl _ Hstack H). now rewrite orb_true_r.
    + rewrite (Hl _ Hcolumns H). now rewrite !orb_true_r.
Qed.

(** C5 (as amended). For every content tree and every image id whose pixel
    dimensions are known, the footprint map holds the image's footprint
    (fit-rule rendered height plus the 10 + 10 image margins) exactly when
    an image node with that id is at top level or nested through [stack]
    and [columns] containers; the traversal does not descend into lists
    and tables.  The one id that never gets an entry is [__proto__]: the
    footprint map is a plain object, and the assignment of a number to
    this key is ignored. *)
Theorem calculateImageHeights_visited (content : list Content)
    (imageDimensions : gmap string ImageDimensions) (imageId : string)
    (d : ImageDimensions) :
  imageDimensions !! imageId = Some d ->
  imageId <> "__proto__" ->
  calculateImageHeights content imageDimensions !! imageId
  = (if existsb (visits imageId) content then Some (footprint d) else None)
  /\ calculateImageHeights content imageDimensions !! "__proto__" = None.
Proof.
  intros H Hne. split.
  - now apply calculateImageHeights_lookup_own.
  - now rewrite calculateImageHeights_lookup.
Qed.

Lemma calculateImageHeights_visited_witness :
  (({["img_0" := mkDims (of_Z 1000) (of_Z 500)]}
      : gmap string ImageDimensions) !! "img_0"
   = Some (mkDims (of_Z 1000) (of_Z 500))
   /\ "img_0" <> "__proto__")
  /\ calculateImageHeights quoted_image_content
       {["img_0" := mkDims (of_Z 1000) (of_Z 500)]} !! "img_0"
     = Some (footprint (mkDims (of_Z 1000) (of_Z 500))).
Proof.
  split; [split; [reflexivity|discriminate]|].
  apply (calculateImageHeights_visited quoted_image_content
           {["img_0" := mkDims (of_Z 1000) (of_Z 500)]} "img_0"
           (mkDims (of_Z 1000) (of_Z 500)));
    [reflexivity|discriminate].
Defined.

(** C5 (as stated) fails: an image node inside a list item occurs in the
    tree and has known dimensions, but gets no entry in the footprint map. *)
Lemma listed_image_has_no_footprint :
  existsb (occurs "img_0") listed_image_content = true
  /\ listed_image_dimensions !! "img_0" = Some (mkDims (of_Z 1000) (of_Z 500))
  /\ calculateImageHeights listed_image_content listed_image_dimensions
       !! "img_0" = None.
Proof.
  split; [reflexivity|]. split; [reflexivity|].
  rewrite calculateImageHeights_lookup. reflexivity.
Qed.

(** ** The extent corrector *)

Lemma no_image_nodes_no_footprints (content : list Content)
    (imageDimensions : gmap string ImageDimensions) :
  (forall imageId, existsb (occurs imageId) content = false) ->
  calculateImageHeights content imageDimensions = ∅.
Proof.
  intros Hnone. apply map_eq. intros imageId.
  rewrite calculateImageHeights_lookup, lookup_empty.
  destruct (String.eqb imageId "__proto__"); [reflexivity|].
  destruct (dimensionsOf _); [|reflexivity].
  destruct (existsb (visits imageId) content) eqn:E; [|reflexivity].
  apply existsb_exists in E as (item & Hin & Hv).
  apply visits_occurs in Hv.
  assert (existsb (occurs imageId) content = true) as Hocc
    by (apply existsb_exists; eauto).
  rewrite Hnone in Hocc. discriminate.
Qed.

Lemma correctExtent_no_footprints (measurement : MeasurementResult) :
  correctExtent measurement ∅
  = mkCorrection (maxY measurement) (of_Z 0).
Proof.
  unfold correctExtent, totalImageHeight. rewrite map_fold_empty.
  change (gtb (of_Z 0) (of_Z 0)) with false.
  rewrite andb_false_r. reflexivity.
Qed.

(** C3. For a content tree with no image node the corrected extent is the
    measured [maxY] and the target page height is
    [topMargin + maxY + bottomMargin + 25]. *)
Theorem no_images_extent_unchanged (content : list Content)
    (options : GeneratorOptions) (measurement : MeasurementResult) :
  (forall imageId, existsb (occurs imageId) content = false) ->
  let imageHeights :=
    calculateImageHeights content (imageDimensions options) in
  let c := correctExtent measurement imageHeights in
  imageHeights = ∅
  /\ totalImageHeight imageHeights = of_Z 0
  /\ contentHeight c = maxY measurement
  /\ targetHeightOf (pageMargins options) (contentHeight c)
     = add (add (add (margin1 (pageMargins options)) (maxY measurement))
                (margin3 (pageMargins options)))
           (of_Z 25).
Proof.
  intros Hnone imageHeights c. subst c imageHeights.
  rewrite (no_image_nodes_no_footprints content _ Hnone).
  rewrite correctExtent_no_footprints. cbn [contentHeight].
  split; [reflexivity|].
  split; [unfold totalImageHeight; apply map_fold_empty|].
  split; reflexivity.
Qed.

Lemma no_images_extent_unchanged_witness :
  (forall imageId,
      existsb (occurs imageId) [text_node "intro"; CString "plain"] = false)
  /\ contentHeight
       (correctExtent (mkMeasurement (of_Z 300) ∅)
          (calculateImageHeights [text_node "intro"; CString "plain"]
             listed_image_dimensions))
     = of_Z 300.
Proof.
  split; [intros imageId; reflexivity|].
  apply (no_images_extent_unchanged
           [text_node "intro"; CString "plain"]
           (mkOptions (of_Z 40, of_Z 40, of_Z 40, of_Z 40)
              listed_image_dimensions)
           (mkMeasurement (of_Z 300) ∅)).
  intros imageId; reflexivity.
Defined.

Ltac qc_lra :=
  unfold Qcle, Qclt, Qcplus, Qcminus, Qcopp, Qcmult, qc, Q2Qc in *;
  cbn [this] in *; rewrite ?Qred_correct in *;
  try (unfold inject_Z in * ); lra.

Lemma ltb_Fin_l (y : Qc) (x : number) :
  ltb (Fin y) x = true ->
  x = PosInf \/ exists b, x = Fin b /\ (y < b)%Qc.
Proof.
  destruct x as [b| | |]; simpl; try discriminate.
  - intros H. right. exists b. split; [reflexivity|now apply Qcltb_lt].
  - now left.
Qed.

(** C2. For every measurement result with a finite [maxY] and every
    footprint map, the corrected extent is [maxY] plus the correction, the
    correction is never negative and the corrected extent is at least
    [maxY], whichever branch is taken (reconciliation with the recorded top
    offsets, empirical fallback, no images). *)
Theorem corrected_extent_ge_measured (measurement : MeasurementResult)
    (imageHeights : gmap string number) :
  is_finite (maxY measurement) ->
  let c := correctExtent measurement imageHeights in
  contentHeight c = add (maxY measurement) (imageHeightCorrection c)
  /\ le (of_Z 0) (imageHeightCorrection c)
  /\ le (maxY measurement) (contentHeight c).
Proof.
  destruct measurement as [my positions]. cbn [maxY].
  destruct my as [y| | |]; try contradiction. intros _.
  unfold correctExtent. cbn [maxY measuredImageHeights].
  set (total := totalImageHeight imageHeights).
  set (meb := maxExpectedBottom positions imageHeights).
  assert (Hzero : add (Fin y) (of_Z 0) = Fin y).
  { unfold of_Z. cbn [add]. apply Fin_canon. qc_lra. }
  assert (Hle0 : le (of_Z 0) (of_Z 0)) by (simpl; apply Qcle_refl).
  assert (Hyy : le (Fin y) (Fin y)) by (simpl; apply Qcle_refl).
  destruct (negb (bool_decide (positions = ∅)) && gtb total (of_Z 0)) eqn:B1.
  - cbn [contentHeight imageHeightCorrection].
    destruct (ltb (Fin y) meb) eqn:L.
    + apply ltb_Fin_l in L as [->|(b & -> & Hyb)].
      * simpl. auto.
      * split; [reflexivity|]. unfold sub, of_Z. cbn [opp add le].
        split; qc_lra.
    + rewrite Hzero. auto.
  - destruct (gtb total (of_Z 0)) eqn:B2.
    + cbn [contentHeight imageHeightCorrection].
      unfold gtb in B2. apply ltb_Fin_l in B2 as [->|(t & -> & Ht)].
      * simpl. auto.
      * split; [reflexivity|]. unfold of_Z. cbn [mul add le].
        split; qc_lra.
    + cbn [contentHeight imageHeightCorrection]. rewrite Hzero. auto.
Qed.

Lemma corrected_extent_ge_measured_witness :
  is_finite (maxY (mkMeasurement (of_Z 300) {["img_0" := of_Z 200]}))
  /\ le (of_Z 300)
        (contentHeight
           (correctExtent (mkMeasurement (of_Z 300) {["img_0" := of_Z 200]})
              {["img_0" := of_Z 270]})).
Proof.
  split; [exact I|].
  apply (corrected_extent_ge_measured
           (mkMeasurement (of_Z 300) {["img_0" := of_Z 200]})
           {["img_0" := of_Z 270]}).
  exact I.
Defined.

(** ** More facts about the order on [number] *)

Lemma le_refl_l (x y : number) : le x y -> le x x.
Proof. destruct x, y; simpl; auto using Qcle_refl. Qed.

Lemma le_refl_r (x y : number) : le x y -> le y y.
Proof. destruct x, y; simpl; auto using Qcle_refl. Qed.

Lemma le_trans (x y z : number) : le x y -> le y z -> le x z.
Proof.
  destruct x, y, z; simpl; auto; try contradiction. apply Qcle_trans.
Qed.

Lemma le_antisym (x y : number) : le x y -> le y x -> x = y.
Proof.
  destruct x, y; simpl; auto; try contradiction.
  intros H1 H2. f_equal. now apply Qcle_antisym.
Qed.

Lemma Math_max_cases (x y : number) :
  le x x -> le y y ->
  le x (Math_max x y) /\ le y (Math_max x y)
  /\ (Math_max x y = x \/ Math_max x y = y).
Proof.
  intros Hx Hy.
  destruct x as [a| | |], y as [b| | |]; simpl in *; auto; try contradiction.
  destruct (Qcltb a b) eqn:E; simpl.
  - apply Qcltb_lt in E. auto using Qclt_le_weak, Qcle_refl.
  - apply Qcltb_ge in E. auto using Qcle_refl.
Qed.

(** ** The measurement driver *)

Lemma fold_pageBreakBefore_maxY pageMargins (observed : list ObservedNode) :
  forall st,
    st_maxY (fold_left (pageBreakBefore pageMargins) observed st)
    = fold_left Math_max (bottomEdges pageMargins observed) (st_maxY st).
Proof.
  induction observed as [|currentNode observed IH]; intros st; [reflexivity|].
  cbn [fold_left]. rewrite IH. unfold bottomEdges. cbn [omap list_omap].
  unfold pageBreakBefore. cbn [st_maxY].
  destruct (startPosition currentNode); reflexivity.
Qed.

Lemma fold_Math_max_spec (edges : list number) :
  Forall (fun e => le e e) edges ->
  forall acc, le acc acc ->
    let r := fold_left Math_max edges acc in
    le acc r /\ Forall (fun e => le e r) edges /\ (r = acc \/ r ∈ edges).
Proof.
  induction 1 as [|e edges He _ IH]; intros acc Hacc; cbn [fold_left].
  - split; [exact Hacc|]. split; [constructor|now left].
  - destruct (Math_max_cases acc e Hacc He) as (Ha & Hb & Hc).
    destruct (IH (Math_max acc e) (le_refl_r _ _ Ha)) as (H1 & H2 & H3).
    split; [eapply le_trans; eassumption|].
    split; [constructor; [eapply le_trans; eassumption|exact H2]|].
    destruct H3 as [H3|H3].
    + destruct Hc as [Hc|Hc]; rewrite H3, Hc; [now left|right; left].
    + right. now right.
Qed.

Lemma fold_Math_max_NaN (edges : list number) :
  forall acc, acc = NaN \/ NaN ∈ edges -> fold_left Math_max edges acc = NaN.
Proof.
  induction edges as [|e edges IH]; intros acc H; cbn [fold_left].
  - destruct H as [H|H]; [exact H|]. now apply not_elem_of_nil in H.
  - apply IH. destruct H as [->|H]; [now left|].
    apply elem_of_cons in H as [<-|H]; [left|now right].
    now destruct acc.
Qed.

Lemma not_NaN_le (x : number) : x <> NaN -> le x x.
Proof. destruct x; simpl; auto using Qcle_refl. Qed.

Lemma elem_of_bottomEdges (pageMargins : Margin) (observed : list ObservedNode)
    (e : number) :
  e ∈ bottomEdges pageMargins observed
  <-> exists currentNode sp,
        (currentNode ∈ observed /\ startPosition currentNode = Some sp)
        /\ e = nodeBottom pageMargins sp currentNode.
Proof.
  unfold bottomEdges. rewrite list_elem_of_omap. split.
  - intros (currentNode & Hin & He).
    destruct (startPosition currentNode) as [sp|] eqn:E; [|discriminate].
    injection He as <-. exists currentNode, sp. auto.
  - intros (currentNode & sp & (Hin & Hsp) & ->). exists currentNode.
    split; [exact Hin|]. now rewrite Hsp.
Qed.

(** C6 (as amended). The measured [maxY] is the maximum of 0 and the bottom
    edges [(pageNumber - 1) * (MAX_PAGE_HEIGHT - topMargin - bottomMargin)
    + top + (height || 0)] of the observed nodes that carry a start
    position: it is at least 0, no bottom edge exceeds it, and it is 0 or
    one of the bottom edges; it is one of them as soon as one of them is
    not negative.  With no such node, in particular with no observed node
    at all, it is 0.  When a bottom edge is [NaN], so is [maxY]. *)
Theorem measured_maxY_is_maximum (pageMargins : Margin)
    (observed : list ObservedNode) :
  let pageHeightUsable :=
    sub (sub MAX_PAGE_HEIGHT (margin1 pageMargins)) (margin3 pageMargins) in
  let bottom (currentNode : ObservedNode) (sp : Position) : number :=
    add (add (mul (sub (pageNumber sp) (of_Z 1)) pageHeightUsable) (top sp))
        (or_default (node_height currentNode) (of_Z 0)) in
  let positioned (currentNode : ObservedNode) (sp : Position) : Prop :=
    currentNode ∈ observed /\ startPosition currentNode = Some sp in
  let r := maxY (measureContentHeight observed pageMargins) in
  maxY (measureContentHeight [] pageMargins) = of_Z 0
  /\ ((forall currentNode sp, ~ positioned currentNode sp) -> r = of_Z 0)
  /\ ((exists currentNode sp,
         positioned currentNode sp /\ bottom currentNode sp = NaN) ->
      r = NaN)
  /\ ((forall currentNode sp,
         positioned currentNode sp -> bottom currentNode sp <> NaN) ->
      le (of_Z 0) r
      /\ (forall currentNode sp,
            positioned currentNode sp -> le (bottom currentNode sp) r)
      /\ (r = of_Z 0
          \/ exists currentNode sp,
               positioned currentNode sp /\ r = bottom currentNode sp)
      /\ ((exists currentNode sp,
             positioned currentNode sp
             /\ le (of_Z 0) (bottom currentNode sp)) ->
          exists currentNode sp,
            positioned currentNode sp /\ r = bottom currentNode sp)).
Proof.
  intros pageHeightUsable bottom positioned r.
  set (edges := bottomEdges pageMargins observed).
  assert (Hmem : forall e,
             e ∈ edges
             <-> exists currentNode sp,
                   positioned currentNode sp /\ e = bottom currentNode sp).
  { intros e. apply elem_of_bottomEdges. }
  assert (Hr : r = fold_left Math_max edges (of_Z 0)).
  { subst r. unfold measureContentHeight. cbn [maxY].
    now rewrite fold_pageBreakBefore_maxY. }
  assert (H0 : le (of_Z 0) (of_Z 0)) by (simpl; apply Qcle_refl).
  split; [reflexivity|]. split; [|split].
  - intros Hnone. rewrite Hr. destruct edges as [|e edges'] eqn:E;
      [reflexivity|].
    destruct (proj1 (Hmem e) (list_elem_of_here e edges'))
      as (currentNode & sp & Hp & _).
    now destruct (Hnone currentNode sp).
  - intros (currentNode & sp & Hp & HNaN). rewrite Hr.
    apply fold_Math_max_NaN. right. apply Hmem.
    exists currentNode, sp. auto.
  - intros Hnum.
    assert (Hnn : Forall (fun e => le e e) edges).
    { apply Forall_forall. intros e He.
      apply Hmem in He as (currentNode & sp & Hp & ->).
      apply not_NaN_le. now apply Hnum. }
    destruct (fold_Math_max_spec edges Hnn (of_Z 0) H0) as (H1 & H2 & H3).
    rewrite <- Hr in H1, H2, H3. rewrite Forall_forall in H2.
    assert (Hub : forall currentNode sp,
               positioned currentNode sp -> le (bottom currentNode sp) r).
    { intros currentNode sp Hp. apply H2. apply Hmem.
      exists currentNode, sp. auto. }
    assert (Hatt : r = of_Z 0
                   \/ exists currentNode sp,
                        positioned currentNode sp
                        /\ r = bottom currentNode sp).
    { destruct H3 as [H3|H3]; [now left|right]. now apply Hmem. }
    split; [exact H1|]. split; [exact Hub|]. split; [exact Hatt|].
    intros (currentNode & sp & Hp & Hpos).
    destruct Hatt as [Hatt|Hatt]; [|exact Hatt].
    exists currentNode, sp. split; [exact Hp|].
    apply le_antisym; [rewrite Hatt; exact Hpos|now apply Hub].
Qed.

(** C6 (as stated) fails: for a single observed node whose bottom edge is
    negative, here [(1 - 1) * (28347 - 40 - 40) + (-50) + 10 = -40], the
    maximum of the bottom edges is that edge, but [maxY], which starts at
    0, is 0. *)
Lemma negative_bottom_edge_ignored :
  startPosition node_above_page = Some (mkPosition (of_Z 1) (of_Z (-50)))
  /\ add (add (mul (sub (of_Z 1) (of_Z 1))
                   (sub (sub MAX_PAGE_HEIGHT (margin1 default_margins))
                        (margin3 default_margins)))
              (of_Z (-50)))
         (or_default (node_height node_above_page) (of_Z 0))
     = of_Z (-40)
  /\ maxY (measureContentHeight [node_above_page] default_margins) = of_Z 0
  /\ of_Z 0 <> of_Z (-40).
Proof.
  split; [reflexivity|]. split; [number_eq|]. split; [number_eq|].
  intros H. apply of_Z_inj in H. discriminate.
Qed.

(** ** The canvas resizer *)

Lemma MAX_PAGE_HEIGHT_value : MAX_PAGE_HEIGHT = of_Z 28347.
Proof. number_eq. Qed.

(** The binary64 product [10000 * 2.83465] is exactly [28346.5], the value
    of the exact product: the argument of [Math.round] is the same tie
    with and without rounding. *)
Lemma mm_10000_binary64 :
  SFmul 53 1024 binary64_10000 binary64_2_83465
  = S754_finite false (56693 * 2 ^ 37) (-38)
  /\ mul (of_Z 10000) (Fin (Q2Qc (283465 # 100000))) = Fin (Q2Qc (56693 # 2)).
Proof. split; [reflexivity|number_eq]. Qed.

Lemma removeExtraPages_first (p : PDFPage) (rest : list PDFPage) :
  removeExtraPages p rest = [p].
Proof. induction rest as [|q rest IH]; [reflexivity|exact IH]. Qed.

(** C8 (as amended). When the rendered artifact has at least one page, the
    result is its first page alone, with its width, the target height, and
    one more translation, by [(0, targetHeight - MAX_PAGE_HEIGHT)]; the
    oversized canvas height is [MAX_PAGE_HEIGHT = Math.round(28346.5) =
    28347], so for the target height 600 the delta is -27747. *)
Theorem resize_translates_once (firstPage : PDFPage) (rest : list PDFPage)
    (targetHeight : number) (content : list Content)
    (options : GeneratorOptions) (observed : list ObservedNode) :
  resizePages (firstPage :: rest) targetHeight
  = [mkPage (page_width firstPage) targetHeight
       (page_translations firstPage
        ++ [(of_Z 0, sub targetHeight MAX_PAGE_HEIGHT)])]
  /\ (let measurement :=
        measureContentHeight observed (pageMargins options) in
      let imageHeights :=
        calculateImageHeights content (imageDimensions options) in
      let target :=
        targetHeightOf (pageMargins options)
          (contentHeight (correctExtent measurement imageHeights)) in
      generatePDF content options observed (firstPage :: rest)
      = [mkPage (page_width firstPage) target
           (page_translations firstPage
            ++ [(of_Z 0, sub target MAX_PAGE_HEIGHT)])])
  /\ MAX_PAGE_HEIGHT = of_Z 28347
  /\ sub (of_Z 600) MAX_PAGE_HEIGHT = of_Z (-27747).
Proof.
  assert (Hresize : forall target,
            resizePages (firstPage :: rest) target
            = [mkPage (page_width firstPage) target
                 (page_translations firstPage
                  ++ [(of_Z 0, sub target MAX_PAGE_HEIGHT)])]).
  { intros target. cbn [resizePages]. rewrite removeExtraPages_first.
    reflexivity. }
  split; [apply Hresize|]. split; [apply Hresize|]. split; number_eq.
Qed.

(** C8 (as stated) fails: the oversized canvas is not 28346 units high, and
    a page rendered on it and resized to the target height 600 is
    translated by -27747, not by -27746. *)
Lemma resize_delta_is_not_27746 :
  MAX_PAGE_HEIGHT <> of_Z 28346
  /\ page_translations
       <$> resizePages [mkPage (of_Z 595) MAX_PAGE_HEIGHT []] (of_Z 600)
     = [[(of_Z 0, of_Z (-27747))]]
  /\ of_Z (-27747) <> of_Z (-27746).
Proof.
  split; [|split].
  - rewrite MAX_PAGE_HEIGHT_value. intros H. apply of_Z_inj in H. discriminate.
  - cbn [resizePages removeExtraPages fmap list_fmap translateContent setSize
         page_translations page_width page_height app].
    reflexivity.
  - intros H. apply of_Z_inj in H. discriminate.
Qed.

(** ** The image header parser *)

Lemma byteAt_range (buffer : list byte) (i : Z) : 0 <= byteAt buffer i < 256.
Proof.
  unfold byteAt.
  pose proof (Byte.to_N_bounded (nth (Z.to_nat i) buffer Byte.x00)). lia.
Qed.

Lemma getUint16_range (buffer : list byte) (byteOffset v : Z) :
  getUint16 buffer byteOffset = Return v -> 0 <= v < 2 ^ 16.
Proof.
  unfold getUint16. destruct (_ || _); [discriminate|].
  intros [= <-]. unfold uint16At. rewrite Z.shiftl_mul_pow2 by lia.
  pose proof (byteAt_range buffer byteOffset).
  pose proof (byteAt_range buffer (byteOffset + 1)). lia.
Qed.

Lemma getUint32_range (buffer : list byte) (byteOffset v : Z) :
  getUint32 buffer byteOffset = Return v -> 0 <= v < 2 ^ 32.
Proof.
  unfold getUint32. destruct (_ || _); [discriminate|].
  intros [= <-]. unfold uint32At. rewrite !Z.shiftl_mul_pow2 by lia.
  pose proof (byteAt_range buffer byteOffset).
  pose proof (byteAt_range buffer (byteOffset + 1)).
  pose proof (byteAt_range buffer (byteOffset + 2)).
  pose proof (byteAt_range buffer (byteOffset + 3)). lia.
Qed.

(** Every iteration of the scan advances [offset] by at least two, so
    [fuel] iterations suffice as soon as
    [byteLength - offset + 2 <= 2 * fuel]. *)
Lemma jpegScan_fuel_enough (buffer : list byte) (fuel : nat) :
  forall offset,
    Z.max 0 (byteLength buffer - offset) + 2 <= 2 * Z.of_nat fuel ->
    exists r, jpegScan fuel buffer offset = Some r.
Proof.
  induction fuel as [|fuel IH]; intros offset Hfuel; [lia|].
  cbn [jpegScan].
  destruct (offset <? byteLength buffer) eqn:Hlt; [|eauto].
  apply Z.ltb_lt in Hlt.
  destruct (getUint16 buffer offset) as [marker|e]; [|eauto].
  destruct (isSOF marker); [eauto|].
  destruct (marker =? 0xffd9); [eauto|].
  destruct (marker =? 0xffd8); [apply IH; lia|].
  destruct ((0xffd0 <=? marker) && (marker <=? 0xffd7)); [apply IH; lia|].
  destruct (getUint16 buffer (offset + 2)) as [len|e] eqn:Hlen; [|eauto].
  apply getUint16_range in Hlen. apply IH. lia.
Qed.

(** More fuel than needed does not change the result. *)
Lemma jpegScan_fuel_mono (buffer : list byte) (fuel : nat) :
  forall offset r,
    jpegScan fuel buffer offset = Some r ->
    jpegScan (S fuel) buffer offset = Some r.
Proof.
  induction fuel as [|fuel IH]; intros offset r; [discriminate|].
  intros H. cbn [jpegScan] in H. change (jpegScan (S (S fuel)) buffer offset)
    with (if offset <? byteLength buffer then
            match getUint16 buffer offset with
            | Throw e => Some (Throw e)
            | Return marker =>
                let offset := offset + 2 in
                if isSOF marker then
                  Some (height ← getUint16 buffer (offset + 3);
                        width ← getUint16 buffer (offset + 5);
                        mret (Some (mkDims (of_Z width) (of_Z height))))
                else if marker =? 0xffd9 then Some (Return None)
                else if marker =? 0xffd8 then jpegScan (S fuel) buffer offset
                else if (0xffd0 <=? marker) && (marker <=? 0xffd7) then
                  jpegScan (S fuel) buffer offset
                else
                  match getUint16 buffer offset with
                  | Throw e => Some (Throw e)
                  | Return length => jpegScan (S fuel) buffer (offset + length)
                  end
            end
          else Some (Return None)).
  destruct (offset <? byteLength buffer); [|exact H].
  destruct (getUint16 buffer offset) as [marker|e]; [|exact H].
  cbv zeta in *.
  destruct (isSOF marker); [exact H|].
  destruct (marker =? 0xffd9); [exact H|].
  destruct (marker =? 0xffd8); [now apply IH|].
  destruct ((0xffd0 <=? marker) && (marker <=? 0xffd7)); [now apply IH|].
  destruct (getUint16 buffer (offset + 2)); [now apply IH|exact H].
Qed.

(** C10. The marker scan of [getJpegDimensions] terminates on every
    buffer: started at offset 2 it ends, with dimensions, no result or a
    [RangeError], within [byteLength / 2 + 1] iterations, whatever the
    segment length fields are (each iteration advances the offset by at
    least two), and any larger bound gives the same outcome. *)
Theorem jpegScan_terminates (buffer : list byte) :
  exists r,
    jpegScan (S (length buffer / 2)) buffer 2 = Some r
    /\ jpegScan (jpegFuel buffer) buffer 2 = Some r
    /\ getJpegDimensions buffer
       = (signature ← getUint16 buffer 0;
          if negb (signature =? 0xffd8) then mret None else r).
Proof.
  destruct (jpegScan_fuel_enough buffer (S (length buffer / 2)) 2) as [r Hr].
  { unfold byteLength. rewrite Nat2Z.inj_succ, Nat2Z.inj_div.
    change (Z.of_nat 2) with 2.
    pose proof (Z.mod_pos_bound (Z.of_nat (length buffer)) 2 ltac:(lia)).
    pose proof (Z.div_mod (Z.of_nat (length buffer)) 2 ltac:(lia)). lia. }
  assert (Hfuel : jpegScan (jpegFuel buffer) buffer 2 = Some r).
  { unfold jpegFuel.
    assert (Hle : (S (length buffer / 2) <= S (length buffer))%nat).
    { apply le_n_S, Nat.Div0.div_le_upper_bound. lia. }
    induction Hle as [|m _ IHm]; [exact Hr|].
    now apply jpegScan_fuel_mono. }
  exists r. split; [exact Hr|]. split; [exact Hfuel|].
  unfold getJpegDimensions. rewrite Hfuel. reflexivity.
Qed.

Example png_header_parses :
  getImageDimensions png_800x600 "image/png"
  = Return (Some (mkDims (of_Z 800) (of_Z 600)))
  /\ getImageDimensions png_bad_signature "image/png" = Return None.
Proof. split; reflexivity. Qed.

Example jpeg_frame_parses :
  getImageDimensions jpeg_400x320 "image/jpeg"
  = Return (Some (mkDims (of_Z 400) (of_Z 320)))
  /\ getImageDimensions jpeg_zero_length "image/jpeg" = Return None
  /\ getImageDimensions jpeg_400x320 "image/gif" = Return None.
Proof. repeat split. Qed.

Lemma getUint32_in_range (buffer : list byte) (byteOffset : Z) :
  0 <= byteOffset -> byteOffset + 4 <= byteLength buffer ->
  getUint32 buffer byteOffset = Return (uint32At buffer byteOffset).
Proof.
  intros H1 H2. unfold getUint32.
  destruct (byteOffset <? 0) eqn:E1; [apply Z.ltb_lt in E1; lia|].
  destruct (byteLength buffer <? byteOffset + 4) eqn:E2;
    [apply Z.ltb_lt in E2; lia|reflexivity].
Qed.

Lemma getUint32_out_of_range (buffer : list byte) (byteOffset : Z) :
  byteLength buffer < byteOffset + 4 ->
  getUint32 buffer byteOffset = Throw RangeError.
Proof.
  intros H. unfold getUint32.
  destruct (byteLength buffer <? byteOffset + 4) eqn:E;
    [now rewrite orb_true_r|apply Z.ltb_ge in E; lia].
Qed.

Lemma getPngDimensions_cases (buffer : list byte) :
  getPngDimensions buffer
  = if byteLength buffer <? 4 then Throw RangeError
    else if negb (uint32At buffer 0 =? 0x89504e47) then Return None
    else if byteLength buffer <? 24 then Throw RangeError
    else Return (Some (mkDims (of_Z (uint32At buffer 16))
                              (of_Z (uint32At buffer 20)))).
Proof.
  unfold getPngDimensions.
  destruct (byteLength buffer <? 4) eqn:E4.
  - apply Z.ltb_lt in E4. rewrite (getUint32_out_of_range buffer 0) by lia.
    reflexivity.
  - apply Z.ltb_ge in E4. rewrite (getUint32_in_range buffer 0) by lia.
    cbn [mbind result_bind].
    destruct (negb (uint32At buffer 0 =? 0x89504e47)); [reflexivity|].
    destruct (byteLength buffer <? 24) eqn:E24.
    + apply Z.ltb_lt in E24.
      destruct (Z_lt_le_dec (byteLength buffer) 20).
      * rewrite (getUint32_out_of_range buffer 16) by lia. reflexivity.
      * rewrite (getUint32_in_range buffer 16) by lia.
        rewrite (getUint32_out_of_range buffer 20) by lia. reflexivity.
    + apply Z.ltb_ge in E24.
      rewrite (getUint32_in_range buffer 16), (getUint32_in_range buffer 20)
        by lia.
      reflexivity.
Qed.

Lemma getJpegDimensions_cases (buffer : list byte) :
  exists r,
    jpegScan (jpegFuel buffer) buffer 2 = Some r
    /\ getJpegDimensions buffer
       = if byteLength buffer <? 2 then Throw RangeError
         else if negb (uint16At buffer 0 =? 0xffd8) then Return None
         else r.
Proof.
  destruct (jpegScan_fuel_enough buffer (jpegFuel buffer) 2) as [r Hr].
  { unfold jpegFuel, byteLength. lia. }
  exists r. split; [exact Hr|].
  unfold getJpegDimensions, getUint16. rewrite Hr.
  change (0 <? 0) with false. change (0 + 2) with 2. cbn [orb].
  destruct (byteLength buffer <? 2); reflexivity.
Qed.

(** C4 (as amended). For every byte buffer and declared MIME type the
    header parser ends with dimensions, with no result, or with the
    [RangeError] of a [DataView] read past the end of the buffer.  An
    unsupported MIME type gives no result.  PNG: fewer than 4 bytes throw, a
    wrong signature gives no result, the right signature with fewer than 24
    bytes throws, otherwise the integers at offsets 16 and 20 are returned.
    JPEG: fewer than 2 bytes throw, a wrong start-of-image marker gives no
    result, otherwise the outcome is that of the marker scan.  The loader
    that calls the parser catches the exception and yields no image. *)
Theorem header_parser_outcomes (buffer : list byte)
    (mimeType id dataUrl : string) :
  getImageDimensions buffer mimeType
  = (if String.eqb mimeType "image/png" then
       if byteLength buffer <? 4 then Throw RangeError
       else if negb (uint32At buffer 0 =? 0x89504e47) then Return None
       else if byteLength buffer <? 24 then Throw RangeError
       else Return (Some (mkDims (of_Z (uint32At buffer 16))
                                 (of_Z (uint32At buffer 20))))
     else if String.eqb mimeType "image/jpeg" then
       if byteLength buffer <? 2 then Throw RangeError
       else if negb (uint16At buffer 0 =? 0xffd8) then Return None
       else default (Return None) (jpegScan (jpegFuel buffer) buffer 2)
     else Return None)
  /\ is_Some (jpegScan (jpegFuel buffer) buffer 2)
  /\ loadImageBytes id buffer mimeType dataUrl
     = match getImageDimensions buffer mimeType with
       | Return dimensions => Some (mkImageData id dataUrl dimensions)
       | Throw RangeError => None
       end.
Proof.
  destruct (getJpegDimensions_cases buffer) as (r & Hr & Hj).
  split; [|split].
  - unfold getImageDimensions.
    destruct (String.eqb mimeType "image/png");
      [apply getPngDimensions_cases|].
    destruct (String.eqb mimeType "image/jpeg"); [|reflexivity].
    rewrite Hj, Hr. reflexivity.
  - rewrite Hr. eauto.
  - unfold loadImageBytes.
    destruct (getImageDimensions buffer mimeType) as [d|[]]; reflexivity.
Qed.

(** C4 (as stated) fails: on an empty buffer, on a PNG file cut after its
    signature and on a JPEG file cut inside its first marker the parser
    throws instead of returning no result. *)
Lemma truncated_header_throws :
  getImageDimensions [] "image/png" = Throw RangeError
  /\ getImageDimensions [] "image/jpeg" = Throw RangeError
  /\ getImageDimensions png_truncated "image/png" = Throw RangeError
  /\ getImageDimensions jpeg_truncated "image/jpeg" = Throw RangeError.
Proof. repeat split. Qed.

(** ** No validation between the parser and the fit rule *)

Lemma calculateImageHeight_bounded (w h : Qc) :
  (0 <= w)%Qc -> (0 <= h)%Qc ->
  exists q, calculateImageHeight (mkDims (Fin w) (Fin h)) = Fin q
            /\ (0 <= q <= qc 400)%Qc.
Proof.
  intros Hw Hh.
  assert (Hmin : forall x : Qc, (0 <= x)%Qc ->
            (0 <= Qcmin x (qc 400) <= qc 400)%Qc).
  { intros x Hx. unfold Qcmin. destruct (Qcltb (qc 400) x) eqn:E.
    - split; [discriminate|apply Qcle_refl].
    - apply Qcltb_ge in E. auto. }
  destruct (Qcle_lt_or_eq _ _ Hh) as [Hh'|<-].
  - destruct (Qcle_lt_or_eq _ _ Hw) as [Hw'|<-].
    + rewrite (calculateImageHeight_positive w h Hw' Hh').
      destruct (Qcltb (qc 500 / qc 400) (w / h)) eqn:E; [|eauto].
      apply Qcltb_lt in E. eexists. split; [reflexivity|].
      pose proof (Qcdiv_pos w h Hw' Hh') as Hr.
      revert E Hr. generalize (w / h)%Qc. clear. intros r E Hr.
      unfold Qcdiv, Qcmult, Qcinv, Qcle, Qclt, qc, Q2Qc in *.
      cbn [this] in *. rewrite ?Qred_correct in *.
      assert (Hc : (inject_Z 500 * / inject_Z 400 == 5 # 4)%Q) by reflexivity.
      rewrite Hc in E.
      split.
      * apply Qmult_le_0_compat; [discriminate|].
        apply Qlt_le_weak, Qinv_lt_0_compat, Hr.
      * apply Qle_shift_div_r; [exact Hr|]. unfold inject_Z. lra.
    + unfold calculateImageHeight. cbn [width height div].
      rewrite (Qceqb_pos h Hh').
      replace (Q2Qc 0 / h)%Qc with (Q2Qc 0)
        by (unfold Qcdiv; now rewrite Qcmult_0_l).
      change (gtb _ _) with false. cbv iota.
      unfold IMAGE_FIT_HEIGHT, of_Z, Math_min. cbn [ltb].
      exists (Qcmin h (qc 400)). split; [|now apply Hmin].
      unfold Qcmin. now destruct (Qcltb (qc 400) h).
  - destruct (Qcle_lt_or_eq _ _ Hw) as [Hw'|<-].
    + exists (Q2Qc 0). split; [|split; discriminate].
      unfold calculateImageHeight. cbn [width height div].
      change (Qceqb 0 0) with true. cbv iota.
      assert (Hs : (w ?= Q2Qc 0)%Qc = Gt) by (apply Qcgt_alt; exact Hw').
      rewrite Hs. reflexivity.
    + exists (Q2Qc 0). split; [number_eq|split; discriminate].
Qed.

Lemma uint32At_range (buffer : list byte) (i : Z) :
  0 <= uint32At buffer i < 2 ^ 32.
Proof.
  unfold uint32At. rewrite !Z.shiftl_mul_pow2 by lia.
  pose proof (byteAt_range buffer i).
  pose proof (byteAt_range buffer (i + 1)).
  pose proof (byteAt_range buffer (i + 2)).
  pose proof (byteAt_range buffer (i + 3)). lia.
Qed.

Lemma jpegScan_integers (buffer : list byte) (fuel : nat) :
  forall offset d,
    jpegScan fuel buffer offset = Some (Return (Some d)) ->
    integer_dimensions d.
Proof.
  induction fuel as [|fuel IH]; intros offset d; [discriminate|].
  cbn [jpegScan].
  destruct (offset <? byteLength buffer); [|discriminate].
  destruct (getUint16 buffer offset) as [marker|e]; [|discriminate].
  destruct (isSOF marker).
  - destruct (getUint16 buffer (offset + 2 + 3)) as [h|e] eqn:Hh;
      [|discriminate].
    destruct (getUint16 buffer (offset + 2 + 5)) as [w|e] eqn:Hw;
      [|discriminate].
    cbn [mbind result_bind mret result_ret]. intros [= <-].
    apply getUint16_range in Hh, Hw. exists w, h. repeat split; lia.
  - destruct (marker =? 0xffd9); [discriminate|].
    destruct (marker =? 0xffd8); [apply IH|].
    destruct ((0xffd0 <=? marker) && (marker <=? 0xffd7)); [apply IH|].
    destruct (getUint16 buffer (offset + 2)); [apply IH|discriminate].
Qed.

Lemma getImageDimensions_integers (buffer : list byte) (mimeType : string)
    (d : ImageDimensions) :
  getImageDimensions buffer mimeType = Return (Some d) ->
  integer_dimensions d.
Proof.
  unfold getImageDimensions.
  destruct (String.eqb mimeType "image/png").
  - rewrite getPngDimensions_cases.
    destruct (byteLength buffer <? 4); [discriminate|].
    destruct (negb _); [discriminate|].
    destruct (byteLength buffer <? 24); [discriminate|].
    intros [= <-]. eexists _, _. split; [reflexivity|].
    split; apply uint32At_range.
  - destruct (String.eqb mimeType "image/jpeg"); [|discriminate].
    destruct (getJpegDimensions_cases buffer) as (r & Hr & ->).
    destruct (byteLength buffer <? 2); [discriminate|].
    destruct (negb _); [discriminate|].
    intros ->. exact (jpegScan_integers _ _ _ _ Hr).
Qed.

Lemma of_Z_nonneg (z : Z) : 0 <= z -> (0 <= qc z)%Qc.
Proof.
  intros H. unfold Qcle, qc, Q2Qc. cbn [this]. rewrite !Qred_correct.
  unfold Qle. simpl. lia.
Qed.

Lemma getImageDimensions_kept (imageId : string) (buffer : list byte)
    (mimeType dataUrl : string) (d : ImageDimensions) :
  getImageDimensions buffer mimeType = Return (Some d) ->
  loadImageBytes imageId buffer mimeType dataUrl
  = Some (mkImageData imageId dataUrl (Some d)).
Proof. unfold loadImageBytes. now intros ->. Qed.

Lemma storeImage_other (acc : LoadedImages) (img : option ImageData)
    (imageId : string) :
  (forall i, img = Some i -> id i <> imageId) ->
  loaded_dimensions (storeImage acc img) !! imageId
  = loaded_dimensions acc !! imageId.
Proof.
  intros Hne. destruct img as [i|]; [|reflexivity].
  specialize (Hne i eq_refl). unfold storeImage.
  destruct (dimensions i); [|reflexivity].
  destruct (String.eqb (id i) "__proto__"); [reflexivity|].
  cbn [loaded_dimensions]. now apply lookup_insert_ne.
Qed.

Lemma fold_storeImage_other (after : list (option ImageData))
    (imageId : string) :
  Forall (fun o => forall img, o = Some img -> id img <> imageId) after ->
  forall acc,
    loaded_dimensions (fold_left storeImage after acc) !! imageId
    = loaded_dimensions acc !! imageId.
Proof.
  induction 1 as [|o after Ho _ IH]; intros acc; [reflexivity|].
  cbn [fold_left]. rewrite IH. now apply storeImage_other.
Qed.

Lemma loadImages_stored (before after : list (option ImageData))
    (img : ImageData) (d : ImageDimensions) :
  dimensions img = Some d ->
  id img <> "__proto__" ->
  Forall (fun o => forall i, o = Some i -> id i <> id img) after ->
  loaded_dimensions (loadImages (before ++ Some img :: after)) !! id img
  = Some d.
Proof.
  intros Hd Hne Hafter. unfold loadImages.
  rewrite fold_left_app. cbn [fold_left].
  rewrite (fold_storeImage_other after (id img) Hafter).
  unfold storeImage. rewrite Hd.
  apply String.eqb_neq in Hne. rewrite Hne.
  cbn [loaded_dimensions]. apply lookup_insert_eq.
Qed.

(** C7 (as amended). Dimensions that the header parser returns are
    non-negative integers below 2^32, never negative and never [NaN], and
    for them the fit rule gives a finite height between 0 and 400.  They
    are not checked any further: [loadImages] stores the parsed record
    unchanged under the image id (the last record of an id wins), and for
    every content tree in which the traversal of [calculateImageHeights]
    visits an image node with this id, the footprint map holds at this id
    the result of [calculateImageHeight] on the stored record plus the
    10 + 10 image margins, whatever the [pixelHeight] of the record.  The
    id [__proto__], under which the footprint map never holds anything, is
    left aside. *)
Theorem parsed_dimensions_reach_fit_rule (buffer : list byte)
    (mimeType imageId dataUrl : string) (d : ImageDimensions)
    (before after : list (option ImageData)) (content : list Content) :
  getImageDimensions buffer mimeType = Return (Some d) ->
  imageId <> "__proto__" ->
  Forall (fun o => forall img, o = Some img -> id img <> imageId) after ->
  let loaded :=
    loadImages
      (before ++ loadImageBytes imageId buffer mimeType dataUrl :: after) in
  integer_dimensions d
  /\ (exists q, calculateImageHeight d = Fin q /\ (0 <= q <= qc 400)%Qc)
  /\ loadImageBytes imageId buffer mimeType dataUrl
     = Some (mkImageData imageId dataUrl (Some d))
  /\ loaded_dimensions loaded !! imageId = Some d
  /\ (existsb (visits imageId) content = true ->
      calculateImageHeights content (loaded_dimensions loaded) !! imageId
      = Some (add (add (calculateImageHeight d) (of_Z 10)) (of_Z 10))).
Proof.
  intros Hparse Hne Hafter loaded.
  pose proof (getImageDimensions_kept imageId _ _ dataUrl _ Hparse) as Hkept.
  assert (Hloaded : loaded_dimensions loaded !! imageId = Some d).
  { subst loaded. rewrite Hkept.
    apply (loadImages_stored before after
             (mkImageData imageId dataUrl (Some d)) d);
      [reflexivity|exact Hne|exact Hafter]. }
  pose proof (getImageDimensions_integers _ _ _ Hparse) as Hint.
  split; [exact Hint|].
  split; [|split; [exact Hkept|split; [exact Hloaded|]]].
  - destruct Hint as (w & h & -> & Hw & Hh).
    apply calculateImageHeight_bounded; apply of_Z_nonneg; lia.
  - intros Hv.
    rewrite (calculateImageHeights_lookup_own _ content imageId d Hloaded Hne).
    rewrite Hv. reflexivity.
Qed.

Lemma parsed_dimensions_reach_fit_rule_witness :
  (getImageDimensions png_800x600 "image/png"
   = Return (Some (mkDims (of_Z 800) (of_Z 600)))
   /\ "img_1" <> "__proto__"
   /\ Forall (fun o => forall img, o = Some img -> id img <> "img_1")
        [Some (mkImageData "img_2" "data:" None)])
  /\ calculateImageHeights [image_node "img_0"; image_node "img_1"]
       (loaded_dimensions
          (loadImages
             ([Some (mkImageData "img_0" "data:" None); None]
              ++ loadImageBytes "img_1" png_800x600 "image/png" "data:"
              :: [Some (mkImageData "img_2" "data:" None)])))
       !! "img_1"
     = Some (add (add (calculateImageHeight (mkDims (of_Z 800) (of_Z 600)))
                      (of_Z 10)) (of_Z 10)).
Proof.
  assert (Hafter : Forall (fun o => forall img, o = Some img ->
                                                id img <> "img_1")
                     [Some (mkImageData "img_2" "data:" None)]).
  { constructor; [|constructor]. intros img [= <-]. discriminate. }
  assert (Hne : "img_1" <> "__proto__") by discriminate.
  split; [split; [reflexivity|split; [exact Hne|exact Hafter]]|].
  destruct (parsed_dimensions_reach_fit_rule png_800x600 "image/png" "img_1"
              "data:" (mkDims (of_Z 800) (of_Z 600))
              [Some (mkImageData "img_0" "data:" None); None]
              [Some (mkImageData "img_2" "data:" None)]
              [image_node "img_0"; image_node "img_1"]
              eq_refl Hne Hafter) as (_ & _ & _ & _ & H).
  apply H. reflexivity.
Defined.

(** C7 (as stated) fails: a PNG header that declares the height 0 is
    parsed into a record with [height = 0], the record is stored, and the
    fit rule is evaluated on it: the division [800 / 0] gives [Infinity],
    the rendered height is 0 and the image gets the footprint
    [0 + 10 + 10]. *)
Lemma zero_height_reaches_fit_rule :
  getImageDimensions png_800x0 "image/png"
  = Return (Some (mkDims (of_Z 800) (of_Z 0)))
  /\ loaded_dimensions
       (loadImages [loadImageBytes "img_0" png_800x0 "image/png" "data:"])
     = {["img_0" := mkDims (of_Z 800) (of_Z 0)]}
  /\ div (width (mkDims (of_Z 800) (of_Z 0)))
         (height (mkDims (of_Z 800) (of_Z 0))) = PosInf
  /\ calculateImageHeight (mkDims (of_Z 800) (of_Z 0)) = of_Z 0
  /\ calculateImageHeights [image_node "img_0"]
       (loaded_dimensions
          (loadImages [loadImageBytes "img_0" png_800x0 "image/png" "data:"]))
       !! "img_0"
     = Some (of_Z 20).
Proof.
  split; [reflexivity|]. split; [reflexivity|]. split; [reflexivity|].
  split; [number_eq|].
  change (loaded_dimensions
            (loadImages [loadImageBytes "img_0" png_800x0 "image/png" "data:"]))
    with ({["img_0" := mkDims (of_Z 800) (of_Z 0)]}
            : gmap string ImageDimensions).
  rewrite (calculateImageHeights_lookup_own _ _ "img_0"
             (mkDims (of_Z 800) (of_Z 0)));
    [|reflexivity|discriminate].
  change (existsb (visits "img_0") [image_node "img_0"]) with true.
  cbv iota. apply (f_equal Some). number_eq.
Qed.

(** ** The renderer *)

Example renderTokens_sample (inline : list Token -> RenderContext -> InlineContent) :
  flat_map imageNodes (renderTokens inline sample_tokens sample_context).1
  = [("img_0"%string, Some (of_Z 500, of_Z 400));
     ("img_1"%string, Some (of_Z 500, of_Z 400))].
Proof. reflexivity. Qed.

Section RendererFacts.

Variable inline : list Token -> RenderContext -> InlineContent.

Lemma flat_map_nil {A B : Type} (f : A -> list B) (l : list A) :
  Forall (fun x => f x = []) l -> flat_map f l = [].
Proof.
  induction 1 as [|x l Hx _ IH]; [reflexivity|].
  cbn [flat_map]. now rewrite Hx, IH.
Qed.

Lemma flat_map_flat_map {A B C : Type} (f : B -> list C) (g : A -> list B)
    (l : list A) :
  flat_map f (flat_map g l) = flat_map (fun x => flat_map f (g x)) l.
Proof.
  induction l as [|x l IH]; [reflexivity|].
  cbn [flat_map]. now rewrite flat_map_app, IH.
Qed.

Lemma addCheckbox_imageNodes (checked : bool) (content : list Content) :
  flat_map imageNodes (addCheckbox checked content)
  = flat_map imageNodes content.
Proof.
  destruct content as [|[s|[t|] image fit margin stack columns ul ol table
                          canvas] content]; reflexivity.
Qed.

(** A rendered list holds no image node. *)
Lemma renderList_imageNodes (token : Token) (context : RenderContext) :
  imageNodes (renderList inline token context) = [].
Proof.
  induction token as [| |ordered items IH| | | | | | |] using Token_tree_ind;
    try reflexivity.
  cbn [renderList].
  match goal with
  | |- imageNodes (if ordered then CObj _ _ _ _ _ _ _ (Some ?l) _ _
                   else CObj _ _ _ _ _ _ (Some ?l) _ _ _) = [] =>
      assert (Hitems : flat_map imageNodes l = [])
  end.
  { apply flat_map_nil. apply Forall_map.
    eapply Forall_impl; [exact IH|].
    intros [[task checked] item_tokens] Hitem. cbn [snd] in Hitem.
    cbv beta iota zeta.
    match goal with
    | |- imageNodes (match (if task then addCheckbox checked ?c else ?c) with
                     | _ => _ end) = [] =>
        assert (Hc : flat_map imageNodes c = [])
    end.
    { destruct item_tokens as [ts|]; [|reflexivity].
      cbn [OForall] in Hitem. rewrite flat_map_flat_map. apply flat_map_nil.
      eapply Forall_impl; [exact Hitem|].
      intros t Ht. cbv beta.
      destruct (isParagraphToken t); [reflexivity|].
      destruct (isListToken t); [cbn [flat_map]; now rewrite Ht|].
      destruct (tokens_of t); reflexivity. }
    match goal with
    | |- imageNodes (match ?c' with | _ => _ end) = [] =>
        assert (Hc' : flat_map imageNodes c' = [])
    end.
    { destruct task; [rewrite addCheckbox_imageNodes|]; exact Hc. }
    match goal with
    | |- imageNodes (match ?c' with | _ => _ end) = [] =>
        destruct c' as [|c1 [|c2 rest]]
    end.
    - reflexivity.
    - cbn [flat_map] in Hc'. now rewrite app_nil_r in Hc'.
    - cbn [imageNodes]. rewrite Hc'. reflexivity. }
  destruct ordered; cbn [imageNodes]; rewrite Hitems; reflexivity.
Qed.

Lemma renderImage_imageNodes (href text : string) (context : RenderContext) :
  imageNodes (renderImage href text context).1
  = [(("img_" +:+ pretty (length (images context)))%string,
      Some (IMAGE_FIT_WIDTH, IMAGE_FIT_HEIGHT))].
Proof. reflexivity. Qed.

Lemma renderTable_imageNodes header rows (context : RenderContext) :
  imageNodes (renderTable inline header rows context) = [].
Proof.
  unfold renderTable. cbn [imageNodes flat_map app].
  assert (Hrow : forall r : list (option (list Token)),
            flat_map imageNodes
              (map (fun tokens =>
                      text_obj (inline (default [] tokens) context)
                        (Some (table_cellPadding, table_cellPadding,
                               table_cellPadding, table_cellPadding))) r)
            = []).
  { intros r. apply flat_map_nil, Forall_map, Forall_forall.
    intros; reflexivity. }
  rewrite Hrow. cbn [app].
  apply flat_map_nil, Forall_map, Forall_forall. intros r _. apply Hrow.
Qed.

Lemma renderCodeBlock_imageNodes lang text :
  imageNodes (renderCodeBlock lang text) = [].
Proof.
  destruct lang as [l|]; [|reflexivity].
  unfold renderCodeBlock. destruct (truthy_string l); reflexivity.
Qed.

Lemma blockquoteFrame_imageNodes (content : list Content) :
  imageNodes (blockquoteFrame content) = flat_map imageNodes content.
Proof.
  unfold blockquoteFrame. cbn [imageNodes flat_map app].
  now rewrite !app_nil_r.
Qed.

Lemma fold_pushRendered_fits (tokens : list Token) :
  Forall (fun t => forall context c,
            (renderBlockToken inline t context).1 = Some c ->
            Forall fits_box (imageNodes c)) tokens ->
  forall acc,
    Forall fits_box (flat_map imageNodes acc.1) ->
    Forall fits_box
      (flat_map imageNodes
         (fold_left
            (fun acc t => pushRendered acc (renderBlockToken inline t acc.2))
            tokens acc).1).
Proof.
  induction 1 as [|t tokens Ht _ IH]; intros acc Hacc; [exact Hacc|].
  cbn [fold_left]. apply IH. unfold pushRendered.
  destruct (renderBlockToken inline t acc.2) as [[c|] context'] eqn:E;
    cbn [fst snd]; [|exact Hacc].
  rewrite flat_map_app. apply Forall_app. split; [exact Hacc|].
  cbn [flat_map]. rewrite app_nil_r. apply (Ht acc.2). now rewrite E.
Qed.

Lemma renderBlockToken_fits (token : Token) :
  forall context c,
    (renderBlockToken inline token context).1 = Some c ->
    Forall fits_box (imageNodes c).
Proof.
  induction token as [depth tokens|tokens|ordered items _|lang text
                      |header rows|tokens IH| | |href text tokens|tokens]
    using Token_tree_ind; intros context c;
    [| |intros H;
        assert (Hc : renderList inline (ListToken ordered items) context = c)
          by (injection H; exact (fun E => E));
        rewrite <- Hc, renderList_imageNodes; constructor
     | | | | | | |];
    cbn [renderBlockToken fst].
  - intros [= <-]. constructor.
  - intros [= <-]. unfold renderParagraph.
    destruct (default [] tokens) as [|[] [|]]; repeat constructor.
  - intros [= <-]. rewrite renderCodeBlock_imageNodes. constructor.
  - intros [= <-]. rewrite renderTable_imageNodes. constructor.
  - intros [= <-]. rewrite blockquoteFrame_imageNodes.
    destruct tokens as [ts|]; [|constructor].
    apply fold_pushRendered_fits; [exact IH|constructor].
  - intros [= <-]. constructor.
  - discriminate.
  - intros [= <-]. repeat constructor.
  - destruct tokens; [|discriminate]. intros [= <-]. constructor.
Qed.

Lemma renderTokens_fits (tokens : list Token) (context : RenderContext) :
  Forall fits_box
    (flat_map imageNodes (renderTokens inline tokens context).1).
Proof.
  unfold renderTokens. apply fold_pushRendered_fits; [|constructor].
  apply Forall_forall. intros t _. apply renderBlockToken_fits.
Qed.

End RendererFacts.

(** C9. The fit box of the image extent calculator, [(IMAGE_FIT_WIDTH,
    IMAGE_FIT_HEIGHT) = (500, 400)], is the [fit] that [renderImage]
    attaches to the image node it builds, and every image node of every
    content tree that the renderer produces carries it. *)
Theorem fit_box_matches_renderer
    (inline : list Token -> RenderContext -> InlineContent)
    (tokens : list Token) (context : RenderContext) (href text : string) :
  (IMAGE_FIT_WIDTH, IMAGE_FIT_HEIGHT) = (of_Z 500, of_Z 400)
  /\ imageNodes (renderImage href text context).1
     = [(("img_" +:+ pretty (length (images context)))%string,
         Some (IMAGE_FIT_WIDTH, IMAGE_FIT_HEIGHT))]
  /\ Forall (fun node => node.2 = Some (IMAGE_FIT_WIDTH, IMAGE_FIT_HEIGHT))
       (flat_map imageNodes (renderTokens inline tokens context).1).
Proof.
  split; [reflexivity|]. split; [reflexivity|].
  apply renderTokens_fits.
Qed.

(** ** Image nodes of rendered trees are reachable through [stack] and
    [columns] *)

Lemma flat_map_nil_inv {A B : Type} (f : A -> list B) (l : list A) :
  flat_map f l = [] -> Forall (fun x => f x = []) l.
Proof.
  induction l as [|x l IH]; cbn [flat_map]; intros H; constructor.
  - now apply app_eq_nil in H.
  - apply IH. now apply app_eq_nil in H.
Qed.

Lemma existsb_false {A : Type} (f : A -> bool) (l : list A) :
  Forall (fun x => f x = false) l -> existsb f l = false.
Proof.
  induction 1 as [|x l Hx _ IH]; [reflexivity|].
  cbn [existsb]. now rewrite Hx, IH.
Qed.

Lemma imageNodes_nil_occurs imageId (item : Content) :
  imageNodes item = [] -> occurs imageId item = false.
Proof.
  induction item as [s|text image fit margin stack columns ul ol table canvas
                       Hstack Hcolumns Hul Hol Htable] using Content_tree_ind;
    [reflexivity|].
  cbn [imageNodes occurs]. intros H.
  assert (Hl : forall o,
             OForall (fun item => imageNodes item = [] ->
                                  occurs imageId item = false) o ->
             match o with
             | Some l => flat_map imageNodes l
             | None => []
             end = [] ->
             within (occurs imageId) o = false).
  { intros [l|] HF Hnil; [|reflexivity]. cbn [within OForall] in *.
    apply existsb_false. apply flat_map_nil_inv in Hnil.
    rewrite Forall_forall in *. auto. }
  apply app_eq_nil in H as [Himg H].
  apply app_eq_nil in H as [H1 H].
  apply app_eq_nil in H as [H2 H].
  apply app_eq_nil in H as [H3 H].
  apply app_eq_nil in H as [H4 H5].
  rewrite (Hl _ Hstack H1), (Hl _ Hcolumns H2), (Hl _ Hul H3), (Hl _ Hol H4).
  destruct image; [discriminate|]. cbn [image_is orb].
  destruct table as [rows|]; [|reflexivity]. cbn [within OForall] in *.
  apply existsb_false. apply flat_map_nil_inv in H5.
  rewrite Forall_forall in *. intros r Hr.
  apply existsb_false. pose proof (flat_map_nil_inv _ _ (H5 r Hr)) as Hrow.
  pose proof (Htable r Hr) as Hrow'.
  rewrite Forall_forall in *. auto.
Qed.

Section RenderedTrees.

Variable inline : list Token -> RenderContext -> InlineContent.
Variable imageId : string.

Lemma all_visited_nil (c : Content) : imageNodes c = [] -> all_visited imageId c.
Proof.
  intros H. unfold all_visited.
  pose proof (imageNodes_nil_occurs imageId c H) as Ho. rewrite Ho.
  destruct (visits imageId c) eqn:E; [|reflexivity].
  apply visits_occurs in E. congruence.
Qed.

Lemma fold_pushRendered_visited (tokens : list Token) :
  Forall (fun t => forall context c,
            (renderBlockToken inline t context).1 = Some c ->
            all_visited imageId c) tokens ->
  forall acc,
    Forall (all_visited imageId) acc.1 ->
    Forall (all_visited imageId)
      (fold_left
         (fun acc t => pushRendered acc (renderBlockToken inline t acc.2))
         tokens acc).1.
Proof.
  induction 1 as [|t tokens Ht _ IH]; intros acc Hacc; [exact Hacc|].
  cbn [fold_left]. apply IH. unfold pushRendered.
  destruct (renderBlockToken inline t acc.2) as [[c|] context'] eqn:E;
    cbn [fst snd]; [|exact Hacc].
  apply Forall_app. split; [exact Hacc|].
  constructor; [|constructor]. apply (Ht acc.2). now rewrite E.
Qed.

Lemma existsb_all_visited (content : list Content) :
  Forall (all_visited imageId) content ->
  existsb (occurs imageId) content = existsb (visits imageId) content.
Proof.
  induction 1 as [|c content Hc _ IH]; [reflexivity|].
  cbn [existsb]. now rewrite Hc, IH.
Qed.

Lemma renderBlockToken_visited (token : Token) :
  forall context c,
    (renderBlockToken inline token context).1 = Some c -> all_visited imageId c.
Proof.
  induction token as [depth tokens|tokens|ordered items _|lang text
                      |header rows|tokens IH| | |href text tokens|tokens]
    using Token_tree_ind; intros context c;
    [| |intros H;
        assert (Hc : renderList inline (ListToken ordered items) context = c)
          by (injection H; exact (fun E => E));
        rewrite <- Hc; apply all_visited_nil, renderList_imageNodes
     | | | | | | |];
    cbn [renderBlockToken fst].
  - intros [= <-]. now apply all_visited_nil.
  - intros [= <-]. unfold renderParagraph.
    destruct (default [] tokens) as [|[] [|]];
      first [now apply all_visited_nil | unfold all_visited; cbn;
             now rewrite !orb_false_r].
  - intros [= <-]. apply all_visited_nil, renderCodeBlock_imageNodes.
  - intros [= <-]. apply all_visited_nil, renderTable_imageNodes.
  - intros [= <-]. unfold all_visited, blockquoteFrame.
    cbn [occurs visits within existsb image_is orb].
    rewrite !orb_false_r. apply existsb_all_visited.
    destruct tokens as [ts|]; [|constructor].
    apply fold_pushRendered_visited; [exact IH|constructor].
  - intros [= <-]. now apply all_visited_nil.
  - discriminate.
  - intros [= <-]. unfold all_visited. cbn. now rewrite !orb_false_r.
  - destruct tokens; [|discriminate]. intros [= <-]. now apply all_visited_nil.
Qed.

(** In a tree that [renderTokens] builds, an image id occurs exactly when
    the traversal of [calculateImageHeights] visits it: image nodes are at
    top level or inside the [stack]/[columns] frame of a block quote,
    never inside a list or a table. *)
Lemma rendered_images_are_visited (tokens : list Token)
    (context : RenderContext) :
  existsb (occurs imageId) (renderTokens inline tokens context).1
  = existsb (visits imageId) (renderTokens inline tokens context).1.
Proof.
  apply existsb_all_visited. unfold renderTokens.
  apply fold_pushRendered_visited; [|constructor].
  apply Forall_forall. intros t _. apply renderBlockToken_visited.
Qed.

End RenderedTrees.

(** * Further properties of the modelled code *)

(** ** The rendered height of an image *)

Lemma qc_pos (z : Z) : 0 < z -> (0 < qc z)%Qc.
Proof.
  intros H. unfold Qclt, qc, Q2Qc. cbn [this]. rewrite !Qred_correct.
  unfold Qlt. simpl. lia.
Qed.

Lemma qc_ratio (w : Z) (p : positive) :
  (this (qc w / qc (Zpos p)) == w # p)%Q.
Proof.
  unfold Qcdiv, Qcmult, Qcinv, qc, Q2Qc. cbn [this]. rewrite !Qred_correct.
  unfold Qeq. simpl. lia.
Qed.

Lemma fitAspect_value : (this (qc 500 / qc 400) == 5 # 4)%Q.
Proof. reflexivity. Qed.

(** X1. For pixel dimensions that are positive integers below 2^32 the
    rendered height is positive and at most 400.  The image is
    height-constrained when [4 w <= 5 h], and is then never rendered
    taller than its pixel height.  Otherwise it is width-constrained, and
    then an image of fewer than 500 pixel columns is rendered taller than
    its pixel height (it is scaled up), one of more than 500 columns is
    rendered smaller. *)
Theorem rendered_height_scaling (w h : Z) :
  0 < w < 2 ^ 32 -> 0 < h < 2 ^ 32 ->
  exists q,
    calculateImageHeight (mkDims (of_Z w) (of_Z h)) = Fin q
    /\ (0 < q)%Qc /\ (q <= qc 400)%Qc
    /\ (4 * w <= 5 * h -> q = Qcmin (qc h) (qc 400) /\ (q <= qc h)%Qc)
    /\ (5 * h < 4 * w ->
        (w < 500 -> (qc h < q)%Qc) /\ (500 < w -> (q < qc h)%Qc)).
Proof.
  intros Hw Hh.
  pose proof (qc_pos w (proj1 Hw)) as Hw'.
  pose proof (qc_pos h (proj1 Hh)) as Hh'.
  unfold of_Z. rewrite (calculateImageHeight_positive (qc w) (qc h) Hw' Hh').
  destruct h as [|p|p]; try lia. destruct w as [|pw|pw]; try lia.
  pose proof (qc_ratio (Zpos pw) p) as Hratio.
  pose proof (Qcdiv_pos _ _ Hw' Hh') as Hr.
  destruct (Qcltb (qc 500 / qc 400) (qc (Z.pos pw) / qc (Z.pos p))) eqn:E.
  - apply Qcltb_lt in E. unfold Qclt in E.
    rewrite fitAspect_value, Hratio in E. unfold Qlt in E. simpl in E.
    assert (Hq : (this (qc 500 / (qc (Z.pos pw) / qc (Z.pos p)))
                  == 500 * Zpos p # pw)%Q).
    { unfold Qcdiv at 1. unfold Qcmult, Qcinv, qc at 1, Q2Qc. cbn [this].
      rewrite !Qred_correct, Hratio. unfold Qeq. simpl. lia. }
    eexists. split; [reflexivity|].
    split; [apply Qcdiv_pos; [reflexivity|exact Hr]|].
    split; [|split; [lia|]].
    + unfold Qcle. rewrite Hq. unfold qc, Q2Qc. cbn [this].
      rewrite Qred_correct. unfold Qle. simpl. lia.
    + intros _. split; intros Hcols.
      * unfold Qclt. rewrite Hq. unfold qc, Q2Qc. cbn [this].
        rewrite Qred_correct. unfold Qlt. simpl. nia.
      * unfold Qclt. rewrite Hq. unfold qc, Q2Qc. cbn [this].
        rewrite Qred_correct. unfold Qlt. simpl. nia.
  - apply Qcltb_ge in E. unfold Qcle in E.
    rewrite fitAspect_value, Hratio in E. unfold Qle in E. simpl in E.
    exists (Qcmin (qc (Z.pos p)) (qc 400)). split; [reflexivity|].
    assert (Hq : (0 < Qcmin (qc (Z.pos p)) (qc 400))%Qc
                 /\ (Qcmin (qc (Z.pos p)) (qc 400) <= qc 400)%Qc
                 /\ (Qcmin (qc (Z.pos p)) (qc 400) <= qc (Z.pos p))%Qc).
    { unfold Qcmin. destruct (Qcltb (qc 400) (qc (Z.pos p))) eqn:E'.
      - apply Qcltb_lt in E'. split; [reflexivity|].
        split; [apply Qcle_refl|now apply Qclt_le_weak].
      - apply Qcltb_ge in E'. split; [exact Hh'|]. split; [exact E'|].
        apply Qcle_refl. }
    destruct Hq as (Hq1 & Hq2 & Hq3).
    split; [exact Hq1|]. split; [exact Hq2|]. split; [auto|lia].
Qed.

Lemma rendered_height_scaling_witness :
  (0 < 100 < 2 ^ 32 /\ 0 < 10 < 2 ^ 32)
  /\ exists q,
       calculateImageHeight (mkDims (of_Z 100) (of_Z 10)) = Fin q
       /\ (qc 10 < q)%Qc.
Proof.
  split; [lia|].
  destruct (rendered_height_scaling 100 10) as (q & H1 & _ & _ & _ & H5);
    [lia|lia|].
  exists q. split; [exact H1|]. apply H5; lia.
Defined.

(** ** Footprints computed from parsed dimensions *)

Lemma footprint_bounded (d : ImageDimensions) :
  integer_dimensions d ->
  exists q, footprint d = Fin q /\ (qc 20 <= q <= qc 420)%Qc.
Proof.
  intros (w & h & -> & Hw & Hh).
  destruct (calculateImageHeight_bounded (qc w) (qc h)) as (q & Hq & H0 & H400);
    [apply of_Z_nonneg; lia|apply of_Z_nonneg; lia|].
  unfold footprint, of_Z at 3 4. fold (of_Z w) (of_Z h) in Hq |- *.
  unfold of_Z in Hq |- *. rewrite Hq. cbn [add].
  eexists. split; [reflexivity|]. split; qc_lra.
Qed.

(** X2. When every record of the dimension map holds unsigned integers, as
    the records of the header parser do, and no visited image id is the
    name of a member of [Object.prototype] (the ids of the renderer,
    [img_0], [img_1], ..., are not), every entry of the footprint map is a
    finite number between 20 and 420, and the total footprint is finite,
    not negative, and positive as soon as the map has an entry (so that
    one of the two correcting branches is taken). *)
Theorem footprints_bounded (content : list Content)
    (imageDimensions : gmap string ImageDimensions) :
  (forall imageId d,
      imageDimensions !! imageId = Some d -> integer_dimensions d) ->
  (forall imageId,
      existsb (visits imageId) content = true -> inherited imageId = false) ->
  let imageHeights := calculateImageHeights content imageDimensions in
  (forall imageId v,
      imageHeights !! imageId = Some v ->
      exists q, v = Fin q /\ (qc 20 <= q <= qc 420)%Qc)
  /\ (exists t, totalImageHeight imageHeights = Fin t /\ (0 <= t)%Qc)
  /\ (imageHeights <> ∅ -> gtb (totalImageHeight imageHeights) (of_Z 0) = true).
Proof.
  intros Hdims Hplain imageHeights.
  assert (Hentries : forall imageId v,
             imageHeights !! imageId = Some v ->
             exists q, v = Fin q /\ (qc 20 <= q <= qc 420)%Qc).
  { intros imageId v. subst imageHeights.
    rewrite calculateImageHeights_lookup.
    destruct (String.eqb imageId "__proto__"); [discriminate|].
    destruct (existsb (visits imageId) content) eqn:Ev;
      [|destruct (dimensionsOf _); discriminate].
    unfold getProperty.
    destruct (imageDimensions !! imageId) as [d|] eqn:Ed.
    - cbn [dimensionsOf]. intros [= <-]. apply footprint_bounded. eauto.
    - rewrite (Hplain imageId Ev). discriminate. }
  split; [exact Hentries|].
  clearbody imageHeights. revert Hentries. unfold totalImageHeight.
  apply (map_fold_weak_ind
           (fun r m =>
              (forall imageId v, m !! imageId = Some v ->
                 exists q, v = Fin q /\ (qc 20 <= q <= qc 420)%Qc) ->
              (exists t, r = Fin t /\ (0 <= t)%Qc)
              /\ (m <> ∅ -> gtb r (of_Z 0) = true))).
  - intros _. split; [exists (qc 0); split; [reflexivity|discriminate]|].
    congruence.
  - intros i x m r Hnone IH Hall.
    destruct IH as ((t & -> & Ht) & _).
    { intros j v Hj. apply (Hall j v).
      rewrite lookup_insert_ne; [exact Hj|]. intros ->. congruence. }
    destruct (Hall i x) as (q & -> & Hq1 & Hq2); [apply lookup_insert_eq|].
    cbn [add]. split.
    + eexists. split; [reflexivity|]. qc_lra.
    + intros _. unfold gtb, of_Z. cbn [ltb]. apply Qcltb_lt. qc_lra.
Qed.

Lemma footprints_bounded_witness :
  ((forall imageId d,
       listed_image_dimensions !! imageId = Some d -> integer_dimensions d)
   /\ (forall imageId,
         existsb (visits imageId) quoted_image_content = true ->
         inherited imageId = false))
  /\ gtb (totalImageHeight
            (calculateImageHeights quoted_image_content
               listed_image_dimensions)) (of_Z 0) = true.
Proof.
  assert (H : forall imageId d,
             listed_image_dimensions !! imageId = Some d ->
             integer_dimensions d).
  { intros imageId d. unfold listed_image_dimensions.
    intros [<- <-]%lookup_singleton_Some.
    exists 1000, 500. split; [reflexivity|]. lia. }
  assert (Hplain : forall imageId,
             existsb (visits imageId) quoted_image_content = true ->
             inherited imageId = false).
  { intros imageId Hv.
    unfold quoted_image_content, text_node, image_node in Hv.
    cbn [existsb visits image_is within orb] in Hv.
    rewrite ?orb_false_r in Hv. apply String.eqb_eq in Hv. now subst. }
  split; [split; [exact H|exact Hplain]|].
  destruct (footprints_bounded quoted_image_content listed_image_dimensions
              H Hplain) as (_ & _ & Hpos).
  apply Hpos. intros E.
  apply (f_equal (fun m : gmap string number => m !! "img_0")) in E.
  rewrite calculateImageHeights_lookup in E. discriminate E.
Defined.

(** ** The corrected extent and the recorded image positions *)

Lemma expectedBottomOf_plain (imageHeights : gmap string number)
    (imageId : string) (topPosition : number) :
  inherited imageId = false ->
  expectedBottomOf imageHeights imageId topPosition
  = add topPosition (or_default (imageHeights !! imageId) (of_Z 0)).
Proof.
  intros Hplain. unfold expectedBottomOf, getProperty.
  destruct (imageHeights !! imageId); [reflexivity|]. now rewrite Hplain.
Qed.

Lemma maxExpectedBottom_spec (imageHeights imagePositions : gmap string number) :
  (forall imageId topPosition,
      imagePositions !! imageId = Some topPosition ->
      inherited imageId = false
      /\ add topPosition (or_default (imageHeights !! imageId) (of_Z 0))
         <> NaN) ->
  let meb := maxExpectedBottom imagePositions imageHeights in
  le (of_Z 0) meb
  /\ (forall imageId topPosition,
        imagePositions !! imageId = Some topPosition ->
        le (add topPosition (or_default (imageHeights !! imageId) (of_Z 0)))
           meb)
  /\ (meb = of_Z 0
      \/ exists imageId topPosition,
           imagePositions !! imageId = Some topPosition
           /\ meb = add topPosition
                       (or_default (imageHeights !! imageId) (of_Z 0))).
Proof.
  unfold maxExpectedBottom. cbv zeta.
  apply (map_fold_weak_ind
           (fun r m =>
              (forall imageId topPosition,
                  m !! imageId = Some topPosition ->
                  inherited imageId = false
                  /\ add topPosition
                        (or_default (imageHeights !! imageId) (of_Z 0))
                     <> NaN) ->
              le (of_Z 0) r
              /\ (forall imageId topPosition,
                    m !! imageId = Some topPosition ->
                    le (add topPosition
                          (or_default (imageHeights !! imageId) (of_Z 0))) r)
              /\ (r = of_Z 0
                  \/ exists imageId topPosition,
                       m !! imageId = Some topPosition
                       /\ r = add topPosition
                                 (or_default (imageHeights !! imageId)
                                    (of_Z 0))))).
  - intros _. split; [simpl; apply Qcle_refl|]. split; [|now left].
    intros imageId topPosition. rewrite lookup_empty. discriminate.
  - intros i x m r Hnone IH Hall.
    destruct IH as (H0 & Hm & Hatt).
    { intros j t Hj. apply Hall.
      rewrite lookup_insert_ne; [exact Hj|]. intros ->. congruence. }
    destruct (Hall i x (lookup_insert_eq _ _ _)) as (Hplain & Hb).
    rewrite (expectedBottomOf_plain _ _ _ Hplain).
    apply not_NaN_le in Hb.
    destruct (Math_max_cases r _ (le_refl_r _ _ H0) Hb) as (H1 & H2 & H3).
    split; [eapply le_trans; eassumption|]. split.
    + intros j t. destruct (decide (i = j)) as [<-|Hne].
      * rewrite lookup_insert_eq. intros [= <-]. exact H2.
      * rewrite lookup_insert_ne by exact Hne. intros Hj.
        eapply le_trans; [apply (Hm j t Hj)|exact H1].
    + destruct H3 as [H3|H3]; rewrite H3.
      * destruct Hatt as [Hatt|(j & t & Hj & Hatt)]; [now left|right].
        exists j, t. split; [|exact Hatt].
        rewrite lookup_insert_ne; [exact Hj|]. intros ->. congruence.
      * right. exists i, x. split; [apply lookup_insert_eq|reflexivity].
Qed.

Lemma ltb_false_le (x y : number) :
  le x x -> le y y -> ltb x y = false -> le y x.
Proof.
  destruct x as [a| | |], y as [b| | |]; simpl; auto; try discriminate.
  intros _ _ H. now apply Qcltb_ge.
Qed.

Lemma add_zero (y : Qc) : add (Fin y) (of_Z 0) = Fin y.
Proof. unfold of_Z. cbn [add]. apply Fin_canon. qc_lra. Qed.

(** X3. When at least one image top offset was recorded and the total
    footprint is positive, the correction is the amount by which the
    largest expected bottom exceeds the measured [maxY], and 0 when it
    does not.  The largest expected bottom is the maximum of 0 and the
    expected bottoms [top + (footprint || 0)] of the recorded images: it
    bounds each of them, and it is 0 or one of them.  When [maxY] already
    reaches it, the corrected extent is [maxY] itself and no recorded
    image is expected to end below it.  The recorded ids are assumed not
    to be names of members of [Object.prototype], and the expected bottoms
    not to be [NaN]. *)
Theorem reconciliation_takes_largest_bottom (measurement : MeasurementResult)
    (imageHeights : gmap string number) :
  measuredImageHeights measurement <> ∅ ->
  gtb (totalImageHeight imageHeights) (of_Z 0) = true ->
  (forall imageId topPosition,
      measuredImageHeights measurement !! imageId = Some topPosition ->
      inherited imageId = false
      /\ add topPosition (or_default (imageHeights !! imageId) (of_Z 0))
         <> NaN) ->
  let c := correctExtent measurement imageHeights in
  let meb :=
    maxExpectedBottom (measuredImageHeights measurement) imageHeights in
  let expectedBottom (imageId : string) (topPosition : number) : number :=
    add topPosition (or_default (imageHeights !! imageId) (of_Z 0)) in
  le (of_Z 0) meb
  /\ (forall imageId topPosition,
        measuredImageHeights measurement !! imageId = Some topPosition ->
        le (expectedBottom imageId topPosition) meb)
  /\ (meb = of_Z 0
      \/ exists imageId topPosition,
           measuredImageHeights measurement !! imageId = Some topPosition
           /\ meb = expectedBottom imageId topPosition)
  /\ imageHeightCorrection c
     = (if ltb (maxY measurement) meb then sub meb (maxY measurement)
        else of_Z 0)
  /\ contentHeight c = add (maxY measurement) (imageHeightCorrection c)
  /\ (is_finite (maxY measurement) -> ltb (maxY measurement) meb = false ->
      contentHeight c = maxY measurement
      /\ forall imageId topPosition,
           measuredImageHeights measurement !! imageId = Some topPosition ->
           le (expectedBottom imageId topPosition) (contentHeight c)).
Proof.
  intros Hne Htotal Hall c meb expectedBottom.
  destruct (maxExpectedBottom_spec imageHeights _ Hall) as (H0 & Hm & Hatt).
  fold meb in H0, Hm, Hatt.
  assert (Hc : c = mkCorrection
                     (add (maxY measurement)
                        (if ltb (maxY measurement) meb
                         then sub meb (maxY measurement) else of_Z 0))
                     (if ltb (maxY measurement) meb
                      then sub meb (maxY measurement) else of_Z 0)).
  { subst c. unfold correctExtent. rewrite Htotal.
    rewrite (bool_decide_eq_false_2 _ Hne). reflexivity. }
  split; [exact H0|]. split; [exact Hm|]. split; [exact Hatt|].
  rewrite Hc. cbn [contentHeight imageHeightCorrection].
  split; [reflexivity|]. split; [reflexivity|].
  intros Hfin Hlt. rewrite Hlt.
  destruct (maxY measurement) as [y| | |] eqn:Hy; try contradiction.
  rewrite add_zero. split; [reflexivity|].
  intros imageId topPosition Hpos.
  eapply le_trans; [apply (Hm imageId topPosition Hpos)|].
  apply ltb_false_le; [apply Qcle_refl|exact (le_refl_r _ _ H0)|exact Hlt].
Qed.

Lemma reconciliation_takes_largest_bottom_witness :
  ((({["img_0" := of_Z 200]} : gmap string number) <> ∅
    /\ gtb (totalImageHeight {["img_0" := of_Z 270]}) (of_Z 0) = true)
   /\ (forall imageId topPosition,
         ({["img_0" := of_Z 200]} : gmap string number) !! imageId
         = Some topPosition ->
         inherited imageId = false
         /\ add topPosition
               (or_default
                  (({["img_0" := of_Z 270]} : gmap string number) !! imageId)
                  (of_Z 0))
            <> NaN))
  /\ imageHeightCorrection
       (correctExtent (mkMeasurement (of_Z 300) {["img_0" := of_Z 200]})
          {["img_0" := of_Z 270]})
     = sub (maxExpectedBottom {["img_0" := of_Z 200]} {["img_0" := of_Z 270]})
           (of_Z 300).
Proof.
  assert (Hne : ({["img_0" := of_Z 200]} : gmap string number) <> ∅).
  { intros E.
    apply (f_equal (fun m : gmap string number => m !! "img_0")) in E.
    discriminate E. }
  assert (Hall : forall imageId topPosition,
             ({["img_0" := of_Z 200]} : gmap string number) !! imageId
             = Some topPosition ->
             inherited imageId = false
             /\ add topPosition
                   (or_default
                      (({["img_0" := of_Z 270]} : gmap string number)
                         !! imageId) (of_Z 0))
                <> NaN).
  { intros imageId topPosition [<- <-]%lookup_singleton_Some.
    split; [reflexivity|]. vm_compute. discriminate. }
  assert (Htotal : gtb (totalImageHeight {["img_0" := of_Z 270]}) (of_Z 0)
                   = true) by (vm_compute; reflexivity).
  split; [split; [split; [exact Hne|exact Htotal]|exact Hall]|].
  destruct (reconciliation_takes_largest_bottom
              (mkMeasurement (of_Z 300) {["img_0" := of_Z 200]})
              {["img_0" := of_Z 270]} Hne Htotal Hall)
    as (_ & _ & _ & Hcorr & _).
  rewrite Hcorr. reflexivity.
Defined.

(** ** What the measurement driver records *)

Lemma fold_pageBreakBefore_images pageMargins imageId
    (observed : list ObservedNode) :
  forall st,
    st_measuredImageHeights (fold_left (pageBreakBefore pageMargins) observed st)
      !! imageId
    = match lastImageTop imageId observed with
      | Some t => Some t
      | None => st_measuredImageHeights st !! imageId
      end.
Proof.
  induction observed as [|currentNode observed IH]; intros st; [reflexivity|].
  cbn [fold_left lastImageTop]. rewrite IH.
  destruct (lastImageTop imageId observed); [reflexivity|].
  unfold pageBreakBefore, recordsImage, recordedTop.
  cbn [st_measuredImageHeights].
  destruct (node_image currentNode) as [image|]; [|reflexivity].
  destruct (truthy_string image); [|reflexivity]. cbn [andb].
  rewrite setProperty_lookup.
  destruct (String.eqb_spec image imageId) as [->|Hne].
  - rewrite andb_true_r. cbn [andb].
    now destruct (String.eqb imageId "__proto__").
  - rewrite andb_false_r. reflexivity.
Qed.

Lemma lastImageTop_never (imageId : string) (observed : list ObservedNode) :
  imageId = "" \/ imageId = "__proto__" ->
  lastImageTop imageId observed = None.
Proof.
  intros Hid.
  induction observed as [|currentNode observed IH]; [reflexivity|].
  cbn [lastImageTop]. rewrite IH. unfold recordsImage.
  destruct (node_image currentNode) as [image|]; [|reflexivity].
  destruct (String.eqb_spec image imageId) as [->|Hne];
    [|now rewrite andb_false_r].
  now destruct Hid as [->| ->].
Qed.

(** X4. The measurement result maps an image id to the top offset of the
    last observed node that carries this id (0 when that node has no start
    position or its top offset is 0 or [NaN]): observing one more node
    overwrites the entry of its id and leaves the other entries alone.  An
    id that no node carries has no entry.  Two ids are never recorded,
    whatever the nodes: the empty id, which is falsy, and [__proto__],
    because the assignment of a number to this key of a plain object is
    ignored. *)
Theorem measured_positions_last_wins (pageMargins : Margin)
    (observed : list ObservedNode) (imageId : string)
    (currentNode : ObservedNode) :
  measuredImageHeights (measureContentHeight observed pageMargins) !! imageId
  = lastImageTop imageId observed
  /\ measuredImageHeights (measureContentHeight observed pageMargins) !! ""
     = None
  /\ measuredImageHeights (measureContentHeight observed pageMargins)
       !! "__proto__"
     = None
  /\ measuredImageHeights
       (measureContentHeight (observed ++ [currentNode]) pageMargins)
       !! imageId
     = (if match node_image currentNode with
           | Some image =>
               truthy_string image && negb (String.eqb image "__proto__")
               && String.eqb image imageId
           | None => false
           end
        then Some (or_default (top <$> startPosition currentNode) (of_Z 0))
        else measuredImageHeights (measureContentHeight observed pageMargins)
               !! imageId).
Proof.
  assert (H : forall obs id,
             measuredImageHeights (measureContentHeight obs pageMargins) !! id
             = lastImageTop id obs).
  { intros obs id. unfold measureContentHeight.
    cbn [measuredImageHeights]. rewrite fold_pageBreakBefore_images.
    cbn [st_measuredImageHeights]. rewrite lookup_empty.
    now destruct (lastImageTop id obs). }
  split; [apply H|].
  split; [rewrite H; apply lastImageTop_never; now left|].
  split; [rewrite H; apply lastImageTop_never; now right|].
  rewrite !H. clear H.
  change (match node_image currentNode with
          | Some image =>
              truthy_string image && negb (String.eqb image "__proto__")
              && String.eqb image imageId
          | None => false
          end) with (recordsImage imageId currentNode).
  change (or_default (top <$> startPosition currentNode) (of_Z 0))
    with (recordedTop currentNode).
  induction observed as [|n observed IH].
  - cbn [app lastImageTop]. reflexivity.
  - cbn [app lastImageTop]. rewrite IH.
    destruct (recordsImage imageId currentNode); [reflexivity|].
    reflexivity.
Qed.

(** X5. The measured [maxY] is never negative and never decreases when
    more nodes are observed, provided no bottom edge is [NaN]. *)
Theorem measured_maxY_monotone (pageMargins : Margin)
    (observed more : list ObservedNode) :
  Forall (fun e => le e e) (bottomEdges pageMargins (observed ++ more)) ->
  le (of_Z 0) (maxY (measureContentHeight observed pageMargins))
  /\ le (maxY (measureContentHeight observed pageMargins))
        (maxY (measureContentHeight (observed ++ more) pageMargins)).
Proof.
  unfold measureContentHeight, bottomEdges. cbn [maxY].
  rewrite !fold_pageBreakBefore_maxY. cbn [st_maxY].
  unfold bottomEdges. rewrite omap_app, fold_left_app.
  intros [H1 H2]%Forall_app.
  assert (H0 : le (of_Z 0) (of_Z 0)) by (simpl; apply Qcle_refl).
  destruct (fold_Math_max_spec _ H1 (of_Z 0) H0) as (Ha & _ & _).
  split; [exact Ha|].
  destruct (fold_Math_max_spec _ H2 _ (le_refl_r _ _ Ha)) as (Hb & _ & _).
  exact Hb.
Qed.

Lemma measured_maxY_monotone_witness :
  Forall (fun e => le e e)
    (bottomEdges default_margins (sample_observed ++ sample_observed))
  /\ le (maxY (measureContentHeight sample_observed default_margins))
        (maxY (measureContentHeight (sample_observed ++ sample_observed)
                 default_margins)).
Proof.
  assert (H : Forall (fun e => le e e)
                (bottomEdges default_margins
                   (sample_observed ++ sample_observed)))
    by (repeat constructor; vm_compute; discriminate).
  split; [exact H|].
  apply (measured_maxY_monotone default_margins sample_observed
           sample_observed H).
Defined.

(** ** The loaded images *)

Lemma loadImages_snoc (loadedImages : list (option ImageData))
    (img : option ImageData) :
  loadImages (loadedImages ++ [img])
  = storeImage (loadImages loadedImages) img.
Proof. unfold loadImages. rewrite fold_left_app. reflexivity. Qed.

Lemma In_snoc_Some (P : ImageData -> Prop) (l : list (option ImageData))
    (o : option ImageData) :
  (exists img, In (Some img) (l ++ [o]) /\ P img)
  <-> (exists img, In (Some img) l /\ P img)
      \/ (exists img, o = Some img /\ P img).
Proof.
  split.
  - intros (img & Hi & HP). apply in_app_iff in Hi as [Hi|[Hi|[]]]; eauto.
  - intros [(img & Hi & HP)|(img & -> & HP)]; exists img;
      (split; [apply in_app_iff; simpl; auto|exact HP]).
Qed.

Lemma storeImage_data (acc : LoadedImages) (img : ImageData)
    (imageId : string) :
  loaded_data (storeImage acc (Some img)) !! imageId
  = if String.eqb (id img) imageId && negb (String.eqb imageId "__proto__")
    then Some (data img) else loaded_data acc !! imageId.
Proof.
  unfold storeImage.
  destruct (dimensions img); [destruct (String.eqb (id img) "__proto__")|];
    cbn [loaded_data]; apply setProperty_lookup.
Qed.

Lemma loadImages_data (loadedImages : list (option ImageData))
    (imageId : string) :
  is_Some (loaded_data (loadImages loadedImages) !! imageId)
  <-> imageId <> "__proto__"
      /\ exists img, In (Some img) loadedImages /\ id img = imageId.
Proof.
  induction loadedImages as [|o l IH] using rev_ind.
  - split; [intros [x Hx]; discriminate Hx|intros (_ & img & [] & _)].
  - rewrite loadImages_snoc, (In_snoc_Some (fun i => id i = imageId)).
    destruct o as [img|].
    + rewrite storeImage_data.
      destruct (String.eqb_spec (id img) imageId) as [E|E]; cbn [andb].
      * destruct (String.eqb_spec imageId "__proto__") as [E'|E'];
          cbn [negb].
        { rewrite IH. tauto. }
        split; [|eauto]. intros _. split; [exact E'|].
        right. exists img. auto.
      * rewrite IH. split; [intros [? ?]; auto|].
        intros [? [H|(img0 & [= <-] & H)]]; [auto|contradiction].
    + cbn [storeImage]. rewrite IH.
      split; [intros [? ?]; auto|].
      intros [? [H|(img0 & [=] & _)]]. auto.
Qed.

Lemma loadImages_dimensions (loadedImages : list (option ImageData))
    (imageId : string) (d : ImageDimensions) :
  loaded_dimensions (loadImages loadedImages) !! imageId = Some d ->
  imageId <> "__proto__"
  /\ exists img, In (Some img) loadedImages /\ id img = imageId
                 /\ dimensions img = Some d.
Proof.
  induction loadedImages as [|o l IH] using rev_ind; [discriminate|].
  rewrite loadImages_snoc,
    (In_snoc_Some (fun i => id i = imageId /\ dimensions i = Some d)).
  destruct o as [img|]; cbn [storeImage];
    [|intros H; destruct (IH H); auto].
  destruct (dimensions img) as [d0|] eqn:Ed;
    [|cbn [loaded_dimensions]; intros H; destruct (IH H); auto].
  destruct (String.eqb_spec (id img) "__proto__") as [E|E];
    cbn [loaded_dimensions]; [intros H; destruct (IH H); auto|].
  destruct (decide (id img = imageId)) as [E'|E'].
  - rewrite E', lookup_insert_eq. intros [= <-].
    split; [congruence|]. right. exists img. auto.
  - rewrite lookup_insert_ne by exact E'. intros H. destruct (IH H); auto.
Qed.

Lemma loadImages_prototype (loadedImages : list (option ImageData))
    (d : ImageDimensions) :
  dimensions_prototype (loadImages loadedImages) = Some d ->
  exists img, In (Some img) loadedImages /\ id img = "__proto__"
              /\ dimensions img = Some d.
Proof.
  induction loadedImages as [|o l IH] using rev_ind; [discriminate|].
  rewrite loadImages_snoc,
    (In_snoc_Some (fun i => id i = "__proto__" /\ dimensions i = Some d)).
  destruct o as [img|]; cbn [storeImage]; [|auto].
  destruct (dimensions img) as [d0|] eqn:Ed;
    [|cbn [dimensions_prototype]; auto].
  destruct (String.eqb_spec (id img) "__proto__") as [E|E];
    cbn [dimensions_prototype]; [|auto].
  intros [= <-]. right. exists img. auto.
Qed.

(** X6. In the result of [loadImages] an id other than [__proto__] has a
    data URL exactly when some image with this id was loaded, and every id
    with dimensions has a data URL: its dimensions are those that the
    header parser returned for a loaded image with this id.  Images that
    failed to load ([null]) leave no trace.  The id [__proto__] never has
    an entry in either object: its data URL is dropped, and its record, if
    it has one, becomes the prototype of [dimensions]. *)
Theorem loadImages_dimensions_have_data
    (loadedImages : list (option ImageData)) (imageId : string) :
  (is_Some (loaded_data (loadImages loadedImages) !! imageId)
   <-> imageId <> "__proto__"
       /\ exists img, In (Some img) loadedImages /\ id img = imageId)
  /\ (forall d,
        loaded_dimensions (loadImages loadedImages) !! imageId = Some d ->
        is_Some (loaded_data (loadImages loadedImages) !! imageId)
        /\ exists img, In (Some img) loadedImages /\ id img = imageId
                       /\ dimensions img = Some d)
  /\ loaded_data (loadImages loadedImages) !! "__proto__" = None
  /\ loaded_dimensions (loadImages loadedImages) !! "__proto__" = None
  /\ (forall d,
        dimensions_prototype (loadImages loadedImages) = Some d ->
        exists img, In (Some img) loadedImages /\ id img = "__proto__"
                    /\ dimensions img = Some d).
Proof.
  split; [apply loadImages_data|]. split; [|split; [|split]].
  - intros d Hd.
    destruct (loadImages_dimensions _ _ _ Hd) as (Hne & img & Hin & Hid & Hdim).
    split; [|eauto]. apply loadImages_data. eauto.
  - apply eq_None_not_Some. intros H.
    apply loadImages_data in H as [H _]. now apply H.
  - destruct (loaded_dimensions (loadImages loadedImages) !! "__proto__")
      as [d|] eqn:E; [|reflexivity].
    apply loadImages_dimensions in E as [E _]. now destruct E.
  - apply loadImages_prototype.
Qed.

(** ** Replacing failed images *)

Section ReplaceFailedImages.

Variable loadedImages : gmap string string.
Variable imageInfos : list ImageInfo.

Lemma map_id_Forall {A : Type} (f : A -> A) (l : list A) :
  Forall (fun x => f x = x) l -> map f l = l.
Proof.
  induction 1 as [|x l Hx _ IH]; [reflexivity|].
  cbn [map]. now rewrite Hx, IH.
Qed.

Lemma replaceFailedItem_loaded (item : Content) :
  (forall imageId, visits imageId item = true ->
                   notLoaded loadedImages imageId = false) ->
  replaceFailedItem loadedImages imageInfos item = item.
Proof.
  induction item as [s|text image fit margin stack columns ul ol table canvas
                       Hstack Hcolumns _ _ _] using Content_tree_ind;
    intros Hall; [reflexivity|].
  cbn [replaceFailedItem].
  destruct image as [i|].
  - rewrite (Hall i); [reflexivity|].
    cbn [visits image_is]. now rewrite String.eqb_refl.
  - assert (Hl : forall l,
               Forall (fun item =>
                 (forall imageId, visits imageId item = true ->
                                  notLoaded loadedImages imageId = false) ->
                 replaceFailedItem loadedImages imageInfos item = item) l ->
               (forall imageId, existsb (visits imageId) l = true ->
                                notLoaded loadedImages imageId = false) ->
               map (replaceFailedItem loadedImages imageInfos) l = l).
    { intros l HF Hex. apply map_id_Forall. rewrite Forall_forall in *.
      intros x Hx. apply HF; [exact Hx|]. intros imageId Hv. apply Hex.
      apply existsb_exists. exists x. split; [|exact Hv].
      now apply list_elem_of_In. }
    destruct stack as [l|].
    + rewrite (Hl l Hstack); [reflexivity|].
      intros imageId Hv. apply Hall. cbn [visits image_is within orb].
      now rewrite Hv.
    + destruct columns as [l|]; [|reflexivity].
      rewrite (Hl l Hcolumns); [reflexivity|].
      intros imageId Hv. apply Hall. cbn [visits image_is within orb].
      exact Hv.
Qed.

Lemma replaceFailedItem_idempotent (item : Content) :
  replaceFailedItem loadedImages imageInfos
    (replaceFailedItem loadedImages imageInfos item)
  = replaceFailedItem loadedImages imageInfos item.
Proof.
  induction item as [s|text image fit margin stack columns ul ol table canvas
                       Hstack Hcolumns _ _ _] using Content_tree_ind;
    [reflexivity|].
  cbn [replaceFailedItem].
  assert (Hl : forall l,
             Forall (fun item =>
               replaceFailedItem loadedImages imageInfos
                 (replaceFailedItem loadedImages imageInfos item)
               = replaceFailedItem loadedImages imageInfos item) l ->
             map (replaceFailedItem loadedImages imageInfos)
               (map (replaceFailedItem loadedImages imageInfos) l)
             = map (replaceFailedItem loadedImages imageInfos) l).
  { intros l HF. rewrite map_map. apply map_ext_Forall. exact HF. }
  destruct image as [i|].
  - destruct (notLoaded loadedImages i) eqn:E; [reflexivity|].
    cbn [replaceFailedItem]. now rewrite E.
  - destruct stack as [l|].
    + cbn [replaceFailedItem]. now rewrite (Hl l Hstack).
    + destruct columns as [l|]; [|reflexivity].
      cbn [replaceFailedItem]. now rewrite (Hl l Hcolumns).
Qed.

Lemma existsb_map_comp {A B : Type} (f : B -> bool) (g : A -> B) (l : list A) :
  existsb f (map g l) = existsb (fun x => f (g x)) l.
Proof.
  induction l as [|x l IH]; [reflexivity|]. cbn [map existsb]. now rewrite IH.
Qed.

Lemma existsb_andb_r {A : Type} (f g : A -> bool) (b : bool) (l : list A) :
  Forall (fun x => g x = f x && b) l ->
  existsb g l = existsb f l && b.
Proof.
  induction 1 as [|x l Hx _ IH]; [reflexivity|].
  cbn [existsb]. rewrite Hx, IH. now destruct (f x), b, (existsb f l).
Qed.

Lemma replaceFailedItem_visits (item : Content) (imageId : string) :
  oneContainer item = true ->
  visits imageId (replaceFailedItem loadedImages imageInfos item)
  = visits imageId item && negb (notLoaded loadedImages imageId).
Proof.
  induction item as [s|text image fit margin stack columns ul ol table canvas
                       Hstack Hcolumns _ _ _] using Content_tree_ind;
    [reflexivity|].
  assert (Hl : forall l,
             Forall (fun item =>
               oneContainer item = true ->
               visits imageId (replaceFailedItem loadedImages imageInfos item)
               = visits imageId item
                 && negb (notLoaded loadedImages imageId)) l ->
             forallb oneContainer l = true ->
             existsb (visits imageId)
               (map (replaceFailedItem loadedImages imageInfos) l)
             = existsb (visits imageId) l
               && negb (notLoaded loadedImages imageId)).
  { intros l HF Hone. rewrite existsb_map_comp.
    apply (existsb_andb_r (visits imageId)).
    rewrite forallb_forall in Hone. rewrite Forall_forall in *.
    intros x Hx. apply HF; [exact Hx|]. apply Hone.
    now apply list_elem_of_In. }
  cbn [oneContainer replaceFailedItem].
  destruct image as [i|], stack as [ls|], columns as [lc|];
    try discriminate; intros Hone.
  - destruct (notLoaded loadedImages i) eqn:E.
    + cbn [visits image_is within orb imagePlaceholder text_obj].
      destruct (String.eqb_spec i imageId) as [->|Hne];
        [now rewrite E|reflexivity].
    + cbn [visits image_is within orb]. rewrite !orb_false_r.
      destruct (String.eqb_spec i imageId) as [->|Hne];
        [now rewrite E|reflexivity].
  - cbn [visits image_is within orb]. rewrite !orb_false_r.
    now apply Hl.
  - cbn [visits image_is within orb]. now apply Hl.
  - reflexivity.
Qed.

End ReplaceFailedImages.

Section RenderedAndReplaced.

Variable inline : list Token -> RenderContext -> InlineContent.

Lemma fold_pushRendered_oneContainer (tokens : list Token) :
  Forall (fun t => forall context c,
            (renderBlockToken inline t context).1 = Some c ->
            oneContainer c = true) tokens ->
  forall acc,
    forallb oneContainer acc.1 = true ->
    forallb oneContainer
      (fold_left
         (fun acc t => pushRendered acc (renderBlockToken inline t acc.2))
         tokens acc).1 = true.
Proof.
  induction 1 as [|t tokens Ht _ IH]; intros acc Hacc; [exact Hacc|].
  cbn [fold_left]. apply IH. unfold pushRendered.
  destruct (renderBlockToken inline t acc.2) as [[c|] context'] eqn:E;
    cbn [fst snd]; [|exact Hacc].
  rewrite forallb_app, Hacc. cbn [forallb andb].
  rewrite (Ht acc.2 c); [reflexivity|]. now rewrite E.
Qed.

Lemma renderBlockToken_oneContainer (token : Token) :
  forall context c,
    (renderBlockToken inline token context).1 = Some c ->
    oneContainer c = true.
Proof.
  induction token as [depth tokens|tokens|ordered items _|lang text
                      |header rows|tokens IH| | |href text tokens|tokens]
    using Token_tree_ind; intros context c;
    [| |intros H;
        assert (Hc : renderList inline (ListToken ordered items) context = c)
          by (injection H; exact (fun E => E));
        rewrite <- Hc; cbn [renderList]; destruct ordered; reflexivity
     | | | | | | |];
    cbn [renderBlockToken fst].
  - intros [= <-]. reflexivity.
  - intros [= <-]. unfold renderParagraph.
    destruct (default [] tokens) as [|[] [|]]; reflexivity.
  - intros [= <-]. unfold renderCodeBlock.
    destruct lang as [l|]; [destruct (truthy_string l)|]; reflexivity.
  - intros [= <-]. reflexivity.
  - intros [= <-]. unfold blockquoteFrame.
    cbn [oneContainer forallb]. rewrite !andb_true_r.
    destruct tokens as [ts|]; [|reflexivity].
    apply fold_pushRendered_oneContainer; [exact IH|reflexivity].
  - intros [= <-]. reflexivity.
  - discriminate.
  - intros [= <-]. reflexivity.
  - destruct tokens; [|discriminate]. intros [= <-]. reflexivity.
Qed.

Lemma renderTokens_oneContainer (tokens : list Token)
    (context : RenderContext) :
  forallb oneContainer (renderTokens inline tokens context).1 = true.
Proof.
  unfold renderTokens. apply fold_pushRendered_oneContainer; [|reflexivity].
  apply Forall_forall. intros t _. apply renderBlockToken_oneContainer.
Qed.

End RenderedAndReplaced.

(** X7. When every image that the traversal of the tree visits has a
    non-empty data URL, [replaceFailedImages] returns the content
    unchanged. *)
Theorem replaceFailedImages_all_loaded (content : list Content)
    (loadedImages : gmap string string) (imageInfos : list ImageInfo) :
  (forall imageId, existsb (visits imageId) content = true ->
                   notLoaded loadedImages imageId = false) ->
  replaceFailedImages content loadedImages imageInfos = content.
Proof.
  intros Hall. unfold replaceFailedImages. apply map_id_Forall.
  apply Forall_forall. intros item Hitem.
  apply replaceFailedItem_loaded. intros imageId Hv. apply Hall.
  apply existsb_exists. exists item. split; [|exact Hv].
  now apply list_elem_of_In.
Qed.

Lemma replaceFailedImages_all_loaded_witness :
  (forall imageId,
      existsb (visits imageId) quoted_image_content = true ->
      notLoaded {["img_0" := "data:image/png;base64,AAAA"]} imageId = false)
  /\ replaceFailedImages quoted_image_content
       {["img_0" := "data:image/png;base64,AAAA"]} []
     = quoted_image_content.
Proof.
  assert (H : forall imageId,
             existsb (visits imageId) quoted_image_content = true ->
             notLoaded {["img_0" := "data:image/png;base64,AAAA"]} imageId
             = false).
  { intros imageId Hv.
    unfold quoted_image_content, text_node, image_node in Hv.
    cbn [existsb visits image_is within orb] in Hv.
    rewrite ?orb_false_r in Hv. apply String.eqb_eq in Hv. now subst. }
  split; [exact H|].
  apply (replaceFailedImages_all_loaded quoted_image_content
           {["img_0" := "data:image/png;base64,AAAA"]} [] H).
Defined.

(** X8. [replaceFailedImages] is idempotent: the placeholder of a failed
    image is a text node, which a second pass leaves alone. *)
Theorem replaceFailedImages_idempotent (content : list Content)
    (loadedImages : gmap string string) (imageInfos : list ImageInfo) :
  replaceFailedImages
    (replaceFailedImages content loadedImages imageInfos)
    loadedImages imageInfos
  = replaceFailedImages content loadedImages imageInfos.
Proof.
  unfold replaceFailedImages. rewrite map_map. apply map_ext.
  intros item. apply replaceFailedItem_idempotent.
Qed.

(** X9. For the content that [renderTokens] builds, after
    [replaceFailedImages] the images that the traversal of
    [calculateImageHeights] visits are exactly the images of the document
    whose data URL was loaded: no image node without data is left, and no
    loaded image is lost. *)
Theorem rendered_then_replaced
    (inline : list Token -> RenderContext -> InlineContent)
    (tokens : list Token) (context : RenderContext)
    (loadedImages : gmap string string) (imageId : string) :
  let rendered := renderTokens inline tokens context in
  let processed :=
    replaceFailedImages rendered.1 loadedImages (images rendered.2) in
  existsb (visits imageId) processed
  = existsb (occurs imageId) rendered.1
    && negb (notLoaded loadedImages imageId).
Proof.
  cbv zeta. rewrite rendered_images_are_visited.
  unfold replaceFailedImages. rewrite existsb_map_comp.
  apply (existsb_andb_r (visits imageId)).
  pose proof (renderTokens_oneContainer inline tokens context) as Hone.
  rewrite forallb_forall in Hone. apply Forall_forall. intros item Hitem.
  apply replaceFailedItem_visits. apply Hone. now apply list_elem_of_In.
Qed.

(** ** The image ids that the renderer hands out *)

Lemma freshIds_app (n a b : nat) :
  freshIds n (a + b) = freshIds n a ++ freshIds (n + a) b.
Proof. unfold freshIds. now rewrite seq_app, map_app. Qed.

Lemma freshIds_NoDup (n k : nat) : NoDup (freshIds n k).
Proof.
  unfold freshIds. apply NoDup_ListNoDup.
  apply Finite.Injective_map_NoDup; [|apply seq_NoDup].
  intros i j H. cbn [String.append] in H. injection H as H.
  exact (pretty_nat_inj _ _ H).
Qed.

Section RenderedIds.

Variable inline : list Token -> RenderContext -> InlineContent.

Lemma collects_nothing (context : RenderContext) : collects context [] context.
Proof.
  exists []. rewrite app_nil_r. repeat split; reflexivity.
Qed.

Lemma collects_trans (c1 c2 c3 : RenderContext) nodes1 nodes2 :
  collects c1 nodes1 c2 -> collects c2 nodes2 c3 ->
  collects c1 (nodes1 ++ nodes2) c3.
Proof.
  intros (n1 & H1 & Hb1 & Hj1 & Hi1 & Hn1) (n2 & H2 & Hb2 & Hj2 & Hi2 & Hn2).
  exists (n1 ++ n2). rewrite H2, H1, app_assoc.
  split; [reflexivity|]. split; [congruence|]. split; [congruence|].
  assert (Hids : map info_id (n1 ++ n2)
                 = freshIds (length (images c1)) (length (n1 ++ n2))).
  { rewrite map_app, length_app, freshIds_app, Hi1, Hi2, H1, length_app.
    reflexivity. }
  split; [exact Hids|]. now rewrite !map_app, Hn1, Hn2.
Qed.

Lemma renderImage_collects (href text : string) (context : RenderContext) :
  collects context (imageNodes (renderImage href text context).1)
    (renderImage href text context).2.
Proof.
  exists [mkImageInfo ("img_" +:+ pretty (length (images context))) href text].
  repeat split; cbn; unfold freshIds; cbn; reflexivity.
Qed.

Lemma fold_pushRendered_collects (tokens : list Token) :
  Forall (fun t => forall context,
            collects context
              (renderedImageNodes (renderBlockToken inline t context).1)
              (renderBlockToken inline t context).2) tokens ->
  forall acc,
    let r :=
      fold_left
        (fun acc t => pushRendered acc (renderBlockToken inline t acc.2))
        tokens acc in
    exists nodes,
      flat_map imageNodes r.1 = flat_map imageNodes acc.1 ++ nodes
      /\ collects acc.2 nodes r.2.
Proof.
  induction 1 as [|t tokens Ht _ IH]; intros acc; cbn [fold_left].
  - exists []. rewrite app_nil_r. split; [reflexivity|apply collects_nothing].
  - destruct (IH (pushRendered acc (renderBlockToken inline t acc.2)))
      as (nodes & Hn & Hc).
    pose proof (Ht acc.2) as Hstep.
    exists (renderedImageNodes (renderBlockToken inline t acc.2).1 ++ nodes).
    split.
    + rewrite Hn. unfold pushRendered.
      destruct (renderBlockToken inline t acc.2) as [[c|] context'];
        cbn [fst snd renderedImageNodes].
      * rewrite flat_map_app. cbn [flat_map].
        now rewrite app_nil_r, app_assoc.
      * reflexivity.
    + eapply collects_trans; [exact Hstep|].
      unfold pushRendered in Hc.
      destruct (renderBlockToken inline t acc.2) as [[c|] context'];
        exact Hc.
Qed.

Lemma renderBlockToken_collects (token : Token) :
  forall context,
    collects context
      (renderedImageNodes (renderBlockToken inline token context).1)
      (renderBlockToken inline token context).2.
Proof.
  induction token as [depth tokens|tokens|ordered items _|lang text
                      |header rows|tokens IH| | |href text tokens|tokens]
    using Token_tree_ind; intros context;
    [| |change (collects context
                  (imageNodes (renderList inline (ListToken ordered items)
                                 context)) context);
        rewrite renderList_imageNodes; apply collects_nothing
     | | | | | | |];
    cbn [renderBlockToken fst snd renderedImageNodes].
  - apply collects_nothing.
  - unfold renderParagraph.
    destruct (default [] tokens) as [|[] [|]];
      first [apply collects_nothing | apply renderImage_collects].
  - rewrite renderCodeBlock_imageNodes. apply collects_nothing.
  - rewrite renderTable_imageNodes. apply collects_nothing.
  - rewrite blockquoteFrame_imageNodes.
    destruct tokens as [ts|]; [|apply collects_nothing].
    destruct (fold_pushRendered_collects ts IH ([], context))
      as (nodes & Hn & Hc).
    cbv zeta in Hn, Hc. cbn [fst snd flat_map app] in Hn, Hc.
    rewrite Hn. exact Hc.
  - apply collects_nothing.
  - apply collects_nothing.
  - apply renderImage_collects.
  - destruct tokens; apply collects_nothing.
Qed.

End RenderedIds.

(** X10. [renderTokens] appends one [ImageInfo] to [context.images] per
    image node that it builds and nothing else; the ids are [img_n],
    [img_(n+1)], ... where [n] images were collected before, the image
    nodes of the content carry these ids in this order, and the ids are
    pairwise distinct.  The other fields of the context are unchanged. *)
Theorem renderTokens_image_ids
    (inline : list Token -> RenderContext -> InlineContent)
    (tokens : list Token) (context : RenderContext) :
  let r := renderTokens inline tokens context in
  exists news,
    images r.2 = images context ++ news
    /\ basePath r.2 = basePath context
    /\ japaneseFont r.2 = japaneseFont context
    /\ map info_id news = freshIds (length (images context)) (length news)
    /\ map fst (flat_map imageNodes r.1) = map info_id news
    /\ NoDup (map fst (flat_map imageNodes r.1)).
Proof.
  cbv zeta. unfold renderTokens.
  destruct (fold_pushRendered_collects inline tokens) with (acc := ([] : list Content, context))
    as (nodes & Hn & news & H1 & H2 & H3 & H4 & H5).
  { apply Forall_forall. intros t _. apply renderBlockToken_collects. }
  cbn [fst snd flat_map app] in *.
  exists news. rewrite Hn, H5.
  repeat (split; [assumption|]). split; [reflexivity|].
  rewrite H4. apply freshIds_NoDup.
Qed.

(** ** Paper sizes *)

Lemma upper_ascii_idem (c : Ascii.ascii) :
  upper_ascii (upper_ascii c) = upper_ascii c.
Proof. destruct c as [[] [] [] [] [] [] [] []]; reflexivity. Qed.

Lemma upper_lower_ascii (c : Ascii.ascii) :
  upper_ascii (lower_ascii c) = upper_ascii c.
Proof. destruct c as [[] [] [] [] [] [] [] []]; reflexivity. Qed.

Lemma toUpperCase_idem (s : string) : toUpperCase (toUpperCase s) = toUpperCase s.
Proof.
  induction s as [|c s IH]; [reflexivity|].
  cbn [toUpperCase]. now rewrite upper_ascii_idem, IH.
Qed.

Lemma toUpperCase_toLowerCase (s : string) :
  toUpperCase (toLowerCase s) = toUpperCase s.
Proof.
  induction s as [|c s IH]; [reflexivity|].
  cbn [toUpperCase toLowerCase]. now rewrite upper_lower_ascii, IH.
Qed.

Lemma PAPER_SIZES_entry (key : string) (p : PaperDimensions) :
  PAPER_SIZES !! key = Some p ->
  In (key, p) PAPER_LIST
  /\ paper_name p = key /\ paper_width p = mm (mmWidth p).
Proof.
  intros H. apply elem_of_list_to_map_2, list_elem_of_In in H.
  split; [exact H|].
  unfold PAPER_LIST in H. cbn [In] in H.
  repeat (destruct H as [H|H]; [injection H as <- <-; split; reflexivity|]).
  contradiction.
Qed.

(** X11. [getPaperSize] always returns an entry of the table, whose name
    is its key and whose width is [mm] of its width in millimetres.  The
    lookup ignores the case of the letters; a value is a paper size exactly
    when the returned entry carries its upper-cased name, and every other
    value gets the default, A4. *)
Theorem getPaperSize_spec (value : string) :
  let p := getPaperSize value in
  In (paper_name p, p) PAPER_LIST
  /\ paper_width p = mm (mmWidth p)
  /\ (isPaperSize value = true <-> paper_name p = toUpperCase value)
  /\ (if isPaperSize value then PAPER_SIZES !! toUpperCase value = Some p
      else p = getPaperSize "A4" /\ paper_name p = "A4"%string)
  /\ getPaperSize (toUpperCase value) = p
  /\ getPaperSize (toLowerCase value) = p.
Proof.
  cbv zeta. unfold getPaperSize, isPaperSize.
  rewrite toUpperCase_idem, toUpperCase_toLowerCase.
  destruct (PAPER_SIZES !! toUpperCase value) as [p|] eqn:E.
  - destruct (PAPER_SIZES_entry _ _ E) as (Hin & Hname & Hw).
    rewrite Hname. split; [exact Hin|]. split; [exact Hw|].
    rewrite bool_decide_eq_true_2 by eauto. tauto.
  - change (default _ (PAPER_SIZES !! DEFAULT_PAPER_SIZE))
      with (mkPaper (mm (of_Z 210)) "A4" (of_Z 210)).
    cbn [paper_name paper_width mmWidth].
    split; [unfold PAPER_LIST, paper; cbn [In]; tauto|].
    split; [reflexivity|].
    rewrite bool_decide_eq_false_2 by (intros [x Hx]; discriminate Hx).
    split; [|split; [split; reflexivity|split; reflexivity]].
    split; [discriminate|]. intros Hname. rewrite <- Hname in E.
    discriminate E.
Qed.

(** ** The MIME type of a local image *)

Lemma lower_ascii_dot (c : Ascii.ascii) : is_dot (lower_ascii c) = is_dot c.
Proof. destruct c as [[] [] [] [] [] [] [] []]; reflexivity. Qed.

Lemma has_dot_toLowerCase (s : string) : has_dot (toLowerCase s) = has_dot s.
Proof.
  induction s as [|c s IH]; [reflexivity|].
  cbn [toLowerCase has_dot]. now rewrite lower_ascii_dot, IH.
Qed.

Lemma toLowerCase_app (a b : string) :
  toLowerCase (a +:+ b) = toLowerCase a +:+ toLowerCase b.
Proof.
  induction a as [|c a IH]; [reflexivity|].
  change (toLowerCase (String c a +:+ b))
    with (String (lower_ascii c) (toLowerCase (a +:+ b))).
  now rewrite IH.
Qed.

Lemma matchExtension_no_dot (s : string) :
  has_dot s = false -> matchExtension s = None.
Proof.
  induction s as [|c s IH]; [reflexivity|].
  cbn [has_dot matchExtension]. intros [Hc Hs]%orb_false_iff.
  now rewrite (IH Hs), Hc.
Qed.

Lemma matchExtension_app (dir ext : string) :
  truthy_string ext = true -> has_dot ext = false ->
  matchExtension (dir +:+ "." +:+ ext) = Some ("." +:+ ext)%string.
Proof.
  intros He Hd.
  assert (Hbase : matchExtension ("." +:+ ext) = Some ("." +:+ ext)%string).
  { change ("." +:+ ext)%string with (String (Ascii.ascii_of_nat 46) ext).
    cbn [matchExtension].
    rewrite (matchExtension_no_dot ext Hd), He, Hd. reflexivity. }
  induction dir as [|c dir IH]; [exact Hbase|].
  change (String c dir +:+ "." +:+ ext)%string
    with (String c (dir +:+ "." +:+ ext)).
  cbn [matchExtension]. now rewrite IH.
Qed.

Lemma MIME_TYPES_values (ext m : string) :
  MIME_TYPES !! ext = Some m -> m = "image/jpeg"%string \/ m = "image/png"%string.
Proof.
  intros H. apply elem_of_list_to_map_2, list_elem_of_In in H.
  cbn [In] in H.
  repeat (destruct H as [H|H]; [injection H as <- <-; auto|]).
  contradiction.
Qed.

(** X12. The MIME type of a local image depends only on the text after the
    last dot of the path, whatever the case of its letters: a path that
    ends in a dot and a non-empty extension without dot gets the type that
    [MIME_TYPES] lists for the lower-cased extension, and a path without
    dot gets none. *)
Theorem getMimeType_extension (dir ext : string) :
  truthy_string ext = true -> has_dot ext = false ->
  getMimeType (dir +:+ "." +:+ ext) = MIME_TYPES !! ("." +:+ toLowerCase ext)%string
  /\ getMimeType ext = None.
Proof.
  intros He Hd. unfold getMimeType. split.
  - rewrite !toLowerCase_app.
    change (toLowerCase ".") with "."%string.
    rewrite matchExtension_app; [reflexivity| |now rewrite has_dot_toLowerCase].
    destruct ext; [discriminate|reflexivity].
  - rewrite matchExtension_no_dot; [reflexivity|].
    now rewrite has_dot_toLowerCase.
Qed.

Lemma getMimeType_extension_witness :
  (truthy_string "PNG" = true /\ has_dot "PNG" = false)
  /\ getMimeType "/home/me/Holiday.2024/Beach.PNG" = Some "image/png"%string.
Proof.
  split; [split; reflexivity|].
  destruct (getMimeType_extension "/home/me/Holiday.2024/Beach" "PNG"
              eq_refl eq_refl) as [H _].
  exact H.
Defined.

(** X13. Whatever MIME type [getMimeType] finds for a path is one that the
    header parser supports: the dimensions are then read by the PNG or by
    the JPEG parser, never skipped as an unsupported type. *)
Theorem getMimeType_supported (path : string) (buffer : list byte) :
  match getMimeType path with
  | Some mimeType =>
      (mimeType = "image/jpeg"%string \/ mimeType = "image/png"%string)
      /\ getImageDimensions buffer mimeType
         = if String.eqb mimeType "image/png" then getPngDimensions buffer
           else getJpegDimensions buffer
  | None => True
  end.
Proof.
  unfold getMimeType.
  destruct (matchExtension (toLowerCase path)) as [ext|]; [|exact I].
  destruct (MIME_TYPES !! ext) as [m|] eqn:E; [|exact I].
  destruct (MIME_TYPES_values ext m E) as [-> | ->]; split; auto.
Qed.

(** ** Round trips through the header parser *)

Lemma byte_of_Z_value (z : Z) :
  Z.of_N (Byte.to_N (byte_of_Z z)) = z mod 256.
Proof.
  unfold byte_of_Z.
  pose proof (Z.mod_pos_bound z 256 ltac:(lia)) as Hb.
  destruct (Byte.of_N (Z.to_N (z mod 256))) as [b|] eqn:E.
  - apply Byte.to_of_N in E. rewrite E. lia.
  - apply Byte.of_N_None_iff in E. lia.
Qed.

Lemma byteAt_app (pre : list byte) (x : list byte) (i : Z) :
  0 <= i ->
  byteAt (pre ++ x) (Z.of_nat (length pre) + i) = byteAt x i.
Proof.
  intros Hi. unfold byteAt.
  replace (Z.to_nat (Z.of_nat (length pre) + i))
    with (length pre + Z.to_nat i)%nat by lia.
  now rewrite app_nth2_plus.
Qed.

Lemma uint16At_be16 (pre tail : list byte) (v : Z) :
  0 <= v < 65536 ->
  uint16At (pre ++ be16 v ++ tail) (Z.of_nat (length pre)) = v.
Proof.
  intros Hv. unfold uint16At.
  rewrite <- (Z.add_0_r (Z.of_nat (length pre))) at 1.
  rewrite !byteAt_app by lia. unfold byteAt, be16.
  change (Z.to_nat 0) with 0%nat. change (Z.to_nat 1) with 1%nat.
  cbn [app nth].
  rewrite !byte_of_Z_value, Z.shiftl_mul_pow2 by lia.
  change (2 ^ 8) with 256. Z.div_mod_to_equations. lia.
Qed.

Lemma uint32At_be32 (pre tail : list byte) (v : Z) :
  0 <= v < 2 ^ 32 ->
  uint32At (pre ++ be32 v ++ tail) (Z.of_nat (length pre)) = v.
Proof.
  intros Hv. unfold uint32At.
  rewrite <- (Z.add_0_r (Z.of_nat (length pre))) at 1.
  rewrite !byteAt_app by lia. unfold byteAt, be32.
  change (Z.to_nat 0) with 0%nat. change (Z.to_nat 1) with 1%nat.
  change (Z.to_nat 2) with 2%nat. change (Z.to_nat 3) with 3%nat.
  cbn [app nth].
  rewrite !byte_of_Z_value, !Z.shiftl_mul_pow2 by lia.
  change (2 ^ 24) with 16777216. change (2 ^ 16) with 65536.
  change (2 ^ 8) with 256. change (2 ^ 32) with 4294967296 in Hv.
  Z.div_mod_to_equations. lia.
Qed.

(** X14. PNG round trip: a buffer that starts with the four signature
    bytes, twelve arbitrary bytes and the big-endian encodings of a width
    and a height below 2^32, followed by anything, parses to exactly this
    width and height. *)
Theorem png_header_round_trip (skipped rest : list byte) (w h : Z) :
  length skipped = 12%nat -> 0 <= w < 2 ^ 32 -> 0 <= h < 2 ^ 32 ->
  getImageDimensions (pngHeader skipped w h ++ rest) "image/png"
  = Return (Some (mkDims (of_Z w) (of_Z h))).
Proof.
  intros Hlen Hw Hh.
  change (getImageDimensions (pngHeader skipped w h ++ rest) "image/png")
    with (getPngDimensions (pngHeader skipped w h ++ rest)).
  rewrite getPngDimensions_cases.
  assert (Hbytes : byteLength (pngHeader skipped w h ++ rest)
                   = 24 + Z.of_nat (length rest)).
  { unfold byteLength, pngHeader, bytes, be32.
    rewrite !length_app, length_map, Hlen. cbn [length]. lia. }
  rewrite Hbytes.
  destruct (24 + Z.of_nat (length rest) <? 4) eqn:E4;
    [apply Z.ltb_lt in E4; lia|].
  destruct (24 + Z.of_nat (length rest) <? 24) eqn:E24;
    [apply Z.ltb_lt in E24; lia|].
  assert (Hsig : uint32At (pngHeader skipped w h ++ rest) 0 = 0x89504e47)
    by reflexivity.
  rewrite Hsig. change (negb (0x89504e47 =? 0x89504e47)) with false.
  cbv iota.
  assert (H16 : uint32At (pngHeader skipped w h ++ rest) 16 = w).
  { unfold pngHeader. rewrite <- !app_assoc, (app_assoc (bytes _) skipped).
    replace 16 with (Z.of_nat (length (bytes [137; 80; 78; 71] ++ skipped)))
      by (rewrite length_app, Hlen; reflexivity).
    now apply uint32At_be32. }
  assert (H20 : uint32At (pngHeader skipped w h ++ rest) 20 = h).
  { unfold pngHeader.
    rewrite <- !app_assoc, (app_assoc (bytes _) skipped),
      (app_assoc (_ ++ skipped) (be32 w)).
    replace 20
      with (Z.of_nat (length ((bytes [137; 80; 78; 71] ++ skipped) ++ be32 w)))
      by (rewrite !length_app, Hlen; reflexivity).
    now apply uint32At_be32. }
  now rewrite H16, H20.
Qed.

Lemma png_header_round_trip_witness :
  (length (bytes [0; 0; 0; 0; 0; 0; 0; 13; 73; 72; 68; 82]) = 12%nat
   /\ 0 <= 1920 < 2 ^ 32 /\ 0 <= 1080 < 2 ^ 32)
  /\ getImageDimensions
       (pngHeader (bytes [0; 0; 0; 0; 0; 0; 0; 13; 73; 72; 68; 82]) 1920 1080
        ++ bytes [8; 2])
       "image/png"
     = Return (Some (mkDims (of_Z 1920) (of_Z 1080))).
Proof.
  split; [split; [reflexivity|lia]|].
  apply (png_header_round_trip
           (bytes [0; 0; 0; 0; 0; 0; 0; 13; 73; 72; 68; 82]) (bytes [8; 2])
           1920 1080); [reflexivity|lia|lia].
Defined.

Lemma getUint16_be16 (pre tail : list byte) (v : Z) :
  0 <= v < 65536 ->
  getUint16 (pre ++ be16 v ++ tail) (Z.of_nat (length pre)) = Return v.
Proof.
  intros Hv. unfold getUint16.
  destruct (Z.of_nat (length pre) <? 0) eqn:E1; [apply Z.ltb_lt in E1; lia|].
  destruct (byteLength (pre ++ be16 v ++ tail) <? Z.of_nat (length pre) + 2)
    eqn:E2.
  - apply Z.ltb_lt in E2. unfold byteLength in E2.
    rewrite !length_app in E2. cbn [be16 length] in E2. lia.
  - cbn [orb]. now rewrite uint16At_be16.
Qed.

Lemma jpegScan_fuel_le (buffer : list byte) (fuel fuel' : nat) offset r :
  (fuel <= fuel')%nat ->
  jpegScan fuel buffer offset = Some r ->
  jpegScan fuel' buffer offset = Some r.
Proof.
  induction 1 as [|m _ IH]; [auto|].
  intros H. now apply jpegScan_fuel_mono, IH.
Qed.

Lemma isSOF_range (marker : Z) : isSOF marker = true -> 0 <= marker < 65536.
Proof. unfold isSOF. lia. Qed.

Lemma jpegScan_frame (pre rest : list byte) (fuel : nat) (sof : Z)
    (precision : byte) (w h : Z) :
  isSOF sof = true -> 0 <= w < 65536 -> 0 <= h < 65536 ->
  jpegScan (S fuel) (pre ++ jpegFrame sof precision w h ++ rest)
    (Z.of_nat (length pre))
  = Some (Return (Some (mkDims (of_Z w) (of_Z h)))).
Proof.
  intros Hsof Hw Hh. pose proof (isSOF_range sof Hsof) as Hr.
  cbn [jpegScan].
  set (buffer := pre ++ jpegFrame sof precision w h ++ rest).
  assert (Hlen : byteLength buffer
                 = Z.of_nat (length pre) + 9 + Z.of_nat (length rest)).
  { subst buffer. unfold byteLength, jpegFrame, be16.
    rewrite !length_app. cbn [length]. lia. }
  destruct (Z.of_nat (length pre) <? byteLength buffer) eqn:E;
    [|apply Z.ltb_ge in E; lia].
  assert (Hm : getUint16 buffer (Z.of_nat (length pre)) = Return sof).
  { subst buffer. unfold jpegFrame. rewrite <- !app_assoc.
    now apply getUint16_be16. }
  rewrite Hm, Hsof.
  assert (Hh' : getUint16 buffer (Z.of_nat (length pre) + 2 + 3) = Return h).
  { replace buffer
      with ((((pre ++ be16 sof) ++ be16 17) ++ [precision])
            ++ be16 h ++ be16 w ++ rest)
      by (subst buffer; unfold jpegFrame; now rewrite <- !app_assoc).
    replace (Z.of_nat (length pre) + 2 + 3)
      with (Z.of_nat (length (((pre ++ be16 sof) ++ be16 17) ++ [precision])))
      by (rewrite !length_app; cbn [be16 length]; lia).
    now apply getUint16_be16. }
  assert (Hw' : getUint16 buffer (Z.of_nat (length pre) + 2 + 5) = Return w).
  { replace buffer
      with (((((pre ++ be16 sof) ++ be16 17) ++ [precision]) ++ be16 h)
            ++ be16 w ++ rest)
      by (subst buffer; unfold jpegFrame; now rewrite <- !app_assoc).
    replace (Z.of_nat (length pre) + 2 + 5)
      with (Z.of_nat (length ((((pre ++ be16 sof) ++ be16 17) ++ [precision])
                                ++ be16 h)))
      by (rewrite !length_app; cbn [be16 length]; lia).
    now apply getUint16_be16. }
  rewrite Hh', Hw'. reflexivity.
Qed.

Lemma jpegScan_segment (pre tail : list byte) (fuel : nat) (s : Z * list byte) :
  skippable s = true ->
  jpegScan (S fuel) (pre ++ jpegSegment s.1 s.2 ++ tail) (Z.of_nat (length pre))
  = jpegScan fuel (pre ++ jpegSegment s.1 s.2 ++ tail)
      (Z.of_nat (length (pre ++ jpegSegment s.1 s.2))).
Proof.
  destruct s as [marker payload]. unfold skippable, skippedMarker.
  cbn [fst snd]. intros Hs.
  assert (Hrange : 0 <= marker < 65536) by lia.
  assert (Hlenp : Z.of_nat (length payload) + 2 < 65536) by lia.
  cbn [jpegScan].
  set (buffer := pre ++ jpegSegment marker payload ++ tail).
  assert (Hlen : byteLength buffer
                 = Z.of_nat (length pre) + 4 + Z.of_nat (length payload)
                   + Z.of_nat (length tail)).
  { subst buffer. unfold byteLength, jpegSegment, be16.
    rewrite !length_app. cbn [length]. lia. }
  destruct (Z.of_nat (length pre) <? byteLength buffer) eqn:E;
    [|apply Z.ltb_ge in E; lia].
  assert (Hm : getUint16 buffer (Z.of_nat (length pre)) = Return marker).
  { subst buffer. unfold jpegSegment. rewrite <- !app_assoc.
    now apply getUint16_be16. }
  rewrite Hm.
  destruct (isSOF marker); [lia|].
  destruct (marker =? 0xffd9) eqn:E1; [lia|].
  destruct (marker =? 0xffd8) eqn:E2; [lia|].
  destruct ((0xffd0 <=? marker) && (marker <=? 0xffd7)) eqn:E3; [lia|].
  assert (Hl : getUint16 buffer (Z.of_nat (length pre) + 2)
               = Return (2 + Z.of_nat (length payload))).
  { subst buffer. unfold jpegSegment. rewrite <- !app_assoc.
    rewrite (app_assoc pre (be16 marker)).
    replace (Z.of_nat (length pre) + 2)
      with (Z.of_nat (length (pre ++ be16 marker)))
      by (rewrite length_app; cbn [be16 length]; lia).
    apply getUint16_be16. lia. }
  rewrite Hl. f_equal.
  unfold jpegSegment, be16. rewrite !length_app. cbn [length]. lia.
Qed.

Lemma jpegScan_stream (segments : list (Z * list byte)) (rest : list byte)
    (sof : Z) (precision : byte) (w h : Z) :
  forallb skippable segments = true ->
  isSOF sof = true -> 0 <= w < 65536 -> 0 <= h < 65536 ->
  forall pre,
    jpegScan (S (length segments))
      (pre ++ jpegStream segments ++ jpegFrame sof precision w h ++ rest)
      (Z.of_nat (length pre))
    = Some (Return (Some (mkDims (of_Z w) (of_Z h)))).
Proof.
  intros Hsegs Hsof Hw Hh.
  induction segments as [|s segments IH]; intros pre.
  - cbn [jpegStream flat_map app]. now apply jpegScan_frame.
  - cbn [forallb] in Hsegs. apply andb_true_iff in Hsegs as [Hs Hsegs].
    cbn [jpegStream flat_map length]. rewrite <- app_assoc.
    rewrite (jpegScan_segment pre _ _ s Hs).
    rewrite (app_assoc pre). apply (IH Hsegs).
Qed.

(** X15. JPEG round trip: a stream made of the start-of-image marker, any
    number of segments whose markers the scan skips by their length field,
    then a start-of-frame header with a height and a width below 2^16,
    followed by anything, parses to exactly this width and height. *)
Theorem jpeg_frame_round_trip (segments : list (Z * list byte))
    (rest : list byte) (sof : Z) (precision : byte) (w h : Z) :
  forallb skippable segments = true ->
  isSOF sof = true -> 0 <= w < 65536 -> 0 <= h < 65536 ->
  getImageDimensions
    (bytes [0xff; 0xd8] ++ jpegStream segments
     ++ jpegFrame sof precision w h ++ rest)
    "image/jpeg"
  = Return (Some (mkDims (of_Z w) (of_Z h))).
Proof.
  intros Hsegs Hsof Hw Hh.
  set (buffer := bytes [0xff; 0xd8] ++ jpegStream segments
                 ++ jpegFrame sof precision w h ++ rest).
  change (getImageDimensions buffer "image/jpeg")
    with (getJpegDimensions buffer).
  pose proof (jpegScan_stream segments rest sof precision w h Hsegs Hsof Hw Hh
                (bytes [0xff; 0xd8])) as Hscan.
  change (Z.of_nat (length (bytes [255; 216]))) with 2 in Hscan.
  fold buffer in Hscan.
  assert (Hfuel : (S (length segments) <= jpegFuel buffer)%nat).
  { unfold jpegFuel. apply le_n_S. subst buffer.
    rewrite !length_app.
    assert (Hs : (length segments <= length (jpegStream segments))%nat).
    { clear. induction segments as [|s l IH]; [reflexivity|].
      cbn [jpegStream flat_map length]. rewrite length_app.
      unfold jpegSegment at 1, be16. cbn [app length].
      fold (jpegStream l). lia. }
    lia. }
  apply (jpegScan_fuel_le _ _ _ _ _ Hfuel) in Hscan.
  unfold getJpegDimensions. rewrite Hscan.
  assert (Hsig : getUint16 buffer 0 = Return 0xffd8).
  { subst buffer. apply (getUint16_be16 [] _ 0xffd8). lia. }
  rewrite Hsig. reflexivity.
Qed.

Lemma jpeg_frame_round_trip_witness :
  (forallb skippable [(0xffe0, bytes [74; 70; 73; 70; 0]); (0xffdb, [])] = true
   /\ isSOF 0xffc2 = true /\ 0 <= 640 < 65536 /\ 0 <= 480 < 65536)
  /\ getImageDimensions
       (bytes [0xff; 0xd8]
        ++ jpegStream [(0xffe0, bytes [74; 70; 73; 70; 0]); (0xffdb, [])]
        ++ jpegFrame 0xffc2 Byte.x08 640 480 ++ bytes [3])
       "image/jpeg"
     = Return (Some (mkDims (of_Z 640) (of_Z 480))).
Proof.
  split; [split; [reflexivity|split; [reflexivity|lia]]|].
  apply (jpeg_frame_round_trip
           [(0xffe0, bytes [74; 70; 73; 70; 0]); (0xffdb, [])] (bytes [3])
           0xffc2 Byte.x08 640 480); [reflexivity|reflexivity|lia|lia].
Defined.

(** ** Inline content *)

Lemma append_empty_r (s : string) : (s +:+ "")%string = s.
Proof.
  induction s as [|c s IH]; [reflexivity|].
  change (String c (s +:+ "") = String c s). now rewrite IH.
Qed.

Lemma append_assoc' (a b c : string) :
  ((a +:+ b) +:+ c)%string = (a +:+ (b +:+ c))%string.
Proof.
  induction a as [|x a IH]; [reflexivity|].
  change (String x ((a +:+ b) +:+ c) = String x (a +:+ (b +:+ c))).
  now rewrite IH.
Qed.

Lemma joinStrings_app (l1 l2 : list string) :
  joinStrings (l1 ++ l2) = (joinStrings l1 +:+ joinStrings l2)%string.
Proof.
  induction l1 as [|s l1 IH]; [reflexivity|].
  cbn [app joinStrings fold_right]. fold (joinStrings (l1 ++ l2)).
  fold (joinStrings l1). now rewrite IH, append_assoc'.
Qed.

Lemma flattenStyled_styleItem style (item : StyledText) :
  flattenStyled (styleItem style item) = flattenStyled item.
Proof. destruct item; reflexivity. Qed.

Lemma flattenToText_applyStyle (content : InlineContent) style :
  flattenToText (applyStyle content style) = flattenToText content.
Proof.
  destruct content as [s|t|l]; cbn [applyStyle flattenToText].
  - reflexivity.
  - apply flattenStyled_styleItem.
  - rewrite map_map. f_equal. apply map_ext. intros x.
    apply flattenStyled_styleItem.
Qed.

Lemma flattenToText_unwrapSingle (result : list StyledText) :
  flattenToText (unwrapSingle result) = joinStrings (map flattenStyled result).
Proof.
  destruct result as [|t [|t' result]]; try reflexivity.
  cbn. now rewrite append_empty_r.
Qed.

Lemma flatten_pushInline (rendered : option InlineContent) :
  joinStrings (map flattenStyled (pushInline rendered))
  = match rendered with
    | Some c => flattenToText c
    | None => EmptyString
    end.
Proof.
  destruct rendered as [[s|t|l]|]; cbn; rewrite ?append_empty_r; reflexivity.
Qed.

Section InlineFacts.

Variable japaneseFont : option string.

Lemma flatten_many (tokens : list InlineToken) :
  Forall (fun t =>
            match renderInlineToken japaneseFont t with
            | Some c => flattenToText c
            | None => EmptyString
            end = plainText t) tokens ->
  flattenToText (renderInlineTokens tokens japaneseFont)
  = joinStrings (map plainText tokens).
Proof.
  intros HF. unfold renderInlineTokens.
  assert (H : joinStrings
                (map flattenStyled
                   (flat_map
                      (fun t => pushInline (renderInlineToken japaneseFont t))
                      tokens))
              = joinStrings (map plainText tokens)).
  { induction HF as [|t tokens Ht _ IH]; [reflexivity|].
    cbn [flat_map map]. rewrite map_app, joinStrings_app, flatten_pushInline.
    rewrite Ht, IH. reflexivity. }
  destruct tokens as [|t tokens]; [reflexivity|].
  now rewrite flattenToText_unwrapSingle.
Qed.

Lemma flatten_styled_inner (tokens : option (list InlineToken)) style :
  OForall (fun t =>
             match renderInlineToken japaneseFont t with
             | Some c => flattenToText c
             | None => EmptyString
             end = plainText t) tokens ->
  flattenToText
    (applyStyle
       match tokens with
       | Some ts => renderInlineTokens ts japaneseFont
       | None => IString EmptyString
       end style)
  = match tokens with
    | Some ts => joinStrings (map plainText ts)
    | None => EmptyString
    end.
Proof.
  intros HF. rewrite flattenToText_applyStyle.
  destruct tokens as [ts|]; [now apply flatten_many|reflexivity].
Qed.

Lemma renderInlineToken_plainText (token : InlineToken) :
  match renderInlineToken japaneseFont token with
  | Some c => flattenToText c
  | None => EmptyString
  end = plainText token.
Proof.
  induction token as [text|tokens IH|tokens IH|tokens IH|href tokens IH|text
                      | |text|tokens raw IH] using InlineToken_tree_ind;
    try reflexivity.
  - exact (flatten_styled_inner tokens [("bold", "true")]%string IH).
  - exact (flatten_styled_inner tokens [("italics", "true")]%string IH).
  - exact (flatten_styled_inner tokens
             [("decoration", "lineThrough")]%string IH).
  - exact (flatten_styled_inner tokens (linkStyle href) IH).
  - destruct tokens as [ts|]; [|destruct raw; reflexivity].
    exact (flatten_many ts IH).
Qed.

End InlineFacts.

(** X16. Flattening what [renderInlineTokens] builds gives the plain text
    of the tokens: the texts of text, code span and escape tokens, a line
    feed for a break, the raw text of an unknown token, in order, whatever
    nesting of strong, emphasis, deleted and link tokens is around them. *)
Theorem flatten_rendered_inline (tokens : list InlineToken)
    (japaneseFont : option string) :
  flattenToText (renderInlineTokens tokens japaneseFont)
  = joinStrings (map plainText tokens).
Proof.
  apply flatten_many. apply Forall_forall. intros t _.
  apply renderInlineToken_plainText.
Qed.

Lemma attrValue_setAttr_eq key value attrs :
  attrValue key (setAttr key value attrs) = Some value.
Proof.
  unfold attrValue. induction attrs as [|[k v] attrs IH]; cbn [setAttr find fst].
  - now rewrite String.eqb_refl.
  - destruct (String.eqb k key) eqn:E; cbn [find fst].
    + now rewrite String.eqb_refl.
    + now rewrite E.
Qed.

Lemma attrValue_setAttr_ne key key' value attrs :
  key' <> key ->
  attrValue key (setAttr key' value attrs) = attrValue key attrs.
Proof.
  intros Hne. unfold attrValue.
  induction attrs as [|[k v] attrs IH]; cbn [setAttr find fst].
  - now rewrite (proj2 (String.eqb_neq _ _) Hne).
  - destruct (String.eqb k key') eqn:E; cbn [find fst].
    + apply String.eqb_eq in E. subst k.
      now rewrite (proj2 (String.eqb_neq _ _) Hne).
    + destruct (String.eqb k key); [reflexivity|exact IH].
Qed.

Lemma attrValue_absent key attrs :
  ~ In key (map fst attrs) -> attrValue key attrs = None.
Proof.
  unfold attrValue. induction attrs as [|[k v] attrs IH]; [reflexivity|].
  cbn [map fst In find]. intros Hn.
  destruct (String.eqb_spec k key) as [->|Hne]; [tauto|].
  apply IH. tauto.
Qed.

Lemma attrValue_mergeAttrs key style :
  List.NoDup (map fst style) ->
  forall attrs,
    attrValue key (mergeAttrs attrs style)
    = match attrValue key style with
      | Some v => Some v
      | None => attrValue key attrs
      end.
Proof.
  unfold mergeAttrs.
  induction style as [|[k v] style IH]; intros Hnd attrs; [reflexivity|].
  cbn [map fst] in Hnd. apply List.NoDup_cons_iff in Hnd as [Hk Hnd].
  cbn [fold_left fst snd]. rewrite (IH Hnd).
  assert (Hhead : attrValue key ((k, v) :: style)
                  = if String.eqb k key then Some v else attrValue key style).
  { unfold attrValue. cbn [find fst]. now destruct (String.eqb k key). }
  rewrite Hhead.
  destruct (String.eqb_spec k key) as [->|Hne].
  - rewrite (attrValue_absent key style Hk), attrValue_setAttr_eq. reflexivity.
  - rewrite attrValue_setAttr_ne by exact Hne. reflexivity.
Qed.

(** X17. [applyStyle] keeps the items of the content and their text, and
    changes their attributes as an object spread does: an attribute of the
    style gets the style's value, every other attribute keeps the value it
    had (a plain string becomes one item without attributes first).  The
    keys of the style are assumed pairwise distinct, as the keys of an
    object are. *)
Theorem applyStyle_spread (content : InlineContent)
    (style : list (string * string)) :
  List.NoDup (map fst style) ->
  flattenToText (applyStyle content style) = flattenToText content
  /\ Forall2
       (fun old new =>
          flattenStyled new = flattenStyled old
          /\ forall key,
               attrValue key (itemAttrs new)
               = match attrValue key style with
                 | Some v => Some v
                 | None => attrValue key (itemAttrs old)
                 end)
       (pushInline (Some content))
       (pushInline (Some (applyStyle content style))).
Proof.
  intros Hnd. split; [apply flattenToText_applyStyle|].
  assert (Hitem : forall item,
             flattenStyled (styleItem style item) = flattenStyled item
             /\ forall key,
                  attrValue key (itemAttrs (styleItem style item))
                  = match attrValue key style with
                    | Some v => Some v
                    | None => attrValue key (itemAttrs item)
                    end).
  { intros item. split; [apply flattenStyled_styleItem|].
    intros key. destruct item; cbn [styleItem itemAttrs];
      now apply attrValue_mergeAttrs. }
  destruct content as [s|t|l]; cbn [applyStyle pushInline].
  - constructor; [|constructor]. apply (Hitem (Styled s [])).
  - constructor; [|constructor]. apply Hitem.
  - induction l as [|x l IH]; cbn [map]; constructor; [apply Hitem|exact IH].
Qed.

Lemma applyStyle_spread_witness :
  List.NoDup (map fst (linkStyle "https://example.org"))
  /\ flattenToText
       (applyStyle (IStyled (Styled "here" [("color", "#333333")]%string))
          (linkStyle "https://example.org"))
     = "here"%string.
Proof.
  assert (H : List.NoDup (map fst (linkStyle "https://example.org"))).
  { cbn. repeat constructor; cbn; intuition discriminate. }
  split; [exact H|].
  apply (applyStyle_spread
           (IStyled (Styled "here" [("color", "#333333")]%string))
           (linkStyle "https://example.org") H).
Defined.

(** ** Streams without a frame header *)

Lemma jpegScan_segments_then (segments : list (Z * list byte))
    (tail : list byte) (fuel : nat) :
  forallb skippable segments = true ->
  forall pre,
    jpegScan (length segments + fuel) (pre ++ jpegStream segments ++ tail)
      (Z.of_nat (length pre))
    = jpegScan fuel (pre ++ jpegStream segments ++ tail)
        (Z.of_nat (length (pre ++ jpegStream segments))).
Proof.
  intros Hsegs. induction segments as [|s segments IH]; intros pre.
  - cbn [jpegStream flat_map length Nat.add]. now rewrite app_nil_r.
  - cbn [forallb] in Hsegs. apply andb_true_iff in Hsegs as [Hs Hsegs].
    cbn [jpegStream flat_map length Nat.add]. rewrite <- (app_assoc _ _ tail).
    rewrite (jpegScan_segment pre _ _ s Hs).
    rewrite (app_assoc pre (jpegSegment s.1 s.2)). rewrite (IH Hsegs).
    now rewrite <- !app_assoc.
Qed.

(** X18. A JPEG stream of correctly sized segments without start-of-frame
    header yields no dimensions and no exception, both when it ends
    exactly after the last segment and when an end-of-image marker follows
    (whatever comes after that marker). *)
Theorem jpeg_without_frame (segments : list (Z * list byte))
    (rest : list byte) :
  forallb skippable segments = true ->
  getImageDimensions (bytes [0xff; 0xd8] ++ jpegStream segments) "image/jpeg"
  = Return None
  /\ getImageDimensions
       (bytes [0xff; 0xd8] ++ jpegStream segments ++ be16 0xffd9 ++ rest)
       "image/jpeg"
     = Return None.
Proof.
  intros Hsegs.
  assert (Hmain : forall tail,
             jpegScan 1 (bytes [0xff; 0xd8] ++ jpegStream segments ++ tail)
               (Z.of_nat (length (bytes [0xff; 0xd8] ++ jpegStream segments)))
             = Some (Return None) ->
             getImageDimensions
               (bytes [0xff; 0xd8] ++ jpegStream segments ++ tail) "image/jpeg"
             = Return None).
  { intros tail Hend.
    set (buffer := bytes [0xff; 0xd8] ++ jpegStream segments ++ tail) in *.
    change (getImageDimensions buffer "image/jpeg")
      with (getJpegDimensions buffer).
    pose proof (jpegScan_segments_then segments tail 1 Hsegs
                  (bytes [0xff; 0xd8])) as Hscan.
    fold buffer in Hscan. rewrite Hend in Hscan.
    change (Z.of_nat (length (bytes [255; 216]))) with 2 in Hscan.
    assert (Hfuel : (length segments + 1 <= jpegFuel buffer)%nat).
    { unfold jpegFuel. subst buffer. rewrite !length_app.
      assert (Hs : (length segments <= length (jpegStream segments))%nat).
      { clear. induction segments as [|s l IH]; [reflexivity|].
        cbn [jpegStream flat_map length]. rewrite length_app.
        unfold jpegSegment at 1, be16. cbn [app length].
        fold (jpegStream l). lia. }
      lia. }
    apply (jpegScan_fuel_le _ _ _ _ _ Hfuel) in Hscan.
    unfold getJpegDimensions. rewrite Hscan.
    assert (Hsig : getUint16 buffer 0 = Return 0xffd8).
    { subst buffer. apply (getUint16_be16 [] _ 0xffd8). lia. }
    rewrite Hsig. reflexivity. }
  split.
  - rewrite <- (app_nil_r (jpegStream segments)). apply Hmain.
    cbn [jpegScan]. rewrite !app_nil_r.
    unfold byteLength. now rewrite Z.ltb_irrefl.
  - apply Hmain. cbn [jpegScan].
    set (pre := bytes [0xff; 0xd8] ++ jpegStream segments).
    replace (bytes [0xff; 0xd8] ++ jpegStream segments ++ be16 0xffd9 ++ rest)
      with (pre ++ be16 0xffd9 ++ rest)
      by (subst pre; now rewrite <- !app_assoc).
    rewrite (getUint16_be16 pre rest 0xffd9) by lia.
    destruct (Z.of_nat (length pre) <? byteLength (pre ++ be16 65497 ++ rest))
      eqn:E; reflexivity.
Qed.

Lemma jpeg_without_frame_witness :
  forallb skippable [(0xffe0, bytes [74; 70; 73; 70; 0])] = true
  /\ getImageDimensions
       (bytes [0xff; 0xd8] ++ jpegStream [(0xffe0, bytes [74; 70; 73; 70; 0])])
       "image/jpeg"
     = Return None.
Proof.
  split; [reflexivity|].
  apply (jpeg_without_frame [(0xffe0, bytes [74; 70; 73; 70; 0])] []).
  reflexivity.
Defined.

(** ** More on the footprint map and the renderer *)

(** X19. The footprint map does not depend on the order or the repetition
    of the image nodes: two contents that visit the same image ids give the
    same map.  An image id without known dimensions gets no entry, so that
    it counts with a footprint of 0, unless the id is the name of a member
    of [Object.prototype]: the code then takes that member for the
    dimensions and stores [NaN] for a visited image (except under
    [__proto__], where nothing is ever stored). *)
Theorem calculateImageHeights_order_free (c1 c2 : list Content)
    (imageDimensions : gmap string ImageDimensions) (imageId : string) :
  calculateImageHeights (c1 ++ c2) imageDimensions
  = calculateImageHeights (c2 ++ c1) imageDimensions
  /\ calculateImageHeights (c1 ++ c1) imageDimensions
     = calculateImageHeights c1 imageDimensions
  /\ (imageDimensions !! imageId = None ->
      (inherited imageId = false ->
       calculateImageHeights c1 imageDimensions !! imageId = None
       /\ or_default
            (calculateImageHeights c1 imageDimensions !! imageId)
            (of_Z 0) = of_Z 0)
      /\ (inherited imageId = true -> imageId <> "__proto__" ->
          existsb (visits imageId) c1 = true ->
          calculateImageHeights c1 imageDimensions !! imageId = Some NaN)).
Proof.
  split; [|split].
  - apply map_eq. intros i. rewrite !calculateImageHeights_lookup.
    rewrite !existsb_app, orb_comm. reflexivity.
  - apply map_eq. intros i. rewrite !calculateImageHeights_lookup.
    rewrite !existsb_app, orb_diag. reflexivity.
  - intros E. rewrite calculateImageHeights_lookup.
    unfold getProperty. rewrite E. split.
    + intros ->. cbn [dimensionsOf].
      destruct (String.eqb imageId "__proto__"); split; reflexivity.
    + intros -> Hne Hv. apply String.eqb_neq in Hne. rewrite Hne, Hv.
      reflexivity.
Qed.

(** X20. Lists, tables and code blocks render without any image node: an
    image inside a list item or a table cell only reaches the inline
    renderer, and the only block tokens that collect images are
    paragraphs, images and block quotes. *)
Theorem lists_and_tables_hold_no_image
    (inline : list Token -> RenderContext -> InlineContent)
    (context : RenderContext) (ordered : bool)
    (items : list (bool * bool * option (list Token)))
    (header : list (option (list Token)))
    (rows : list (list (option (list Token))))
    (lang : option string) (text : string) (depth : Z)
    (tokens : option (list Token)) :
  renderBlockToken inline (ListToken ordered items) context
  = (Some (renderList inline (ListToken ordered items) context), context)
  /\ imageNodes (renderList inline (ListToken ordered items) context) = []
  /\ renderBlockToken inline (Table header rows) context
     = (Some (renderTable inline header rows context), context)
  /\ imageNodes (renderTable inline header rows context) = []
  /\ imageNodes (renderCodeBlock lang text) = []
  /\ imageNodes (renderHeading inline tokens context) = [].
Proof.
  split; [reflexivity|]. split; [apply renderList_imageNodes|].
  split; [reflexivity|]. split; [apply renderTable_imageNodes|].
  split; [apply renderCodeBlock_imageNodes|reflexivity].
Qed.
